(** * @corvid-agent/retry: retry with backoff and a circuit breaker

    A shallow embedding of [src/index.ts] and the properties of its
    specification.

    Conventions of the embedding.
    - Attempt numbers, counters and clock readings are integers ([Z]).
      Delays and the backoff factor are JavaScript numbers: IEEE-754
      binary64 values ([spec_float] of the Standard Library, precision 53,
      maximal exponent 1024), with the rounding, the overflow, the signed
      zeros and the NaN of that arithmetic.  [Math.random] and the part of
      [Math.pow] that ECMAScript leaves to the engine belong to the
      environment.
    - A computation is a function of the program state that returns a
      completion (normal, or a thrown value) and the next state.  The
      state holds the environment (clock, timers, random source, whatever
      the user's callbacks touch), the fields of the circuit breaker
      [this], and a log of the calls the library made, which is ghost
      state used to state how often and in which order things happen.
      That a callback really is called is stated on the environment
      itself: on the environment that the run leaves, or on a journal
      that the callbacks and the timers keep by themselves.
    - An [async] function never throws to its caller: it returns a
      promise, which is modelled by its settlement.  The state paired
      with a promise is the state at the moment it settles, which is
      where every caller in the source awaits it.
    - One call runs at a time: user code (operations, predicates, hooks)
      acts on the environment and does not call back into the breaker,
      and calls that overlap on one breaker (specification, 5) are
      outside the model. *)

From Stdlib Require Import ZArith List String Bool Lia.
From Stdlib Require Import Floats.SpecFloat.
Import ListNotations.

Set Implicit Arguments.

Local Open Scope Z_scope.

(** ** Values, completions and promises *)

(** [CircuitState] of the source. *)
Inductive CircuitState : Type :=
| closed
| open
| half_open.

(** What can be thrown (the source types it as [unknown]): [undefined],
    an error object with a name and a message ([Error], [TypeError],
    [RangeError], a [DOMException]), and the two error classes of the
    library.  The messages of [RetryError] and [CircuitOpenError] are
    functions of their fields and are left out. *)
Inductive Value : Type :=
| undefined
| JsError (name message : string)
| RetryError (attempts : Z) (lastError : Value)
| CircuitOpenError (failures : Z).

Definition RangeError (message : string) : Value := JsError "RangeError" message.

Definition DOMException (message name : string) : Value := JsError name message.

(** [error instanceof CircuitOpenError] *)
Definition instanceof_CircuitOpenError (error : Value) : bool :=
  match error with
  | CircuitOpenError _ => true
  | _ => false
  end.

(** How the evaluation of a call ends. *)
Inductive Completion (A : Type) : Type :=
| Normal (a : A)
| Throw (e : Value).

Arguments Throw {A} e.

(** A settled promise. *)
Inductive Promise (A : Type) : Type :=
| Fulfilled (a : A)
| Rejected (e : Value).

Arguments Rejected {A} e.

(** [RetryResult<T>] *)
Record RetryResult (T : Type) : Type := mkRetryResult {
  data : T;
  attempts : Z
}.

(** ** Numbers *)

(** A JavaScript number. *)
Definition number : Type := spec_float.

Definition prec : Z := 53.
Definition emax : Z := 1024.

(** A value of the binary64 format: a finite one has a canonical
    mantissa and an exponent in range. *)
Definition is_double (x : number) : Prop := valid_binary prec emax x = true.

(** The number that an integer literal or an integer counter denotes. *)
Definition of_Z (z : Z) : number := binary_normalize prec emax z 0 false.

(** [x * y] *)
Definition mul (x y : number) : number := SFmul prec emax x y.

(** [Number.isFinite(x)] *)
Definition finite (x : number) : bool :=
  match x with
  | S754_zero _ | S754_finite _ _ _ => true
  | _ => false
  end.

Definition leb (x y : number) : bool := SFleb x y.
Definition eqb (x y : number) : bool := SFeqb x y.

(** [Math.min(x, y)]: NaN if one of them is, and [-0] counts as smaller
    than [+0]. *)
Definition Math_min (x y : number) : number :=
  match x, y with
  | S754_nan, _ | _, S754_nan => S754_nan
  | S754_zero sx, S754_zero sy => S754_zero (sx || sy)
  | _, _ => if leb x y then x else y
  end.

(** [Math.floor(x)]: the greatest integer that is not above [x]; zeros,
    infinities and NaN are returned as they are.  A finite [x] is
    [m * 2^e] up to its sign; the integer found is below [2^53], hence
    a number. *)
Definition Math_floor (x : number) : number :=
  match x with
  | S754_finite s m e =>
      if 0 <=? e then x
      else
        let q := Z.shiftr (Zpos m) (- e) in
        let whole := Z.shiftl q (- e) =? Zpos m in
        if s then binary_normalize prec emax (- (if whole then q else q + 1)) 0 true
        else binary_normalize prec emax q 0 false
  | _ => x
  end.

Arguments of_Z : simpl never.
Arguments mul : simpl never.
Arguments Math_min : simpl never.
Arguments Math_floor : simpl never.

(** ** The environment *)

(** User code: it reads and changes the environment and may throw. *)
Definition User (World A : Type) : Type := World -> Completion A * World.

(** An [AbortSignal]: its [aborted] flag and its [reason] ([None] when
    the reason is [undefined] or [null]) are read from the environment. *)
Record AbortSignal (World : Type) : Type := mkAbortSignal {
  aborted : World -> bool;
  reason : World -> option Value
}.

(** The collaborators of the library: the clock, the random source, the
    timer and the engine's power function.  [setTimeout_fires ms w] is
    the environment when a timer of [ms] set at [w] fires;
    [abort_dispatched sg ms w] is [Some w'] when the [abort] event of
    [sg] is dispatched, at [w'], before that timer fires.
    [pow_of_engine] is what [Math.pow] returns where ECMAScript asks
    for an approximation only. *)
Class Runtime (World : Type) : Type := {
  Date_now : World -> Z;
  Math_random : World -> number * World;
  pow_of_engine : number -> number -> number;
  setTimeout_fires : number -> World -> World;
  abort_dispatched : AbortSignal World -> number -> World -> option World
}.

(** ** Options *)

(** [RetryOptions]; a field left out is [None]. *)
Record RetryOptions (World : Type) : Type := mkRetryOptions {
  maxAttempts : option Z;
  baseDelay : option number;
  maxDelay : option number;
  factor : option number;
  jitter : option bool;
  retryIf : option (Value -> Z -> User World bool);
  onRetry : option (Value -> Z -> number -> User World unit);
  signal : option (AbortSignal World)
}.

(** [CircuitBreakerOptions] *)
Record CircuitBreakerOptions (World : Type) : Type := mkCircuitBreakerOptions {
  opt_failureThreshold : option Z;
  opt_resetTimeout : option Z;
  opt_halfOpenSuccesses : option Z;
  opt_onStateChange : option (CircuitState -> CircuitState -> User World unit)
}.

(** The fields of a [CircuitBreaker] object. *)
Record CircuitBreaker (World : Type) : Type := mkCircuitBreaker {
  state : CircuitState;
  failures : Z;
  successes : Z;
  lastFailureTime : Z;
  failureThreshold : Z;
  resetTimeout : Z;
  halfOpenSuccesses : Z;
  onStateChange : option (CircuitState -> CircuitState -> User World unit)
}.

(** ** The log *)

(** What the library did, in the order it did it.
    - [EvAttempt n r]: [retry] called [fn(n)] and awaited it; [r] is
      [None] when it succeeded and [Some e] when it failed with [e].
    - [EvOnRetry e n d]: [retry] called [onRetry(e, n, d)].
    - [EvSleep d r]: [retry] awaited [sleep(d, signal)]; [r] is [None]
      when the timer fired and [Some e] when the sleep rejected with [e].
    - [EvOperation r]: the breaker called the wrapped operation and
      awaited it; [r] as for [EvAttempt].
    - [EvStateChange from to]: the breaker changed its state and
      notified [onStateChange], if there is one. *)
Inductive Event : Type :=
| EvAttempt (attempt : Z) (failure : option Value)
| EvOnRetry (error : Value) (attempt : Z) (delay : number)
| EvSleep (ms : number) (rejection : option Value)
| EvOperation (failure : option Value)
| EvStateChange (from to : CircuitState).

(** ** Computations *)

Section Model.

Context {World : Type} {RT : Runtime World}.

Record State : Type := mkState {
  world : World;
  this : CircuitBreaker World;
  log : list Event
}.

Definition M (A : Type) : Type := State -> Completion A * State.

Definition ret {A} (a : A) : M A := fun s => (Normal a, s).

Definition throw {A} (e : Value) : M A := fun s => (Throw e, s).

Definition bind {A B} (c : M A) (k : A -> M B) : M B :=
  fun s =>
    match c s with
    | (Normal a, s') => k a s'
    | (Throw e, s') => (Throw e, s')
    end.

(** [try { c } catch (error) { handler }] *)
Definition try_catch {A} (c : M A) (handler : Value -> M A) : M A :=
  fun s =>
    match c s with
    | (Normal a, s') => (Normal a, s')
    | (Throw e, s') => handler e s'
    end.

(** The call of an [async] function: the body runs, and what it returns
    or throws settles the promise that the call returns. *)
Definition async {A} (body : M A) : M (Promise A) :=
  fun s =>
    match body s with
    | (Normal a, s') => (Normal (Fulfilled a), s')
    | (Throw e, s') => (Normal (Rejected e), s')
    end.

(** [await p] *)
Definition await {A} (p : Promise A) : M A :=
  match p with
  | Fulfilled a => ret a
  | Rejected e => throw e
  end.

(** Running user code: it sees the environment only. *)
Definition user {A} (u : User World A) : M A :=
  fun s =>
    let (r, w) := u (world s) in
    (r, mkState w (this s) (log s)).

(** Reading the environment. *)
Definition read {A} (f : World -> A) : M A :=
  fun s => (Normal (f (world s)), s).

Definition emit (ev : Event) : M unit :=
  fun s => (Normal tt, mkState (world s) (this s) (log s ++ [ev])).

Definition get_this : M (CircuitBreaker World) := fun s => (Normal (this s), s).

Notation "x <- c ;; k" := (bind c (fun x => k))
  (at level 61, c at next level, right associativity).
Notation "c ;;; k" := (bind c (fun _ => k))
  (at level 61, right associativity).

(** ** Helpers of the source *)

(** [Math.pow(base, exponent)] (ECMAScript, Number::exponentiate): NaN
    for a NaN exponent, 1 for a zero exponent whatever the base, and
    otherwise the function of the engine. *)
Definition Math_pow (base exponent : number) : number :=
  match exponent with
  | S754_nan => S754_nan
  | S754_zero _ => of_Z 1
  | _ => pow_of_engine base exponent
  end.

(** [Math.random()] *)
Definition random : M number :=
  fun s =>
    let (r, w) := Math_random (world s) in
    (Normal r, mkState w (this s) (log s)).

(** [function computeDelay(attempt, baseDelay, maxDelay, factor, jitter)] *)
Definition computeDelay (attempt : Z) (baseDelay maxDelay factor : number)
    (jitter : bool) : M number :=
  let exponential := mul baseDelay (Math_pow factor (of_Z (attempt - 1))) in
  let capped := Math_min exponential maxDelay in
  if negb jitter then ret capped
  else
    r <- random ;;
    ret (Math_floor (mul r capped)).

(** [signal?.aborted] *)
Definition signal_aborted (signal : option (AbortSignal World)) (w : World) : bool :=
  match signal with
  | Some sg => aborted sg w
  | None => false
  end.

(** [signal.reason ?? new DOMException("Aborted", "AbortError")] *)
Definition abort_reason (sg : AbortSignal World) (w : World) : Value :=
  match reason sg w with
  | Some e => e
  | None => DOMException "Aborted" "AbortError"
  end.

(** [if (signal?.aborted) throw signal.reason ?? new DOMException(...)] *)
Definition throw_if_aborted (signal : option (AbortSignal World)) : M unit :=
  match signal with
  | Some sg =>
      a <- read (aborted sg) ;;
      if a : bool then (w <- read (fun w => w) ;; throw (abort_reason sg w))
      else ret tt
  | None => ret tt
  end.

(** [function sleep(ms, signal)], awaited: the promise rejects at once
    when the signal is already aborted; otherwise it settles with
    whichever comes first, the timer or the [abort] event. *)
Definition sleep (ms : number) (signal : option (AbortSignal World)) : M unit :=
  fun s =>
    let w := world s in
    match signal with
    | Some sg =>
        if aborted sg w then (Throw (abort_reason sg w), s)
        else
          match abort_dispatched sg ms w with
          | Some w' => (Throw (abort_reason sg w'), mkState w' (this s) (log s))
          | None => (Normal tt, mkState (setTimeout_fires ms w) (this s) (log s))
          end
    | None => (Normal tt, mkState (setTimeout_fires ms w) (this s) (log s))
    end.

(** A call whose settlement is recorded in the log. *)
Definition logged {A} (ev : option Value -> Event) (c : M A) : M A :=
  fun s =>
    match c s with
    | (Normal a, s') => (Normal a, mkState (world s') (this s') (log s' ++ [ev None]))
    | (Throw e, s') => (Throw e, mkState (world s') (this s') (log s' ++ [ev (Some e)]))
    end.

(** A default of a destructuring pattern or of [??]. *)
Definition default {A} (d : A) (o : option A) : A :=
  match o with
  | Some a => a
  | None => d
  end.

(** ** Core retry *)

Section Loop.

Variable T : Type.

(** The operation, as [retry] sees it: [await fn(attempt)] inside the
    [try], where a synchronous throw and a rejected promise are the same. *)
Variable fn : Z -> M T.

Variables (maxAttempts : Z) (baseDelay maxDelay factor : number) (jitter : bool).
Variable retryIf : option (Value -> Z -> User World bool).
Variable onRetry : option (Value -> Z -> number -> User World unit).
Variable signal : option (AbortSignal World).

(** The [for] loop of [retry] and the [throw new RetryError] after it.
    [attempt] runs from 1 while [attempt <= maxAttempts]; [remaining] is
    the number of iterations that test still admits,
    [maxAttempts + 1 - attempt], so the loop is left when it is 0.
    [lastError] is the variable of that name.  The [break] of the last
    attempt goes to the same [throw], where [lastError] is the error just
    caught. *)
Fixpoint retry_loop (remaining : nat) (attempt : Z) (lastError : Value)
    : M (RetryResult T) :=
  match remaining with
  | O => throw (RetryError maxAttempts lastError)
  | S remaining' =>
      try_catch
        (throw_if_aborted signal ;;;
         data <- logged (EvAttempt attempt) (fn attempt) ;;
         ret (mkRetryResult data attempt))
        (fun error =>
           a <- read (signal_aborted signal) ;;
           if a : bool then throw error
           else
             go <- match retryIf with
                   | Some p => user (p error attempt)
                   | None => ret true
                   end ;;
             if negb go then throw error
             else if attempt =? maxAttempts then
               throw (RetryError maxAttempts error)
             else
               delay <- computeDelay attempt baseDelay maxDelay factor jitter ;;
               match onRetry with
               | Some h => emit (EvOnRetry error attempt delay) ;;; user (h error attempt delay)
               | None => ret tt
               end ;;;
               logged (EvSleep delay) (sleep delay signal) ;;;
               retry_loop remaining' (attempt + 1) error)
  end.

End Loop.

(** [export async function retry(fn, options = {})] *)
Definition retry {T} (fn : Z -> M T) (options : RetryOptions World)
    : M (Promise (RetryResult T)) :=
  async
    (let maxAttempts := default 3 (maxAttempts options) in
     let baseDelay := default (of_Z 1000) (baseDelay options) in
     let maxDelay := default (of_Z 30000) (maxDelay options) in
     let factor := default (of_Z 2) (factor options) in
     let jitter := default true (jitter options) in
     if maxAttempts <? 1 then throw (RangeError "maxAttempts must be >= 1")
     else
       retry_loop fn maxAttempts baseDelay maxDelay factor jitter
         (retryIf options) (onRetry options) (signal options)
         (Z.to_nat maxAttempts) 1 undefined).

(** ** Circuit breaker *)

Definition CircuitState_eqb (a b : CircuitState) : bool :=
  match a, b with
  | closed, closed | open, open | half_open, half_open => true
  | _, _ => false
  end.

(** [constructor(options = {})] with the initial values of the fields. *)
Definition new_CircuitBreaker (options : CircuitBreakerOptions World)
    : CircuitBreaker World :=
  {| state := closed;
     failures := 0;
     successes := 0;
     lastFailureTime := 0;
     failureThreshold := default 5 (opt_failureThreshold options);
     resetTimeout := default 60000 (opt_resetTimeout options);
     halfOpenSuccesses := default 1 (opt_halfOpenSuccesses options);
     onStateChange := opt_onStateChange options |}.

(** Assignments to the fields of [this]. *)
Definition with_state (v : CircuitState) (b : CircuitBreaker World) :=
  mkCircuitBreaker v (failures b) (successes b) (lastFailureTime b)
    (failureThreshold b) (resetTimeout b) (halfOpenSuccesses b) (onStateChange b).

Definition with_failures (v : Z) (b : CircuitBreaker World) :=
  mkCircuitBreaker (state b) v (successes b) (lastFailureTime b)
    (failureThreshold b) (resetTimeout b) (halfOpenSuccesses b) (onStateChange b).

Definition with_successes (v : Z) (b : CircuitBreaker World) :=
  mkCircuitBreaker (state b) (failures b) v (lastFailureTime b)
    (failureThreshold b) (resetTimeout b) (halfOpenSuccesses b) (onStateChange b).

Definition with_lastFailureTime (v : Z) (b : CircuitBreaker World) :=
  mkCircuitBreaker (state b) (failures b) (successes b) v
    (failureThreshold b) (resetTimeout b) (halfOpenSuccesses b) (onStateChange b).

Definition assign (f : CircuitBreaker World -> CircuitBreaker World) : M unit :=
  fun s => (Normal tt, mkState (world s) (f (this s)) (log s)).

(** [private transition(to)] *)
Definition transition (to : CircuitState) : M unit :=
  b <- get_this ;;
  if negb (CircuitState_eqb (state b) to) then
    let from := state b in
    assign (with_state to) ;;;
    emit (EvStateChange from to) ;;;
    match onStateChange b with
    | Some h => user (h from to)
    | None => ret tt
    end
  else ret tt.

(** [private checkHalfOpen()] *)
Definition checkHalfOpen : M unit :=
  b <- get_this ;;
  now <- read Date_now ;;
  if CircuitState_eqb (state b) open
     && (now - lastFailureTime b >=? resetTimeout b) then
    transition half_open ;;;
    assign (with_successes 0)
  else ret tt.

(** [private onSuccess()] *)
Definition onSuccess : M unit :=
  b <- get_this ;;
  if CircuitState_eqb (state b) half_open then
    assign (with_successes (successes b + 1)) ;;;
    b' <- get_this ;;
    if successes b' >=? halfOpenSuccesses b' then
      transition closed ;;;
      assign (with_failures 0) ;;;
      assign (with_successes 0)
    else ret tt
  else assign (with_failures 0).

(** [private onFailure()] *)
Definition onFailure : M unit :=
  b <- get_this ;;
  assign (with_failures (failures b + 1)) ;;;
  now <- read Date_now ;;
  assign (with_lastFailureTime now) ;;;
  b' <- get_this ;;
  if CircuitState_eqb (state b') half_open then transition open
  else if failures b' >=? failureThreshold b' then transition open
  else ret tt.

(** [getState()] *)
Definition getState : M CircuitState :=
  checkHalfOpen ;;;
  b <- get_this ;;
  ret (state b).

(** [getFailures()] *)
Definition getFailures : M Z :=
  b <- get_this ;;
  ret (failures b).

(** [reset()] *)
Definition reset : M unit :=
  transition closed ;;;
  assign (with_failures 0) ;;;
  assign (with_successes 0).

(** [async call(fn)]; [fn] is the wrapped operation as [await fn()]
    sees it. *)
Definition call {T} (fn : M T) : M (Promise T) :=
  async
    (checkHalfOpen ;;;
     b <- get_this ;;
     if CircuitState_eqb (state b) open then
       throw (CircuitOpenError (failures b))
     else
       try_catch
         (result <- logged EvOperation fn ;;
          onSuccess ;;;
          ret result)
         (fun error =>
            onFailure ;;;
            throw error)).

(** [try { await this.call(fn) } catch { }] for each [fn] in turn: the
    loop with which the test suite drives a breaker. *)
Fixpoint calls_ignoring_errors {T} (fns : list (M T)) : M unit :=
  match fns with
  | [] => ret tt
  | fn :: rest =>
      call fn ;;;
      calls_ignoring_errors rest
  end.

(** The [retryIf] that [callWithRetry] passes to [retry]. *)
Definition callWithRetry_retryIf (retryOptions : RetryOptions World)
    : Value -> Z -> User World bool :=
  fun error attempt =>
    if instanceof_CircuitOpenError error then fun w => (Normal false, w)
    else
      match retryIf retryOptions with
      | Some p => p error attempt
      | None => fun w => (Normal true, w)
      end.

(** [async callWithRetry(fn, retryOptions = {})]; the object literal
    copies [retryOptions] and replaces [retryIf]. *)
Definition callWithRetry {T} (fn : Z -> M T) (retryOptions : RetryOptions World)
    : M (Promise (RetryResult T)) :=
  async
    (p <- retry
            (fun attempt => q <- call (fn attempt) ;; await q)
            {| maxAttempts := maxAttempts retryOptions;
               baseDelay := baseDelay retryOptions;
               maxDelay := maxDelay retryOptions;
               factor := factor retryOptions;
               jitter := jitter retryOptions;
               retryIf := Some (callWithRetry_retryIf retryOptions);
               onRetry := onRetry retryOptions;
               signal := signal retryOptions |} ;;
     await p).

(** ** Convenience helpers *)



(** [withRetry(fn, options = {})]: the function it returns, applied to
    [args]. *)
Definition withRetry {Args T} (fn : Args -> M T) (options : RetryOptions World)
    : Args -> M (Promise (RetryResult T)) :=
  fun args => retry (fun _ => fn args) options.

End Model.

Arguments State World : clear implicits.
Arguments M World A : clear implicits.
Arguments Math_pow : simpl never.

Notation "x <- c ;; k" := (bind c (fun x => k))
  (at level 61, c at next level, right associativity).
Notation "c ;;; k" := (bind c (fun _ => k))
  (at level 61, right associativity).

(** ** A simulated environment

    A clock in milliseconds, a counter that the operations below
    increment, and one abort controller that aborts when the clock
    reaches [abort_at].  It serves to run the model on concrete
    scenarios, those of the test suite among them. *)

Module Sim.

Record World : Type := mkWorld {
  clock : Z;
  calls : Z;
  abort_at : option Z
}.

Definition tick (ms : Z) (w : World) : World :=
  mkWorld (clock w + ms) (calls w) (abort_at w).

(** The reason that [controller.abort()], called without an argument,
    gives its signal (the message is the engine's). *)
Definition controller_reason : Value :=
  DOMException "The operation was aborted." "AbortError".

(** [controller.signal]: [reason] is [undefined] until the controller
    aborts. *)
Definition controller_signal : AbortSignal World :=
  {| aborted := fun w =>
       match abort_at w with
       | Some t => t <=? clock w
       | None => false
       end;
     reason := fun w =>
       match abort_at w with
       | Some t => if t <=? clock w then Some controller_reason else None
       | None => None
       end |}.

(** The number 0.5, which the random source below always draws. *)
Definition half : number := S754_finite false 4503599627370496 (-53).

(** The whole milliseconds that a timer of [ms] runs: [ms] rounded up,
    and 0 when [ms] is not a positive finite number. *)
Definition timer_ms (ms : number) : Z :=
  match ms with
  | S754_finite false m e =>
      if 0 <=? e then Zpos m * 2 ^ e else - ((- Zpos m) / 2 ^ (- e))
  | _ => 0
  end.

(** The natural number that a number is, if it is one. *)
Definition to_nat (x : number) : option nat :=
  match x with
  | S754_zero _ => Some O
  | S754_finite false m e =>
      if 0 <=? e then Some (Z.to_nat (Zpos m * 2 ^ e))
      else
        let q := Z.shiftr (Zpos m) (- e) in
        if Z.shiftl q (- e) =? Zpos m then Some (Z.to_nat q) else None
  | _ => None
  end.

(** A power with a natural exponent, by repeated multiplication. *)
Fixpoint pow_nat (base : number) (k : nat) : number :=
  match k with
  | O => of_Z 1
  | S k' => mul base (pow_nat base k')
  end.

(** The power function of the simulated engine; the library only asks
    for natural exponents, and NaN stands for the other results. *)
Definition pow_sim (base exponent : number) : number :=
  match to_nat exponent with
  | Some k => pow_nat base k
  | None => S754_nan
  end.

#[export] Instance runtime : Runtime World :=
  {| Date_now := clock;
     Math_random := fun w => (half, w);
     pow_of_engine := pow_sim;
     setTimeout_fires := fun ms w => tick (timer_ms ms) w;
     abort_dispatched := fun _ ms w =>
       match abort_at w with
       | Some t =>
           if (clock w <? t) && (t <? clock w + timer_ms ms)
           then Some (mkWorld t (calls w) (abort_at w))
           else None
       | None => None
       end |}.

Definition start (w : World) (b : CircuitBreaker World) : State World :=
  mkState w b [].

Definition fresh : World := mkWorld 0 0 None.

Definition a_breaker : CircuitBreaker World :=
  new_CircuitBreaker (mkCircuitBreakerOptions None None None None).

(** [new Error("fail")] *)
Definition failure : Value := JsError "Error" "fail".

(** [() => { calls++; throw new Error("fail"); }] *)
Definition always_fails : User World string :=
  fun w => (Throw failure, mkWorld (clock w) (calls w + 1) (abort_at w)).

(** [() => { calls++; if (calls < n) throw new Error("fail"); return "ok"; }] *)
Definition succeeds_at (n : Z) : User World string :=
  fun w =>
    let w' := mkWorld (clock w) (calls w + 1) (abort_at w) in
    if calls w' <? n then (Throw failure, w')
    else (Normal "ok"%string, w').

(** [() => "ok"] *)
Definition succeeds : User World string :=
  fun w => (Normal "ok"%string, w).

(** An operation that takes [ms] milliseconds and then runs [op]. *)
Definition after {A} (ms : Z) (op : User World A) : User World A :=
  fun w => op (tick ms w).

(** [await new Promise((r) => setTimeout(r, ms))] *)
Definition pause (ms : Z) : M World unit :=
  user (fun w => (Normal tt, tick ms w)).

(** [(_err, _attempt, _delay) => {}] *)
Definition quiet_hook : Value -> Z -> number -> User World unit :=
  fun _ _ _ w => (Normal tt, w).

(** [{ maxAttempts: 3, baseDelay: 100, jitter: false, onRetry }] *)
Definition three_attempts : RetryOptions World :=
  {| maxAttempts := Some 3;
     baseDelay := Some (of_Z 100);
     maxDelay := None;
     factor := None;
     jitter := Some false;
     retryIf := None;
     onRetry := Some quiet_hook;
     signal := None |}.

(** [{ maxAttempts: 0 }] *)
Definition zero_attempts : RetryOptions World :=
  mkRetryOptions (Some 0) None None None None None None None.

(** [{ maxAttempts: 10, baseDelay: 100, jitter: false, signal }] *)
Definition ten_attempts_with_signal : RetryOptions World :=
  {| maxAttempts := Some 10;
     baseDelay := Some (of_Z 100);
     maxDelay := None;
     factor := None;
     jitter := Some false;
     retryIf := None;
     onRetry := None;
     signal := Some controller_signal |}.

(** [{ maxAttempts: 10, baseDelay: 0, jitter: false }] *)
Definition ten_immediate_attempts : RetryOptions World :=
  mkRetryOptions (Some 10) (Some (of_Z 0)) None None (Some false) None None None.

(** [new CircuitBreaker({ failureThreshold })] *)
Definition breaker_with_threshold (n : Z) : CircuitBreaker World :=
  new_CircuitBreaker (mkCircuitBreakerOptions (Some n) None None None).

(** [new CircuitBreaker({ failureThreshold: 1, resetTimeout: 50,
    halfOpenSuccesses: 2 })] *)
Definition probing_breaker : CircuitBreaker World :=
  new_CircuitBreaker (mkCircuitBreakerOptions (Some 1) (Some 50) (Some 2) None).

(** A breaker with threshold 3 after three failed calls. *)
Definition tripped : State World :=
  snd (calls_ignoring_errors (map user [always_fails; always_fails; always_fails])
         (start fresh (breaker_with_threshold 3))).

(** The environment in which the controller aborts at time 50. *)
Definition aborting_at_50 : World := mkWorld 0 0 (Some 50).

(** [new DOMException("Aborted", "AbortError")] *)
Definition abort_error : Value := DOMException "Aborted" "AbortError".

(** The probing breaker, opened by a failure at time 0, read at time 60. *)
Definition overdue : State World :=
  snd ((call (user always_fails) ;;; pause 60) (start fresh probing_breaker)).

(** The same breaker after one successful probe. *)
Definition probed_once : State World :=
  snd (call (user succeeds) overdue).



(** [{ maxAttempts: 3, baseDelay: 100 }], with the jitter of the default. *)
Definition three_jittered_attempts : RetryOptions World :=
  mkRetryOptions (Some 3) (Some (of_Z 100)) None None None None None None.

(** The environment in which the controller has aborted already. *)
Definition aborted_already : World := mkWorld 0 0 (Some 0).

(** [new Error("hook")] *)
Definition hook_error : Value := JsError "Error" "hook".

(** [() => { throw new Error("hook"); }] as [onRetry] *)
Definition throwing_hook : Value -> Z -> number -> User World unit :=
  fun _ _ _ w => (Throw hook_error, w).

(** [() => { throw new Error("hook"); }] as [retryIf] *)
Definition throwing_predicate : Value -> Z -> User World bool :=
  fun _ _ w => (Throw hook_error, w).

(** [{ maxAttempts: 3, baseDelay: 100, jitter: false, onRetry }] with the
    hook that throws. *)
Definition three_attempts_throwing_hook : RetryOptions World :=
  mkRetryOptions (Some 3) (Some (of_Z 100)) None None (Some false) None
    (Some throwing_hook) None.

(** [{ maxAttempts: 3, baseDelay: 100, jitter: false, retryIf }] with the
    predicate that throws. *)
Definition three_attempts_throwing_predicate : RetryOptions World :=
  mkRetryOptions (Some 3) (Some (of_Z 100)) None None (Some false)
    (Some throwing_predicate) None None.

(** [(from, to) => { if (to === "closed") throw new Error("hook"); }] *)
Definition closing_hook : CircuitState -> CircuitState -> User World unit :=
  fun _ to w =>
    match to with
    | closed => (Throw hook_error, w)
    | _ => (Normal tt, w)
    end.

(** [new CircuitBreaker({ failureThreshold: 1, resetTimeout: 50,
    halfOpenSuccesses: 1, onStateChange })] with that hook. *)
Definition hooked_breaker : CircuitBreaker World :=
  new_CircuitBreaker
    (mkCircuitBreakerOptions (Some 1) (Some 50) (Some 1) (Some closing_hook)).

(** That breaker, opened by a failure at time 0 and found half-open at
    time 60. *)
Definition hooked_half_open : State World :=
  snd ((call (user always_fails) ;;; pause 60 ;;; getState)
         (start fresh hooked_breaker)).

(** A breaker of the default options after one failed call. *)
Definition failed_once : State World :=
  snd (call (user always_fails) (start fresh a_breaker)).

(** The environment in which the controller aborts at time 250. *)
Definition aborting_at_250 : World := mkWorld 0 0 (Some 250).

(** [new CircuitBreaker({ failureThreshold: 2, resetTimeout: 50 })] *)
Definition impatient_breaker : CircuitBreaker World :=
  new_CircuitBreaker (mkCircuitBreakerOptions (Some 2) (Some 50) None None).

(** [{ maxAttempts: 5, baseDelay: 100, jitter: false }] *)
Definition five_slow_attempts : RetryOptions World :=
  mkRetryOptions (Some 5) (Some (of_Z 100)) None None (Some false) None None None.

End Sim.

(** ** A simulated environment that keeps a journal

    A clock and a journal.  The operations and the hook below push
    their own call onto the journal, as a spy of a test suite does, and
    a timer pushes its delay when it fires.  There is no abort
    controller. *)

Module Spy.

Record World : Type := mkWorld {
  clock : Z;
  journal : list Event
}.

Definition note (ev : Event) (w : World) : World :=
  mkWorld (clock w) (journal w ++ [ev]).

#[export] Instance runtime : Runtime World :=
  {| Date_now := clock;
     Math_random := fun w => (Sim.half, w);
     pow_of_engine := Sim.pow_sim;
     setTimeout_fires := fun ms w =>
       mkWorld (clock w + Sim.timer_ms ms) (journal w ++ [EvSleep ms None]);
     abort_dispatched := fun _ _ _ => None |}.

(** A breaker of the default options, the clock at 0 and nothing noted
    yet. *)
Definition start : State World :=
  mkState (mkWorld 0 [])
    (new_CircuitBreaker (mkCircuitBreakerOptions None None None None)) [].

(** [(attempt) => { seen.push(attempt); throw new Error("fail"); }] *)
Definition always_fails : Z -> User World string :=
  fun attempt w =>
    (Throw Sim.failure, note (EvAttempt attempt (Some Sim.failure)) w).

(** [(attempt) => { seen.push(attempt);
                    if (attempt < n) throw new Error("fail"); return "ok"; }] *)
Definition succeeds_at (n : Z) : Z -> User World string :=
  fun attempt w =>
    if attempt <? n then
      (Throw Sim.failure, note (EvAttempt attempt (Some Sim.failure)) w)
    else (Normal "ok"%string, note (EvAttempt attempt None) w).

(** [(err, attempt, delay) => { hooked.push([err, attempt, delay]); }] *)
Definition noting_hook : Value -> Z -> number -> User World unit :=
  fun error attempt delay w => (Normal tt, note (EvOnRetry error attempt delay) w).

(** [{ maxAttempts: 3, baseDelay: 100, jitter: false, onRetry }] *)
Definition three_attempts : RetryOptions World :=
  mkRetryOptions (Some 3) (Some (of_Z 100)) None None (Some false) None
    (Some noting_hook) None.

(** [{ maxAttempts: 3, baseDelay: 100, maxDelay: 150, jitter: false,
    onRetry }] *)
Definition three_capped_attempts : RetryOptions World :=
  mkRetryOptions (Some 3) (Some (of_Z 100)) (Some (of_Z 150)) None (Some false) None
    (Some noting_hook) None.

End Spy.

(** ** Vocabulary of the statements *)

Section Vocabulary.

Context {World : Type} {RT : Runtime World}.

(** [checkHalfOpen] would find the breaker open and its reset timeout
    elapsed. *)
Definition due (s : State World) : Prop :=
  state (this s) = open
  /\ resetTimeout (this s) <= Date_now (world s) - lastFailureTime (this s).

(** User code that returns normally wherever it is run (the
    specification asks this of the hooks, 7). *)
Definition returns {A} (u : User World A) : Prop :=
  forall w, exists a w', u w = (Normal a, w').

(** An operation that fails wherever it is run. *)
Definition fails {A} (u : User World A) : Prop :=
  forall w, exists e w', u w = (Throw e, w').

(** A signal that is never aborted; no signal is one. *)
Definition never_cancelled (signal : option (AbortSignal World)) : Prop :=
  match signal with
  | Some sg =>
      (forall w, aborted sg w = false)
      /\ (forall ms w, abort_dispatched sg ms w = None)
  | None => True
  end.

(** The state-change hook of a breaker, if any, never throws. *)
Definition hook_total (b : CircuitBreaker World) : Prop :=
  match onStateChange b with
  | Some h => forall from to, returns (h from to)
  | None => True
  end.

(** The fields of the breaker once [onFailure] has run at clock reading
    [now]. *)
Definition after_failure (now : Z) (b : CircuitBreaker World) : CircuitBreaker World :=
  let b1 := with_lastFailureTime now (with_failures (failures b + 1) b) in
  if CircuitState_eqb (state b) half_open then with_state open b1
  else if failures b1 >=? failureThreshold b1 then with_state open b1
  else b1.

(** The fields of the breaker once [onSuccess] has run, its hook
    returning normally. *)
Definition after_success (b : CircuitBreaker World) : CircuitBreaker World :=
  if CircuitState_eqb (state b) half_open then
    let b1 := with_successes (successes b + 1) b in
    if successes b1 >=? halfOpenSuccesses b1 then
      with_successes 0 (with_failures 0 (with_state closed b1))
    else b1
  else with_failures 0 b.

(** The events that the breaker records. *)
Definition breaker_event (ev : Event) : Prop :=
  match ev with
  | EvOperation _ | EvStateChange _ _ => True
  | _ => False
  end.

(** The attempts of a log and the calls of [onRetry], each in order. *)
Fixpoint attempts_of (l : list Event) : list (Z * option Value) :=
  match l with
  | [] => []
  | EvAttempt n r :: l' => (n, r) :: attempts_of l'
  | _ :: l' => attempts_of l'
  end.

Fixpoint hooks_of (l : list Event) : list (Value * Z * number) :=
  match l with
  | [] => []
  | EvOnRetry e n d :: l' => (e, n, d) :: hooks_of l'
  | _ :: l' => hooks_of l'
  end.

(** Attempts numbered from [n] that failed with the errors [es]. *)
Fixpoint failed_from (n : Z) (es : list Value) : list (Z * option Value) :=
  match es with
  | [] => []
  | e :: es' => (n, Some e) :: failed_from (n + 1) es'
  end.

(** The promise that an [async] body settles. *)
Definition settled {A} (c : Completion A) : Promise A :=
  match c with
  | Normal a => Fulfilled a
  | Throw e => Rejected e
  end.

(** A computation that only adds to the log, and one that only adds
    events of the breaker. *)
Definition extends_log {A} (c : M World A) : Prop :=
  forall s, exists l, log (snd (c s)) = log s ++ l.

Definition adds_breaker_events {A} (c : M World A) : Prop :=
  forall s, exists l, log (snd (c s)) = log s ++ l /\ Forall breaker_event l.

(** *** The runs of the retry loop

    [run rem n le l c]: the loop, entered with [rem] iterations left
    at attempt [n] and with [le] as the last error, can add the events
    [l] to the log and complete with [c].  One constructor for each way
    through the body of the loop. *)

Section Runs.

Variable T : Type.
Variable fn : Z -> M World T.
Variables (maxAttempts : Z) (baseDelay maxDelay factor : number) (jitter : bool).
Variable retryIf : option (Value -> Z -> User World bool).
Variable onRetry : option (Value -> Z -> number -> User World unit).
Variable signal : option (AbortSignal World).

(** [fn(n)] can complete with [c], adding the events [inner] to the log. *)
Definition yields (n : Z) (c : Completion T) (inner : list Event) : Prop :=
  exists s s', fn n s = (c, s') /\ log s' = log s ++ inner.

(** [onRetry] is there and throws [e']. *)
Definition onRetry_throws (e : Value) (n : Z) (d : number) (e' : Value) : Prop :=
  exists h w w', onRetry = Some h /\ h e n d w = (Throw e', w').

(** [retryIf] is absent or answers [true]. *)
Definition allowed (e : Value) (n : Z) : Prop :=
  forall p, retryIf = Some p -> exists w w', p e n w = (Normal true, w').

(** [retryIf] is there and answers [false]. *)
Definition refused (e : Value) (n : Z) : Prop :=
  exists p w w', retryIf = Some p /\ p e n w = (Normal false, w').

(** [d] is a result of [computeDelay] for attempt [n]. *)
Definition delay_of (n : Z) (d : number) : Prop :=
  exists s s', computeDelay n baseDelay maxDelay factor jitter s = (Normal d, s').

(** The signal is found aborted. *)
Definition found_aborted : Prop :=
  exists sg w, signal = Some sg /\ aborted sg w = true.

(** The signal is found aborted, and [r] is its reason then. *)
Definition cancelled (r : Value) : Prop :=
  exists sg w, signal = Some sg /\ aborted sg w = true /\ r = abort_reason sg w.

(** A sleep of [d] rejects with [r]: the signal is aborted when the
    sleep starts, or its abort event is dispatched before the timer
    fires, and [r] is its reason then. *)
Definition interrupted (d : number) (r : Value) : Prop :=
  exists sg w,
    signal = Some sg /\ r = abort_reason sg w
    /\ (aborted sg w = true \/ exists w0, abort_dispatched sg d w0 = Some w).

(** The record of [onRetry?.(e, n, d)]. *)
Definition hook_events (e : Value) (n : Z) (d : number) : list Event :=
  match onRetry with
  | Some _ => [EvOnRetry e n d]
  | None => []
  end.

Inductive run : nat -> Z -> Value -> list Event -> Completion (RetryResult T) -> Prop :=
| run_exhausted n le :
    run 0 n le [] (Throw (RetryError maxAttempts le))
| run_cancelled rem n le r :
    cancelled r ->
    run (S rem) n le [] (Throw r)
| run_success rem n le inner v :
    yields n (Normal v) inner ->
    run (S rem) n le (inner ++ [EvAttempt n None]) (Normal (mkRetryResult v n))
| run_not_retried rem n le inner e :
    yields n (Throw e) inner ->
    found_aborted \/ refused e n ->
    run (S rem) n le (inner ++ [EvAttempt n (Some e)]) (Throw e)
| run_retryIf_threw rem n le inner e p w w' e' :
    yields n (Throw e) inner ->
    retryIf = Some p -> p e n w = (Throw e', w') ->
    run (S rem) n le (inner ++ [EvAttempt n (Some e)]) (Throw e')
| run_last rem n le inner e :
    yields n (Throw e) inner ->
    allowed e n -> n = maxAttempts ->
    run (S rem) n le (inner ++ [EvAttempt n (Some e)])
      (Throw (RetryError maxAttempts e))
| run_onRetry_threw rem n le inner e d e' :
    yields n (Throw e) inner ->
    allowed e n -> n <> maxAttempts -> delay_of n d ->
    onRetry_throws e n d e' ->
    run (S rem) n le (inner ++ [EvAttempt n (Some e); EvOnRetry e n d]) (Throw e')
| run_sleep_rejected rem n le inner e d r :
    yields n (Throw e) inner ->
    allowed e n -> n <> maxAttempts -> delay_of n d ->
    interrupted d r ->
    run (S rem) n le
      (inner ++ EvAttempt n (Some e) :: hook_events e n d ++ [EvSleep d (Some r)])
      (Throw r)
| run_next rem n le inner e d rest c :
    yields n (Throw e) inner ->
    allowed e n -> n <> maxAttempts -> delay_of n d ->
    run rem (n + 1) e rest c ->
    run (S rem) n le
      (inner ++ EvAttempt n (Some e) :: hook_events e n d ++ EvSleep d None :: rest)
      c.

(** The rounds of a run with an [onRetry] hook: for each [(e, n, d)],
    attempt [n] fails with [e], the hook is called with [(e, n, d)],
    and the sleep of [d] runs to its end. *)
Fixpoint rounds (hs : list (Value * Z * number)) : list Event :=
  match hs with
  | [] => []
  | (e, n, d) :: hs' =>
      EvAttempt n (Some e) :: EvOnRetry e n d :: EvSleep d None :: rounds hs'
  end.

(** The rounds are those of attempts [n], [n + 1], ..., none of them
    the last attempt, each with a delay that [computeDelay] returned for
    its attempt. *)
Fixpoint rounds_ok (n : Z) (hs : list (Value * Z * number)) : Prop :=
  match hs with
  | [] => True
  | (e, k, d) :: hs' =>
      k = n /\ n < maxAttempts /\ delay_of n d /\ rounds_ok (n + 1) hs'
  end.

(** How a run with an [onRetry] hook ends, [k] being the attempt that
    follows the rounds: before that attempt is made; with the success of
    that attempt; with its failure, not retried; with the hook throwing;
    with the sleep rejecting. *)
Definition closing (k : Z) (tail : list Event) (c : Completion (RetryResult T))
    : Prop :=
  (tail = [] /\ exists e, c = Throw e)
  \/ (exists v, tail = [EvAttempt k None] /\ c = Normal (mkRetryResult v k))
  \/ (exists e e', tail = [EvAttempt k (Some e)] /\ c = Throw e')
  \/ (exists e d e',
        k < maxAttempts /\ delay_of k d /\ onRetry_throws e k d e'
        /\ tail = [EvAttempt k (Some e); EvOnRetry e k d]
        /\ c = Throw e')
  \/ (exists e d r,
        k < maxAttempts /\ delay_of k d
        /\ tail = [EvAttempt k (Some e); EvOnRetry e k d; EvSleep d (Some r)]
        /\ c = Throw r).

(** How the journal of such a run ends: as the log does, except that a
    sleep which rejects at once, the signal being aborted already when it
    starts, sets no timer and leaves no entry. *)
Definition closing_seen (k : Z) (tail : list Event) (c : Completion (RetryResult T))
    : Prop :=
  closing k tail c
  \/ (exists e d r,
        k < maxAttempts /\ delay_of k d /\ cancelled r
        /\ tail = [EvAttempt k (Some e); EvOnRetry e k d]
        /\ c = Throw r).

(** Attempt [n], entered in the state [s], fails with [e] and is
    retried: the signal is not aborted, before the attempt or after it;
    [fn(n)] throws [e]; [retryIf], if there is one, is called with
    [(e, n)] and answers [true]; [n] is not [maxAttempts];
    [computeDelay] returns [d]; and [onRetry], if there is one, is called
    with [(e, n, d)] and returns.  [s'] is the state in which the sleep
    of [d] then starts. *)
Definition retried (n : Z) (s : State World) (e : Value) (d : number)
    (s' : State World) : Prop :=
  signal_aborted signal (world s) = false
  /\ exists s1 w2 s3,
       fn n s = (Throw e, s1)
       /\ signal_aborted signal (world s1) = false
       /\ match retryIf with
          | Some p => p e n (world s1) = (Normal true, w2)
          | None => w2 = world s1
          end
       /\ n <> maxAttempts
       /\ computeDelay n baseDelay maxDelay factor jitter
            (mkState w2 (this s1) (log s1 ++ [EvAttempt n (Some e)]))
          = (Normal d, s3)
       /\ match onRetry with
          | Some h =>
              exists w4,
                h e n d (world s3) = (Normal tt, w4)
                /\ s' = mkState w4 (this s3) (log s3 ++ [EvOnRetry e n d])
          | None => s' = s3
          end.

(** The sleep of [d] that starts in [s] runs to its end, in [s']: the
    signal, if there is one, is not aborted when the sleep starts and
    its abort event is not dispatched before the timer fires. *)
Definition slept (d : number) (s s' : State World) : Prop :=
  match signal with
  | Some sg => aborted sg (world s) = false /\ abort_dispatched sg d (world s) = None
  | None => True
  end
  /\ s' = mkState (setTimeout_fires d (world s)) (this s) (log s ++ [EvSleep d None]).

(** A whole round: attempt [n] fails with [e] in [s] and is retried,
    and the sleep after it runs to its end, in [s']. *)
Definition round (n : Z) (s : State World) (e : Value) (s' : State World) : Prop :=
  exists d s4, retried n s e d s4 /\ slept d s4 s'.

End Runs.

(** *** The way to an attempt

    [arrives round s0 n le s]: from the state [s0], rounds, one after
    the other from attempt 1 on, lead to attempt [n], which is entered in
    the state [s] with [le] as the last error. *)
Inductive arrives (round : Z -> State World -> Value -> State World -> Prop)
    (s0 : State World) : Z -> Value -> State World -> Prop :=
| arrives_first : arrives round s0 1 undefined s0
| arrives_next n le s e s' :
    arrives round s0 n le s ->
    round n s e s' ->
    arrives round s0 (n + 1) e s'.

(** The retried attempts and the rounds of [retry(fn, options)]. *)
Definition retried_of {T} (fn : Z -> M World T) (options : RetryOptions World)
    : Z -> State World -> Value -> number -> State World -> Prop :=
  retried fn (default 3 (maxAttempts options))
    (default (of_Z 1000) (baseDelay options))
    (default (of_Z 30000) (maxDelay options))
    (default (of_Z 2) (factor options))
    (default true (jitter options))
    (retryIf options) (onRetry options) (signal options).

Definition round_of {T} (fn : Z -> M World T) (options : RetryOptions World)
    : Z -> State World -> Value -> State World -> Prop :=
  round fn (default 3 (maxAttempts options))
    (default (of_Z 1000) (baseDelay options))
    (default (of_Z 30000) (maxDelay options))
    (default (of_Z 2) (factor options))
    (default true (jitter options))
    (retryIf options) (onRetry options) (signal options).

(** The operation as [callWithRetry] hands it to [retry]:
    [() => this.call(fn)], awaited. *)
Definition through_breaker {T} (fn : Z -> M World T) : Z -> M World T :=
  fun attempt => q <- call (fn attempt) ;; await q.

(** The rounds of [breaker.callWithRetry(fn, options)], in the terms of
    its caller: the operation goes through the breaker, the error is not
    a [CircuitOpenError], and the [retryIf] is the one of [options]. *)
Definition round_through {T} (fn : Z -> M World T) (options : RetryOptions World)
    (n : Z) (s : State World) (e : Value) (s' : State World) : Prop :=
  instanceof_CircuitOpenError e = false
  /\ round_of (through_breaker fn) options n s e s'.

(** *** What the environment saw

    [journal w] is a record that the environment [w] keeps by itself:
    the operation notes each of its calls, with the attempt number it was
    given and the error it threw, if any; [onRetry] notes each of its
    calls, with its three arguments; a timer of [sleep] notes how it ended,
    by firing or by the abort event; [retryIf] and [Math.random] note
    nothing.  The entries are those of the log, but here it is the callee
    that writes them, not the library. *)
Definition failure_of {A} (c : Completion A) : option Value :=
  match c with
  | Normal _ => None
  | Throw e => Some e
  end.

Record journaled {T} (journal : World -> list Event) (op : Z -> User World T)
    (retryIf : option (Value -> Z -> User World bool))
    (onRetry : option (Value -> Z -> number -> User World unit))
    (signal : option (AbortSignal World)) : Prop := {
  journal_attempt : forall n w,
    journal (snd (op n w)) = journal w ++ [EvAttempt n (failure_of (fst (op n w)))];
  journal_retryIf : forall p e n w,
    retryIf = Some p -> journal (snd (p e n w)) = journal w;
  journal_onRetry : forall h e n d w,
    onRetry = Some h -> journal (snd (h e n d w)) = journal w ++ [EvOnRetry e n d];
  journal_random : forall w, journal (snd (Math_random w)) = journal w;
  journal_timer : forall d w,
    journal (setTimeout_fires d w) = journal w ++ [EvSleep d None];
  journal_abort : forall sg d w w',
    signal = Some sg ->
    abort_dispatched sg d w = Some w' ->
    journal w' = journal w ++ [EvSleep d (Some (abort_reason sg w'))]
}.

(** *** The state machine

    The transitions that reads and calls make. *)
Definition legal (from to : CircuitState) : bool :=
  match from, to with
  | closed, open | open, half_open | half_open, open | half_open, closed => true
  | _, _ => false
  end.

(** The transition that [reset] makes. *)
Definition to_closed (from to : CircuitState) : bool :=
  CircuitState_eqb to closed && negb (CircuitState_eqb from closed).

(** Following the state changes of a log from the state [st]: each one
    has to leave the state reached so far and be in [table]; the result
    is the state reached at the end. *)
Fixpoint replay (table : CircuitState -> CircuitState -> bool)
    (st : CircuitState) (l : list Event) : option CircuitState :=
  match l with
  | [] => Some st
  | EvStateChange from to :: l' =>
      if CircuitState_eqb from st && table from to then replay table to l'
      else None
  | _ :: l' => replay table st l'
  end.

(** A computation whose additions to the log replay, in [table], from
    the state of the breaker before it to the state after it. *)
Definition tracks (table : CircuitState -> CircuitState -> bool) {A}
    (c : M World A) : Prop :=
  forall s, exists l,
    log (snd (c s)) = log s ++ l
    /\ replay table (state (this s)) l = Some (state (this (snd (c s)))).

(** The thresholds are positive, as the specification has them. *)
Definition well_configured (b : CircuitBreaker World) : Prop :=
  1 <= failureThreshold b /\ 1 <= halfOpenSuccesses b.

(** The counters fit the state: a closed breaker is below its failure
    threshold and a half-open one below its success threshold. *)
Definition consistent (b : CircuitBreaker World) : Prop :=
  0 <= failures b
  /\ 0 <= successes b
  /\ (state b = closed -> failures b < failureThreshold b)
  /\ (state b = half_open -> successes b < halfOpenSuccesses b).

(** The [readonly] fields are the same. *)
Definition same_configuration (b b' : CircuitBreaker World) : Prop :=
  failureThreshold b' = failureThreshold b
  /\ resetTimeout b' = resetTimeout b
  /\ halfOpenSuccesses b' = halfOpenSuccesses b
  /\ onStateChange b' = onStateChange b.

End Vocabulary.

(** * Properties *)

Section Properties.

Context {World : Type} {RT : Runtime World}.

Implicit Types (s : State World) (w : World) (e : Value).

(** ** Backoff *)

(** Multiplying by 1 is exact.  The product of the mantissa of [b] with
    that of 1, which is [2^52], is shifted back by 52 bits, all of them
    zero. *)
Lemma digits2_pos_shift (m : positive) (k : nat) :
  Zpos (digits2_pos (Nat.iter k xO m)) = Zpos (digits2_pos m) + Z.of_nat k.
Proof.
  induction k as [|k IH]; [simpl; lia|].
  rewrite Nat2Z.inj_succ. simpl Nat.iter. simpl digits2_pos.
  rewrite Pos2Z.inj_succ, IH. lia.
Qed.

Lemma shr_fexp_canonical (m : positive) (e : Z) :
  fexp prec emax (Zpos (digits2_pos m) + e) = e ->
  shr_fexp prec emax (Zpos m) e loc_Exact
  = (Build_shr_record (Zpos m) false false, e).
Proof.
  intros Hc. unfold shr_fexp. simpl Zdigits2. rewrite Hc, Z.sub_diag. reflexivity.
Qed.

Lemma shr_fexp_shifted (m : positive) (e : Z) :
  fexp prec emax (Zpos (digits2_pos m) + e) = e ->
  shr_fexp prec emax (Zpos (Nat.iter 52 xO m)) (e + -52) loc_Exact
  = (Build_shr_record (Zpos m) false false, e).
Proof.
  intros Hc. unfold shr_fexp.
  replace (Zdigits2 (Zpos (Nat.iter 52 xO m))) with (Zpos (digits2_pos m) + 52)
    by (unfold Zdigits2; rewrite digits2_pos_shift; reflexivity).
  replace (Zpos (digits2_pos m) + 52 + (e + -52)) with (Zpos (digits2_pos m) + e)
    by lia.
  rewrite Hc. replace (e - (e + -52)) with 52 by lia.
  unfold shr. replace (e + -52 + 52) with e by lia. reflexivity.
Qed.

Lemma mul_one_r (b : number) : is_double b -> mul b (of_Z 1) = b.
Proof.
  unfold is_double, mul. destruct b as [sb|sb| |sb m e]; intros Hb; try reflexivity.
  - destruct sb; reflexivity.
  - destruct sb; reflexivity.
  - change (of_Z 1) with (S754_finite false 4503599627370496 (-52)).
    simpl in Hb. unfold bounded, canonical_mantissa in Hb.
    apply andb_prop in Hb. destruct Hb as [Hc He].
    apply Z.eqb_eq in Hc.
    unfold SFmul. rewrite xorb_false_r, Pos.mul_comm.
    change (4503599627370496 * m)%positive with (Nat.iter 52 xO m).
    unfold binary_round_aux.
    rewrite (shr_fexp_shifted m Hc).
    simpl shr_m. simpl loc_of_shr_record. simpl round_nearest_even.
    rewrite (shr_fexp_canonical m Hc). simpl shr_m.
    rewrite He. reflexivity.
Qed.

(** A zero times a finite number is a zero, and the smaller of a zero
    and a number that is not below zero is a zero. *)
Lemma mul_zero_finite (b x : number) :
  eqb b (of_Z 0) = true -> finite x = true -> eqb (mul b x) (of_Z 0) = true.
Proof.
  intros Hb Hx.
  destruct b as [sb|sb| |sb mb eb];
    try discriminate Hb; try (destruct sb; discriminate Hb).
  destruct x; try discriminate Hx; reflexivity.
Qed.

Lemma Math_min_zero (x m : number) :
  eqb x (of_Z 0) = true -> leb (of_Z 0) m = true ->
  eqb (Math_min x m) (of_Z 0) = true.
Proof.
  intros Hx Hm.
  destruct x as [sx|sx| |sx mx ex];
    try discriminate Hx; try (destruct sx; discriminate Hx).
  destruct m as [sm|sm| |sm mm em]; try discriminate Hm;
    try reflexivity; destruct sm; try discriminate Hm; reflexivity.
Qed.

Lemma computeDelay_deterministic (attempt : Z) (b m f : number) s :
  computeDelay attempt b m f false s
  = (Normal (Math_min (mul b (Math_pow f (of_Z (attempt - 1)))) m), s).
Proof. reflexivity. Qed.

(** C1, as amended.  With jitter disabled, the delay computed after
    attempt [n >= 1] is Math.min(baseDelay * Math.pow(factor, n - 1),
    maxDelay) in the arithmetic of JavaScript numbers, and the
    computation reads and changes nothing.  After the first attempt it is
    the capped base delay.  With a base delay of zero it is zero as long
    as the power is a finite number (and for a cap that is not below
    zero); with a factor of one it is the capped base delay when the
    engine's power of 1 is 1. *)
Theorem computeDelay_without_jitter (n : Z) (b m f : number) s :
  1 <= n ->
  exists d : number,
    computeDelay n b m f false s = (Normal d, s)
    /\ d = Math_min (mul b (Math_pow f (of_Z (n - 1)))) m
    /\ (n = 1 -> is_double b -> d = Math_min b m)
    /\ (eqb b (of_Z 0) = true ->
        finite (Math_pow f (of_Z (n - 1))) = true ->
        leb (of_Z 0) m = true ->
        eqb d (of_Z 0) = true)
    /\ (f = of_Z 1 ->
        Math_pow (of_Z 1) (of_Z (n - 1)) = of_Z 1 ->
        is_double b ->
        d = Math_min b m).
Proof.
  intros Hn. exists (Math_min (mul b (Math_pow f (of_Z (n - 1)))) m).
  split; [apply computeDelay_deterministic|].
  split; [reflexivity|].
  split; [|split].
  - intros -> Hb. change (Math_pow f (of_Z (1 - 1))) with (of_Z 1).
    rewrite (mul_one_r Hb). reflexivity.
  - intros Hb Hp Hm. apply Math_min_zero; [|exact Hm].
    apply mul_zero_finite; assumption.
  - intros -> Hp Hb. rewrite Hp, (mul_one_r Hb). reflexivity.
Qed.

(** ** The state machine of the breaker *)

Lemma State_eta s : mkState (world s) (this s) (log s) = s.
Proof. destruct s; reflexivity. Qed.

Lemma CircuitState_eqb_eq (a b : CircuitState) :
  CircuitState_eqb a b = true <-> a = b.
Proof. destruct a, b; simpl; split; congruence. Qed.

Lemma due_test s :
  CircuitState_eqb (state (this s)) open
  && (Date_now (world s) - lastFailureTime (this s) >=? resetTimeout (this s))
  = true <-> due s.
Proof.
  unfold due. rewrite andb_true_iff, CircuitState_eqb_eq, Z.geb_le. tauto.
Qed.

Lemma checkHalfOpen_not_due s : ~ due s -> checkHalfOpen s = (Normal tt, s).
Proof.
  intros H. unfold checkHalfOpen, bind, get_this, read. simpl.
  destruct (_ && _) eqn:E; [|reflexivity].
  apply due_test in E. contradiction.
Qed.

Lemma checkHalfOpen_due s :
  due s ->
  let s' := snd (checkHalfOpen s) in
  this s' = with_state half_open (this s)
  \/ this s' = with_successes 0 (with_state half_open (this s)).
Proof.
  intros H. pose proof (proj2 (due_test s) H) as E.
  destruct H as [Ho _].
  unfold checkHalfOpen, bind, get_this, read. simpl. rewrite E.
  unfold transition, bind, get_this, assign, emit, user, ret. simpl.
  rewrite Ho. simpl.
  destruct (onStateChange (this s)) as [h|]; simpl.
  - destruct (h open half_open (world s)) as [[[]|e] w']; simpl; auto.
  - auto.
Qed.

Lemma checkHalfOpen_due_log s :
  due s -> log (snd (checkHalfOpen s)) = log s ++ [EvStateChange open half_open].
Proof.
  intros H. pose proof (proj2 (due_test s) H) as E.
  destruct H as [Ho _].
  unfold checkHalfOpen, bind, get_this, read. simpl. rewrite E.
  unfold transition, bind, get_this, assign, emit, user, ret. simpl.
  rewrite Ho. simpl.
  destruct (onStateChange (this s)) as [h|]; simpl.
  - destruct (h open half_open (world s)) as [[[]|e] w']; reflexivity.
  - reflexivity.
Qed.

Lemma checkHalfOpen_due_returns s :
  due s -> hook_total (this s) ->
  exists w',
    checkHalfOpen s
    = (Normal tt,
       mkState w' (with_successes 0 (with_state half_open (this s)))
         (log s ++ [EvStateChange open half_open])).
Proof.
  intros H Hh. pose proof (proj2 (due_test s) H) as E.
  destruct H as [Ho _].
  unfold checkHalfOpen, bind, get_this, read. simpl. rewrite E.
  unfold transition, bind, get_this, assign, emit, user, ret. simpl.
  rewrite Ho. simpl. unfold hook_total in Hh.
  destruct (onStateChange (this s)) as [h|]; simpl.
  - destruct (Hh open half_open (world s)) as [[] [w' Hw]]. rewrite Hw. simpl. eauto.
  - eauto.
Qed.

Lemma due_dec s : {due s} + {~ due s}.
Proof.
  destruct (CircuitState_eqb (state (this s)) open
            && (Date_now (world s) - lastFailureTime (this s)
                >=? resetTimeout (this s))) eqn:E.
  - left. apply due_test. exact E.
  - right. intros H. apply due_test in H. congruence.
Qed.

(** C10.  [getFailures] returns the failure count and leaves the whole
    state as it was: the fields of the breaker, the environment and the
    log, to which the lazy check would have added the state change.  This
    holds also when the breaker is open and its reset timeout has elapsed,
    where [getState] moves it to half-open. *)
Theorem getFailures_is_a_pure_read s :
  getFailures s = (Normal (failures (this s)), s)
  /\ (due s ->
      state (this (snd (getState s))) = half_open
      /\ log (snd (getState s)) = log s ++ [EvStateChange open half_open]
      /\ state (this (snd (getFailures s))) = open
      /\ log (snd (getFailures s)) = log s).
Proof.
  split; [reflexivity|].
  intros H. split; [|split; [|split]].
  - unfold getState, bind.
    pose proof (checkHalfOpen_due H) as Hb. simpl in Hb.
    destruct (checkHalfOpen s) as [[[]|e] s1]; simpl in *;
      destruct Hb as [-> | ->]; reflexivity.
  - unfold getState, bind.
    pose proof (checkHalfOpen_due_log H) as Hl.
    destruct (checkHalfOpen s) as [[[]|e] s1]; simpl in *; exact Hl.
  - simpl. apply H.
  - reflexivity.
Qed.

Lemma with_state_same (b : CircuitBreaker World) : with_state (state b) b = b.
Proof. destruct b; reflexivity. Qed.

Lemma transition_this to s :
  this (snd (transition to s)) = with_state to (this s).
Proof.
  unfold transition, bind, get_this, assign, emit, user, ret. simpl.
  destruct (CircuitState_eqb (state (this s)) to) eqn:E; simpl.
  - apply CircuitState_eqb_eq in E. rewrite <- E. symmetry. apply with_state_same.
  - destruct (onStateChange (this s)) as [h|]; simpl; [|reflexivity].
    destruct (h (state (this s)) to (world s)) as [[[]|e] w']; reflexivity.
Qed.

Lemma transition_log to s :
  log (snd (transition to s))
  = log s ++ (if CircuitState_eqb (state (this s)) to then []
              else [EvStateChange (state (this s)) to]).
Proof.
  unfold transition, bind, get_this, assign, emit, user, ret. simpl.
  destruct (CircuitState_eqb (state (this s)) to) eqn:E; simpl.
  - symmetry. apply app_nil_r.
  - destruct (onStateChange (this s)) as [h|]; simpl; [|reflexivity].
    destruct (h (state (this s)) to (world s)) as [[[]|e] w']; reflexivity.
Qed.

Lemma transition_total to s :
  hook_total (this s) ->
  exists w',
    transition to s
    = (Normal tt,
       mkState w' (with_state to (this s))
         (log s ++ (if CircuitState_eqb (state (this s)) to then []
                    else [EvStateChange (state (this s)) to]))).
Proof.
  intros Hh.
  unfold transition, bind, get_this, assign, emit, user, ret. simpl.
  destruct (CircuitState_eqb (state (this s)) to) eqn:E; simpl.
  - apply CircuitState_eqb_eq in E. exists (world s).
    rewrite <- E, with_state_same, app_nil_r, State_eta. reflexivity.
  - unfold hook_total in Hh.
    destruct (onStateChange (this s)) as [h|]; simpl; [|eauto].
    destruct (Hh (state (this s)) to (world s)) as [[] [w' Hw]].
    rewrite Hw. eauto.
Qed.

Lemma onFailure_this s :
  this (snd (onFailure s)) = after_failure (Date_now (world s)) (this s).
Proof.
  unfold onFailure, after_failure, bind, get_this, assign, read, ret. simpl.
  destruct (CircuitState_eqb (state (this s)) half_open); simpl.
  - apply transition_this.
  - destruct (failures (this s) + 1 >=? failureThreshold (this s)); simpl.
    + apply transition_this.
    + reflexivity.
Qed.

Lemma async_returns_promise A (body : M World A) s :
  exists p s', async body s = (Normal p, s').
Proof. unfold async. destruct (body s) as [[a|e] s']; eauto. Qed.

Lemma call_returns_promise T (fn : M World T) s :
  exists p s', call fn s = (Normal p, s').
Proof. apply async_returns_promise. Qed.

Lemma call_open_rejects T (fn : M World T) s :
  state (this s) = open -> ~ due s ->
  call fn s = (Normal (Rejected (CircuitOpenError (failures (this s)))), s).
Proof.
  intros Ho Hd. unfold call, async, bind.
  rewrite (checkHalfOpen_not_due Hd). unfold get_this. simpl.
  rewrite Ho. reflexivity.
Qed.

Lemma call_failure T (op : User World T) s e w' :
  state (this s) <> open -> op (world s) = (Throw e, w') ->
  this (snd (call (user op) s)) = after_failure (Date_now w') (this s)
  /\ exists l, log (snd (call (user op) s)) = log s ++ EvOperation (Some e) :: l.
Proof.
  intros Hs Hop.
  assert (Hd : ~ due s) by (intros [Ho _]; contradiction).
  unfold call, async, bind. rewrite (checkHalfOpen_not_due Hd).
  unfold get_this. simpl.
  destruct (CircuitState_eqb (state (this s)) open) eqn:E.
  { apply CircuitState_eqb_eq in E. contradiction. }
  unfold try_catch, bind, logged, user. rewrite Hop. simpl.
  set (s1 := mkState w' (this s) (log s ++ [EvOperation (Some e)])).
  pose proof (onFailure_this s1) as Hthis.
  assert (Hlog : exists l, log (snd (onFailure s1)) = log s1 ++ l).
  { unfold onFailure, bind, get_this, assign, read, ret. simpl.
    destruct (CircuitState_eqb (state (this s)) half_open); simpl.
    - rewrite transition_log. simpl. eauto.
    - destruct (failures (this s) + 1 >=? failureThreshold (this s)); simpl.
      + rewrite transition_log. simpl. eauto.
      + exists []. rewrite app_nil_r. reflexivity. }
  destruct Hlog as [l Hl].
  destruct (onFailure s1) as [[[]|e'] s2]; simpl in *;
    (split; [exact Hthis|]); exists l; rewrite Hl; subst s1; simpl;
    rewrite <- app_assoc; reflexivity.
Qed.

Lemma after_failure_state_closed now (b : CircuitBreaker World) :
  state b = closed ->
  state (after_failure now b)
  = (if failures b + 1 >=? failureThreshold b then open else closed)
  /\ failures (after_failure now b) = failures b + 1
  /\ failureThreshold (after_failure now b) = failureThreshold b
  /\ lastFailureTime (after_failure now b) = now.
Proof.
  intros Hc. unfold after_failure. rewrite Hc. simpl.
  destruct (failures b + 1 >=? failureThreshold b); simpl; rewrite ?Hc; auto.
Qed.

Lemma consecutive_failures T (ops : list (User World T)) :
  Forall fails ops ->
  forall s,
    state (this s) = closed ->
    failures (this s) < failureThreshold (this s) ->
    failures (this s) + Z.of_nat (List.length ops) <= failureThreshold (this s) ->
    let s' := snd (calls_ignoring_errors (map user ops) s) in
    failures (this s') = failures (this s) + Z.of_nat (List.length ops)
    /\ failureThreshold (this s') = failureThreshold (this s)
    /\ state (this s')
       = (if failures (this s') >=? failureThreshold (this s) then open
          else closed).
Proof.
  induction 1 as [|op ops Hop Hops IH]; intros s Hc Hlt Hlen.
  - simpl. rewrite Z.add_0_r. split; [reflexivity|]. split; [reflexivity|].
    destruct (failures (this s) >=? failureThreshold (this s)) eqn:G.
    + apply Z.geb_le in G. lia.
    + exact Hc.
  - simpl map. simpl calls_ignoring_errors. unfold bind at 1.
    destruct (Hop (world s)) as [e [w' Hrun]].
    assert (Hno : state (this s) <> open) by (rewrite Hc; discriminate).
    destruct (call_failure op s Hno Hrun) as [Hthis _].
    destruct (after_failure_state_closed (Date_now w') (this s) Hc)
      as [Hst [Hf [Hth _]]].
    destruct (call_returns_promise (user op) s) as [p [s1 Hcall]].
    rewrite Hcall in *. simpl in Hthis.
    rewrite <- Hthis in Hst, Hf, Hth.
    simpl List.length in *.
    destruct (failures (this s) + 1 >=? failureThreshold (this s)) eqn:G.
    + apply Z.geb_le in G.
      destruct ops as [|op' ops']; [|simpl List.length in Hlen; lia].
      simpl. unfold ret. simpl. rewrite Hf.
      split; [reflexivity|]. split; [exact Hth|].
      rewrite (proj2 (Z.geb_le _ _) G). exact Hst.
    + assert (G' : failures (this s) + 1 < failureThreshold (this s)).
      { destruct (Z_lt_le_dec (failures (this s) + 1) (failureThreshold (this s)))
          as [L|L]; [exact L|].
        apply Z.geb_le in L. congruence. }
      destruct (IH s1 Hst) as [H1 [H2 H3]]; [lia | lia |].
      split; [rewrite H1, Hf; lia|]. split; [rewrite H2; exact Hth|].
      rewrite H3, Hth. reflexivity.
Qed.

(** C3.  On a closed breaker, consecutive failed calls leave it closed
    as long as the failure count is below [failureThreshold], and the one
    that brings the count to the threshold opens it, with that count.
    A call on an open breaker whose reset timeout has not elapsed
    rejects with a [CircuitOpenError] that carries the failure count, and
    changes nothing: the wrapped operation is not run, whatever it is. *)
Theorem threshold_opens_and_open_rejects T (ops : list (User World T)) s :
  state (this s) = closed ->
  failures (this s) < failureThreshold (this s) ->
  Forall fails ops ->
  let s' := snd (calls_ignoring_errors (map user ops) s) in
  (failures (this s) + Z.of_nat (List.length ops) < failureThreshold (this s) ->
   state (this s') = closed)
  /\ (failures (this s) + Z.of_nat (List.length ops) = failureThreshold (this s) ->
      state (this s') = open /\ failures (this s') = failureThreshold (this s))
  /\ forall s'' T' (fn : M World T'),
       state (this s'') = open -> ~ due s'' ->
       call fn s''
       = (Normal (Rejected (CircuitOpenError (failures (this s'')))), s'').
Proof.
  intros Hc Hlt Hops. split; [|split].
  - intros Hlen.
    destruct (consecutive_failures Hops s Hc Hlt) as [H1 [_ H3]]; [lia|].
    rewrite H1, Z.geb_leb, (proj2 (Z.leb_gt _ _)) in H3 by lia. exact H3.
  - intros Hlen.
    destruct (consecutive_failures Hops s Hc Hlt) as [H1 [_ H3]]; [lia|].
    rewrite H1, (proj2 (Z.geb_le _ _)) in H3 by lia.
    split; [exact H3|]. rewrite H1. exact Hlen.
  - intros s'' T' fn Ho Hd. apply call_open_rejects; assumption.
Qed.

Lemma onSuccess_total s :
  hook_total (this s) ->
  exists w' l,
    onSuccess s = (Normal tt, mkState w' (after_success (this s)) (log s ++ l)).
Proof.
  intros Hh.
  unfold onSuccess, after_success, bind, get_this, assign, ret. simpl.
  destruct (CircuitState_eqb (state (this s)) half_open); simpl.
  - destruct (successes (this s) + 1 >=? halfOpenSuccesses (this s)); simpl.
    + edestruct transition_total as [w' Hw]; [|rewrite Hw; simpl; eauto].
      exact Hh.
    + exists (world s), []. rewrite app_nil_r. reflexivity.
  - exists (world s), []. rewrite app_nil_r. reflexivity.
Qed.

Lemma call_success T (op : User World T) s a w' :
  state (this s) <> open -> hook_total (this s) ->
  op (world s) = (Normal a, w') ->
  exists w'' l,
    call (user op) s
    = (Normal (Fulfilled a),
       mkState w'' (after_success (this s)) (log s ++ EvOperation None :: l)).
Proof.
  intros Hs Hh Hop.
  assert (Hd : ~ due s) by (intros [Ho _]; contradiction).
  unfold call, async, bind. rewrite (checkHalfOpen_not_due Hd).
  unfold get_this. simpl.
  destruct (CircuitState_eqb (state (this s)) open) eqn:E.
  { apply CircuitState_eqb_eq in E. contradiction. }
  unfold try_catch, bind, logged, user. rewrite Hop. simpl.
  set (s1 := mkState w' (this s) (log s ++ [EvOperation None])).
  destruct (onSuccess_total s1 Hh) as [w'' [l Hl]]. rewrite Hl. simpl.
  exists w'', l. rewrite <- app_assoc. reflexivity.
Qed.

Lemma call_due T (fn : M World T) s :
  due s -> hook_total (this s) ->
  exists w1,
    let s1 := mkState w1 (with_successes 0 (with_state half_open (this s)))
                (log s ++ [EvStateChange open half_open]) in
    call fn s = call fn s1.
Proof.
  intros Hd Hh. destruct (checkHalfOpen_due_returns Hd Hh) as [w1 Hw].
  exists w1. intros s1.
  assert (Hn : ~ due s1) by (intros [Ho _]; discriminate).
  unfold call, async, bind. rewrite Hw, (checkHalfOpen_not_due Hn).
  reflexivity.
Qed.

(** C4.  What happens to an open breaker.  Accessed before the reset
    timeout has elapsed, it stays as it is: [getState] answers open and
    [call] rejects.  Accessed once the timeout has elapsed, it becomes
    half-open at that access: [getState] answers half-open, and [call]
    first records the change and then runs the operation as a probe.
    Nothing else moves it: user code and timers, which is how time
    passes, and [getFailures] leave the fields of the breaker alone
    however late the clock, so the state read after any such step is
    still open and the first [getState] after the timeout answers
    half-open. *)
Theorem half_open_is_entered_on_access s :
  state (this s) = open ->
  (~ due s ->
     getState s = (Normal open, s)
     /\ forall T (fn : M World T),
          call fn s
          = (Normal (Rejected (CircuitOpenError (failures (this s)))), s))
  /\ (due s ->
      state (this (snd (getState s))) = half_open
      /\ (hook_total (this s) ->
          fst (getState s) = Normal half_open
          /\ forall T (op : User World T), exists r l,
               log (snd (call (user op) s))
               = log s ++ EvStateChange open half_open :: EvOperation r :: l))
  /\ (forall A (u : User World A),
        let s1 := snd (user u s) in
        this s1 = this s
        /\ (due s1 -> hook_total (this s) -> fst (getState s1) = Normal half_open))
  /\ (forall ms sg, this (snd (sleep ms sg s)) = this s)
  /\ this (snd (getFailures s)) = this s.
Proof.
  intros Ho.
  assert (Hget : forall s0, due s0 -> hook_total (this s0) ->
                 fst (getState s0) = Normal half_open).
  { intros s0 Hd Hh. unfold getState, bind.
    destruct (checkHalfOpen_due_returns Hd Hh) as [w' Hw]. rewrite Hw.
    reflexivity. }
  split; [|split; [|split; [|split]]].
  - intros Hd. split.
    + unfold getState, bind. rewrite (checkHalfOpen_not_due Hd).
      unfold get_this, ret. simpl. rewrite Ho. reflexivity.
    + intros T fn. apply call_open_rejects; assumption.
  - intros Hd. split.
    + unfold getState, bind.
      pose proof (checkHalfOpen_due Hd) as Hb. simpl in Hb.
      destruct (checkHalfOpen s) as [[[]|e] s1]; simpl in *;
        destruct Hb as [-> | ->]; reflexivity.
    + intros Hh. split; [apply Hget; assumption|].
      intros T op. destruct (call_due (user op) Hd Hh) as [w1 Hc].
      simpl in Hc. rewrite Hc.
      set (s1 := mkState w1 (with_successes 0 (with_state half_open (this s)))
                   (log s ++ [EvStateChange open half_open])).
      assert (Hn : state (this s1) <> open) by discriminate.
      destruct (op (world s1)) as [[a|e] w'] eqn:Hop.
      * destruct (call_success op s1 Hn Hh Hop) as [w'' [l Hl]].
        rewrite Hl. simpl. exists None, l. rewrite <- app_assoc. reflexivity.
      * destruct (call_failure op s1 Hn Hop) as [_ [l Hl]].
        rewrite Hl. simpl. exists (Some e), l. rewrite <- app_assoc. reflexivity.
  - intros A u s1. subst s1. unfold user.
    destruct (u (world s)) as [r w'] eqn:Hu. simpl. split; [reflexivity|].
    intros Hd Hh. apply Hget; assumption.
  - intros ms sg. unfold sleep.
    destruct sg as [sg|]; simpl; [|reflexivity].
    destruct (aborted sg (world s)); simpl; [reflexivity|].
    destruct (abort_dispatched sg ms (world s)); reflexivity.
  - reflexivity.
Qed.

Lemma reset_total s :
  hook_total (this s) ->
  exists w' l,
    reset s
    = (Normal tt,
       mkState w' (with_successes 0 (with_failures 0 (with_state closed (this s))))
         (log s ++ l)).
Proof.
  intros Hh. unfold reset, bind, assign.
  destruct (transition_total closed s Hh) as [w' Hw]. rewrite Hw. simpl. eauto.
Qed.

(** X23.  Where the success count is set to 0 and where it is not.
    With a state-change hook that does not throw, the success count is
    set to 0 whenever the breaker enters half-open (the lazy check,
    reached through [getState] and [call]), when a probe closes it, and
    by [reset].  When a probe fails, the breaker goes from half-open to
    open and the success count keeps its value. *)
Theorem successes_reset_on_entry_and_on_closing s :
  hook_total (this s) ->
  (due s ->
     state (this (snd (checkHalfOpen s))) = half_open
     /\ successes (this (snd (checkHalfOpen s))) = 0
     /\ state (this (snd (getState s))) = half_open
     /\ successes (this (snd (getState s))) = 0)
  /\ (forall T (op : User World T),
        state (this s) = half_open ->
        let s' := snd (call (user op) s) in
        (state (this s') = closed -> successes (this s') = 0)
        /\ (state (this s') = open -> successes (this s') = successes (this s)))
  /\ (state (this (snd (reset s))) = closed
      /\ successes (this (snd (reset s))) = 0).
Proof.
  intros Hh. split; [|split].
  - intros Hd. destruct (checkHalfOpen_due_returns Hd Hh) as [w' Hw].
    unfold getState, bind. rewrite Hw. simpl. auto.
  - intros T op Hs s'. subst s'.
    assert (Hn : state (this s) <> open) by (rewrite Hs; discriminate).
    destruct (op (world s)) as [[a|e] w'] eqn:Hop.
    + destruct (call_success op s Hn Hh Hop) as [w'' [l Hl]]. rewrite Hl.
      simpl. unfold after_success. rewrite Hs. simpl.
      destruct (successes (this s) + 1 >=? halfOpenSuccesses (this s)); simpl.
      * split; [reflexivity | discriminate].
      * rewrite Hs. split; discriminate.
    + destruct (call_failure op s Hn Hop) as [Ht _]. rewrite Ht.
      unfold after_failure. rewrite Hs. simpl. split; [discriminate|reflexivity].
  - destruct (reset_total s Hh) as [w' [l Hl]]. rewrite Hl. simpl. auto.
Qed.

(** ** Validation of the configuration *)

(** C9, as the code has it.  When [maxAttempts] is below 1, the call of
    [retry] returns a promise that is already rejected with a
    [RangeError]; nothing was run and nothing changed, so the operation
    was not invoked.  The error travels in the promise, the channel of
    the outcomes of [retry]: the call itself completes normally. *)
Theorem retry_rejects_bad_maxAttempts T (fn : Z -> M World T)
    (options : RetryOptions World) (n : Z) s :
  maxAttempts options = Some n ->
  n < 1 ->
  retry fn options s
  = (Normal (Rejected (RangeError "maxAttempts must be >= 1")), s).
Proof.
  intros Hm Hn. unfold retry, async. rewrite Hm. simpl.
  destruct (n <? 1) eqn:E; [reflexivity|].
  apply Z.ltb_ge in E. lia.
Qed.

(** ** The retry loop *)

Lemma throw_if_aborted_cases (signal : option (AbortSignal World)) s :
  (signal_aborted signal (world s) = false
   /\ throw_if_aborted signal s = (Normal tt, s))
  \/ (exists sg, signal = Some sg
      /\ signal_aborted signal (world s) = true
      /\ throw_if_aborted signal s = (Throw (abort_reason sg (world s)), s)).
Proof.
  destruct signal as [sg|]; simpl; [|left; auto].
  unfold bind, read, throw, ret. simpl.
  destruct (aborted sg (world s)) eqn:E; [right; exists sg|left]; auto.
Qed.

Lemma computeDelay_returns n (b m f : number) (j : bool) s :
  exists d s',
    computeDelay n b m f j s = (Normal d, s')
    /\ log s' = log s /\ this s' = this s.
Proof.
  unfold computeDelay. destruct j; simpl.
  - unfold bind, random, ret. destruct (Math_random (world s)) as [r w'].
    simpl. eauto.
  - unfold ret. eauto.
Qed.

Lemma sleep_cases ms (signal : option (AbortSignal World)) s :
  exists c s',
    sleep ms signal s = (c, s') /\ log s' = log s /\ this s' = this s
    /\ (c = Normal tt
        \/ exists r, c = Throw r /\ interrupted signal ms r).
Proof.
  unfold sleep, interrupted. destruct signal as [sg|]; simpl.
  - destruct (aborted sg (world s)) eqn:Ha.
    + do 2 eexists. split; [reflexivity|]. repeat split. right.
      eexists. split; [reflexivity|]. exists sg, (world s). auto.
    + destruct (abort_dispatched sg ms (world s)) as [w'|] eqn:Hd.
      * do 2 eexists. split; [reflexivity|]. repeat split. right.
        eexists. split; [reflexivity|]. exists sg, w'. eauto.
      * do 2 eexists. split; [reflexivity|]. repeat split. left. reflexivity.
  - do 2 eexists. split; [reflexivity|]. repeat split. left. reflexivity.
Qed.

Lemma user_frame A (u : User World A) s :
  exists c w', u (world s) = (c, w') /\ user u s = (c, mkState w' (this s) (log s)).
Proof.
  unfold user. destruct (u (world s)) as [c w']. eauto.
Qed.

Lemma throw_if_aborted_clear (signal : option (AbortSignal World)) s :
  signal_aborted signal (world s) = false ->
  throw_if_aborted signal s = (Normal tt, s).
Proof.
  intros H. destruct (throw_if_aborted_cases signal s) as [[_ Ht] | [sg [_ [Ha _]]]];
    [exact Ht | congruence].
Qed.

(** *** One iteration, step by step *)

Section Steps.

Variable T : Type.
Variable fn : Z -> M World T.
Variables (maxA : Z) (b m f : number) (j : bool).
Variable retryIf : option (Value -> Z -> User World bool).
Variable onRetry : option (Value -> Z -> number -> User World unit).
Variable signal : option (AbortSignal World).

Local Abbreviation loop := (retry_loop fn maxA b m f j retryIf onRetry signal).
Local Abbreviation Retried := (retried fn maxA b m f j retryIf onRetry signal).
Local Abbreviation Round := (round fn maxA b m f j retryIf onRetry signal).

Lemma loop_succeeds rem n le s v s1 :
  signal_aborted signal (world s) = false ->
  fn n s = (Normal v, s1) ->
  loop (S rem) n le s
  = (Normal (mkRetryResult v n),
     mkState (world s1) (this s1) (log s1 ++ [EvAttempt n None])).
Proof.
  intros Ha Hfn. simpl retry_loop. unfold try_catch. unfold bind at 1.
  rewrite (throw_if_aborted_clear _ _ Ha). unfold bind at 1. unfold logged.
  rewrite Hfn. reflexivity.
Qed.

Lemma loop_catches rem n le s e s1 :
  signal_aborted signal (world s) = false ->
  fn n s = (Throw e, s1) ->
  loop (S rem) n le s
  = (a <- read (signal_aborted signal) ;;
     if a : bool then throw e
     else
       go <- match retryIf with
             | Some p => user (p e n)
             | None => ret true
             end ;;
       if negb go then throw e
       else if n =? maxA then throw (RetryError maxA e)
       else
         delay <- computeDelay n b m f j ;;
         match onRetry with
         | Some h => emit (EvOnRetry e n delay) ;;; user (h e n delay)
         | None => ret tt
         end ;;;
         logged (EvSleep delay) (sleep delay signal) ;;;
         loop rem (n + 1) e)
      (mkState (world s1) (this s1) (log s1 ++ [EvAttempt n (Some e)])).
Proof.
  intros Ha Hfn. simpl retry_loop. unfold try_catch. unfold bind at 1.
  rewrite (throw_if_aborted_clear _ _ Ha). unfold bind at 1. unfold logged at 1.
  rewrite Hfn. reflexivity.
Qed.

Lemma loop_keeps_error rem n le s e s1 :
  signal_aborted signal (world s) = false ->
  fn n s = (Throw e, s1) ->
  signal_aborted signal (world s1) = true ->
  loop (S rem) n le s
  = (Throw e, mkState (world s1) (this s1) (log s1 ++ [EvAttempt n (Some e)])).
Proof.
  intros Ha Hfn Ha1. rewrite (loop_catches rem le Ha Hfn).
  unfold bind, read. simpl. rewrite Ha1. reflexivity.
Qed.

Lemma loop_refused rem n le s e s1 p w2 :
  signal_aborted signal (world s) = false ->
  fn n s = (Throw e, s1) ->
  signal_aborted signal (world s1) = false ->
  retryIf = Some p ->
  p e n (world s1) = (Normal false, w2) ->
  loop (S rem) n le s
  = (Throw e, mkState w2 (this s1) (log s1 ++ [EvAttempt n (Some e)])).
Proof.
  intros Ha Hfn Ha1 Hp Hno. rewrite (loop_catches rem le Ha Hfn).
  unfold bind at 1. unfold read. cbv beta. cbn [world]. rewrite Ha1. rewrite Hp.
  unfold bind at 1. unfold user. cbn [world]. rewrite Hno. reflexivity.
Qed.

Lemma loop_sleeps rem n le s e d s4 :
  Retried n s e d s4 ->
  loop (S rem) n le s
  = (logged (EvSleep d) (sleep d signal) ;;; loop rem (n + 1) e) s4.
Proof.
  intros [Ha [s1 [w2 [s3 [Hfn [Ha1 [Hp [Hn [Hd Hh]]]]]]]]].
  rewrite (loop_catches rem le Ha Hfn).
  unfold bind at 1. unfold read. cbn [world]. rewrite Ha1.
  unfold bind at 1.
  assert (Hgo : (match retryIf with
                 | Some p => user (p e n)
                 | None => ret true
                 end) (mkState (world s1) (this s1) (log s1 ++ [EvAttempt n (Some e)]))
                = (Normal true, mkState w2 (this s1) (log s1 ++ [EvAttempt n (Some e)]))).
  { destruct retryIf as [p|].
    - unfold user. cbn [world]. rewrite Hp. reflexivity.
    - subst w2. reflexivity. }
  rewrite Hgo. cbv beta iota. change (negb true) with false. cbv beta iota.
  apply Z.eqb_neq in Hn. rewrite Hn.
  unfold bind at 1. rewrite Hd. unfold bind at 1.
  destruct onRetry as [h|].
  - destruct Hh as [w4 [Hh ->]]. unfold bind at 1. unfold emit.
    unfold user. cbn [world]. rewrite Hh. reflexivity.
  - subst s4. reflexivity.
Qed.

Lemma loop_round rem n le s e s' :
  Round n s e s' ->
  loop (S rem) n le s = loop rem (n + 1) e s'.
Proof.
  intros [d [s4 [Hr [Hs ->]]]]. rewrite (loop_sleeps rem le Hr).
  unfold bind at 1. unfold logged, sleep.
  destruct signal as [sg|].
  - destruct Hs as [Ha Hd]. rewrite Ha, Hd. reflexivity.
  - reflexivity.
Qed.

Lemma loop_sleep_cancelled rem n le s e d s4 sg w5 :
  Retried n s e d s4 ->
  signal = Some sg ->
  aborted sg (world s4) = false ->
  abort_dispatched sg d (world s4) = Some w5 ->
  loop (S rem) n le s
  = (Throw (abort_reason sg w5),
     mkState w5 (this s4) (log s4 ++ [EvSleep d (Some (abort_reason sg w5))])).
Proof.
  intros Hr Hsg Ha Hd. rewrite (loop_sleeps rem le Hr).
  unfold bind at 1. unfold logged, sleep. rewrite Hsg, Ha, Hd. reflexivity.
Qed.

Lemma loop_last rem le s e s1 w2 :
  signal_aborted signal (world s) = false ->
  fn maxA s = (Throw e, s1) ->
  signal_aborted signal (world s1) = false ->
  match retryIf with
  | Some p => p e maxA (world s1) = (Normal true, w2)
  | None => w2 = world s1
  end ->
  loop (S rem) maxA le s
  = (Throw (RetryError maxA e),
     mkState w2 (this s1) (log s1 ++ [EvAttempt maxA (Some e)])).
Proof.
  intros Ha Hfn Ha1 Hp. erewrite loop_catches; [|exact Ha|exact Hfn].
  unfold bind at 1. unfold read. cbn [world]. rewrite Ha1.
  unfold bind at 1.
  assert (Hgo : (match retryIf with
                 | Some p => user (p e maxA)
                 | None => ret true
                 end) (mkState (world s1) (this s1) (log s1 ++ [EvAttempt maxA (Some e)]))
                = (Normal true, mkState w2 (this s1) (log s1 ++ [EvAttempt maxA (Some e)]))).
  { destruct retryIf as [p|].
    - unfold user. cbn [world]. rewrite Hp. reflexivity.
    - subst w2. reflexivity. }
  rewrite Hgo. cbv beta iota. change (negb true) with false. cbv beta iota.
  rewrite Z.eqb_refl. reflexivity.
Qed.

Lemma arrives_loop s0 n le s :
  1 <= maxA ->
  arrives Round s0 n le s ->
  1 <= n <= maxA
  /\ loop (Z.to_nat maxA) 1 undefined s0 = loop (Z.to_nat (maxA + 1 - n)) n le s.
Proof.
  intros Hmax. induction 1 as [|n le s e s' Harr [Hn IH] Hround].
  - split; [lia|]. replace (maxA + 1 - 1) with maxA by lia. reflexivity.
  - assert (Hne : n <> maxA).
    { destruct Hround as [d [s4 [[_ [s1 [w2 [s3 [_ [_ [_ [Hne _]]]]]]]] _]]].
      exact Hne. }
    split; [lia|]. rewrite IH.
    replace (Z.to_nat (maxA + 1 - n)) with (S (Z.to_nat (maxA + 1 - (n + 1)))) by lia.
    apply loop_round. exact Hround.
Qed.

End Steps.

Section LoopFacts.

Variable T : Type.
Variable fn : Z -> M World T.
Variables (maxA : Z) (b m f : number) (j : bool).
Variable retryIf : option (Value -> Z -> User World bool).
Variable onRetry : option (Value -> Z -> number -> User World unit).
Variable signal : option (AbortSignal World).

Hypothesis fn_log : forall n, extends_log (fn n).

Local Abbreviation loop := (retry_loop fn maxA b m f j retryIf onRetry signal).
Local Abbreviation Run := (run fn maxA b m f j retryIf onRetry signal).

Lemma retry_loop_run rem :
  forall n le s c s',
    loop rem n le s = (c, s') ->
    exists l, log s' = log s ++ l /\ Run rem n le l c.
Proof.
  induction rem as [|rem IH]; intros n le s c s' H.
  - simpl in H. inversion H; subst. exists []. rewrite app_nil_r.
    split; [reflexivity|apply run_exhausted].
  - simpl retry_loop in H. unfold try_catch in H. unfold bind at 1 in H.
    destruct (throw_if_aborted_cases signal s) as [[Hna Ht] | [sg [Hsg [Ha Ht]]]];
      rewrite Ht in H.
    + (* the operation is called *)
      unfold bind at 1 in H. unfold logged in H.
      destruct (fn_log n s) as [inner Hin].
      destruct (fn n s) as [[v|e] s1] eqn:Hfn; simpl in Hin.
      * inversion H; subst. exists (inner ++ [EvAttempt n None]). simpl.
        rewrite Hin, app_assoc. split; [reflexivity|].
        apply run_success. exists s, s1. auto.
      * assert (Hy : yields fn n (Throw e) inner) by (exists s, s1; auto).
        set (s2 := mkState (world s1) (this s1) (log s1 ++ [EvAttempt n (Some e)])) in H.
        assert (Hl2 : log s2 = log s ++ inner ++ [EvAttempt n (Some e)]).
        { subst s2. simpl. rewrite Hin, app_assoc. reflexivity. }
        clearbody s2.
        unfold bind at 1 in H. unfold read at 1 in H. cbv beta in H.
        destruct (signal_aborted signal (world s2)) eqn:Hab.
        { assert (Hfa : found_aborted signal).
          { unfold found_aborted. destruct signal as [sg|]; [|discriminate].
            exists sg, (world s2). auto. }
          inversion H; subst. exists (inner ++ [EvAttempt n (Some e)]).
          split; [exact Hl2|]. apply run_not_retried; [exact Hy|].
          left. exact Hfa. }
        unfold bind at 1 in H.
        assert (Hgo :
          (exists s3, (match retryIf with
                       | Some p => user (p e n)
                       | None => ret true
                       end) s2 = (Normal true, s3)
                      /\ log s3 = log s2 /\ allowed retryIf e n)
          \/ (exists s3 c, (match retryIf with
                       | Some p => user (p e n)
                       | None => ret true
                       end) s2 = (c, s3)
                      /\ log s3 = log s2
                      /\ match c with
                         | Normal go => go = false /\ refused retryIf e n
                         | Throw e' =>
                             exists p w w', retryIf = Some p
                                            /\ p e n w = (Throw e', w')
                         end)).
        { destruct retryIf as [p|] eqn:Hp.
          - destruct (user_frame (p e n) s2) as [c0 [w' [Hu Hr]]]. rewrite Hr.
            destruct c0 as [[|]|e'].
            + left. eexists. split; [reflexivity|]. split; [reflexivity|].
              intros p' Hp'. inversion Hp'; subst p'. eauto.
            + right. do 2 eexists. split; [reflexivity|]. split; [reflexivity|].
              split; [reflexivity|]. exists p; eauto.
            + right. do 2 eexists. split; [reflexivity|]. split; [reflexivity|].
              exists p; eauto.
          - left. exists s2. unfold ret. split; [reflexivity|].
            split; [reflexivity|]. intros p' Hp'. discriminate. }
        destruct Hgo as [[s3 [Hgo [Hl3 Hal]]] | [s3 [c0 [Hgo [Hl3 Hc]]]]];
          rewrite Hgo in H.
        2:{ destruct c0 as [go|e'].
            - destruct Hc as [-> Href]. simpl in H. inversion H; subst.
              exists (inner ++ [EvAttempt n (Some e)]).
              split; [rewrite Hl3; exact Hl2|].
              apply run_not_retried; [exact Hy|]. right. exact Href.
            - destruct Hc as [p [w [w' [Hp Hthrow]]]]. inversion H; subst.
              exists (inner ++ [EvAttempt n (Some e)]).
              split; [rewrite Hl3; exact Hl2|].
              eapply run_retryIf_threw; eauto. }
        cbv beta iota in H. change (negb true) with false in H.
        cbv beta iota in H.
        destruct (n =? maxA) eqn:Hlast.
        { apply Z.eqb_eq in Hlast. inversion H; subst.
          exists (inner ++ [EvAttempt maxA (Some e)]).
          split; [rewrite Hl3; exact Hl2|].
          apply run_last; auto. }
        apply Z.eqb_neq in Hlast.
        unfold bind at 1 in H.
        destruct (computeDelay_returns n b m f j s3) as [d [s4 [Hd [Hl4 _]]]].
        rewrite Hd in H.
        assert (Hdelay : delay_of b m f j n d) by (do 2 eexists; exact Hd).
        unfold bind at 1 in H.
        assert (Hhook :
          exists c0 s5,
            (match onRetry with
             | Some h => emit (EvOnRetry e n d) ;;; user (h e n d)
             | None => ret tt
             end) s4 = (c0, s5)
            /\ log s5 = log s4 ++ hook_events onRetry e n d
            /\ (forall e', c0 = Throw e' -> onRetry_throws onRetry e n d e')).
        { unfold hook_events. destruct onRetry as [h|].
          - unfold bind, emit.
            set (s4' := mkState (world s4) (this s4) (log s4 ++ [EvOnRetry e n d])).
            destruct (user_frame (h e n d) s4') as [c0 [w' [Hu Hr]]].
            rewrite Hr.
            do 2 eexists; split; [reflexivity|]; split; [reflexivity|].
            intros e' ->. exists h. eauto.
          - unfold ret. do 2 eexists. split; [reflexivity|].
            split; [rewrite app_nil_r; reflexivity|]. intros; discriminate. }
        destruct Hhook as [c0 [s5 [Hh [Hl5 Hthrew]]]]. rewrite Hh in H.
        destruct c0 as [[]|e'].
        2:{ inversion H; subst.
            exists (inner ++ [EvAttempt n (Some e); EvOnRetry e n d]).
            split.
            - rewrite Hl5, Hl4, Hl3, Hl2.
              destruct (Hthrew _ eq_refl) as [h [w [w' [Hsome _]]]].
              unfold hook_events. rewrite Hsome.
              rewrite <- !app_assoc. reflexivity.
            - apply run_onRetry_threw; eauto. }
        unfold bind at 1 in H. unfold logged in H.
        destruct (sleep_cases d signal s5) as [c0 [s6 [Hs [Hl6 [_ Hc]]]]].
        rewrite Hs in H.
        destruct Hc as [-> | [r [-> Hint]]].
        2:{ inversion H; subst.
            exists (inner ++ EvAttempt n (Some e)
                      :: hook_events onRetry e n d ++ [EvSleep d (Some r)]).
            split.
            - simpl. rewrite Hl6, Hl5, Hl4, Hl3, Hl2.
              rewrite <- !app_assoc. reflexivity.
            - apply run_sleep_rejected; eauto. }
        set (s7 := mkState (world s6) (this s6) (log s6 ++ [EvSleep d None])) in H.
        destruct (IH (n + 1) e s7 c s' H) as [rest [Hrest Hrun]].
        exists (inner ++ EvAttempt n (Some e)
                  :: hook_events onRetry e n d ++ EvSleep d None :: rest).
        split.
        -- rewrite Hrest. subst s7. simpl.
           rewrite Hl6, Hl5, Hl4, Hl3, Hl2.
           rewrite <- !app_assoc. reflexivity.
        -- apply run_next; assumption.
    + (* cancelled before the attempt *)
      unfold bind at 1 in H. unfold read at 1 in H. cbv beta in H.
      rewrite Ha in H. injection H as Hc Hs. subst c s'.
      exists []. rewrite app_nil_r. split; [reflexivity|].
      apply run_cancelled. exists sg, (world s).
      rewrite Hsg in Ha. simpl in Ha. auto.
Qed.

End LoopFacts.

Lemma retry_run T (fn : Z -> M World T) (options : RetryOptions World) s :
  (forall n, extends_log (fn n)) ->
  1 <= default 3 (maxAttempts options) ->
  exists l c s',
    retry fn options s = (Normal (settled c), s')
    /\ log s' = log s ++ l
    /\ run fn (default 3 (maxAttempts options))
         (default (of_Z 1000) (baseDelay options)) (default (of_Z 30000) (maxDelay options))
         (default (of_Z 2) (factor options)) (default true (jitter options))
         (retryIf options) (onRetry options) (signal options)
         (Z.to_nat (default 3 (maxAttempts options))) 1 undefined l c.
Proof.
  intros Hfn Hmax. unfold retry, async.
  destruct (default 3 (maxAttempts options) <? 1) eqn:E.
  { apply Z.ltb_lt in E. lia. }
  match goal with
  | |- context [retry_loop ?a ?b ?c ?d ?e ?f ?g ?h ?i ?j ?k ?l s] =>
      destruct (retry_loop a b c d e f g h i j k l s) as [c0 s'] eqn:Hloop
  end.
  destruct (retry_loop_run _ _ _ _ _ _ _ _ _ Hfn _ _ _ _ Hloop) as [l [Hl Hrun]].
  exists l, c0, s'. split; [destruct c0; reflexivity|]. split; assumption.
Qed.

Lemma user_extends_log A (u : User World A) : extends_log (user u).
Proof.
  intros s. exists []. unfold user. destruct (u (world s)). simpl.
  symmetry. apply app_nil_r.
Qed.

Lemma user_yields T (op : Z -> User World T) n c inner :
  yields (fun k => user (op k)) n c inner ->
  inner = [] /\ exists w w', op n w = (c, w').
Proof.
  intros [s [s' [Hrun Hlog]]]. unfold user in Hrun.
  destruct (op n (world s)) as [c0 w'] eqn:Hop. inversion Hrun; subst.
  simpl in Hlog. split.
  - apply (app_inv_head (log s)). rewrite app_nil_r. symmetry. exact Hlog.
  - eauto.
Qed.

(** *** Projections of a log *)

Lemma attempts_of_app l1 l2 :
  attempts_of (l1 ++ l2) = attempts_of l1 ++ attempts_of l2.
Proof.
  induction l1 as [|[] l1 IH]; simpl; rewrite ?IH; reflexivity.
Qed.

Lemma hooks_of_app l1 l2 : hooks_of (l1 ++ l2) = hooks_of l1 ++ hooks_of l2.
Proof.
  induction l1 as [|[] l1 IH]; simpl; rewrite ?IH; reflexivity.
Qed.

Lemma attempts_of_hook_events (onRetry : option (Value -> Z -> number -> User World unit))
    e n d :
  attempts_of (hook_events onRetry e n d) = [].
Proof. unfold hook_events. destruct onRetry; reflexivity. Qed.

Lemma last_cons (A : Type) (x d : A) (l : list A) : last (x :: l) d = last l x.
Proof.
  revert x d. induction l as [|y l IH]; intros x d; [reflexivity|].
  change (last (x :: y :: l) d) with (last (y :: l) d).
  rewrite (IH y d), (IH y x). reflexivity.
Qed.

(** *** Exhaustion *)

Section Exhaustion.

Variable T : Type.
Variable fn : Z -> M World T.
Variables (maxA : Z) (b m f : number) (j : bool).
Variable onRetry : option (Value -> Z -> number -> User World unit).
Variable signal : option (AbortSignal World).

Hypothesis fn_fails : forall n v inner, ~ yields fn n (Normal v) inner.
Hypothesis fn_quiet :
  forall n c inner, yields fn n c inner -> attempts_of inner = [].
Hypothesis onRetry_total : forall e n d e', ~ onRetry_throws onRetry e n d e'.
Hypothesis signal_quiet : never_cancelled signal.

Lemma never_found_aborted : ~ found_aborted signal.
Proof.
  intros [sg [w [Hsg Ha]]]. unfold never_cancelled in signal_quiet.
  rewrite Hsg in signal_quiet. destruct signal_quiet as [H _].
  rewrite H in Ha. discriminate.
Qed.

Lemma never_interrupted d r : ~ interrupted signal d r.
Proof.
  intros [sg [w [Hsg [_ [Ha | [w0 Hd]]]]]]; unfold never_cancelled in signal_quiet;
    rewrite Hsg in signal_quiet; destruct signal_quiet as [H1 H2].
  - rewrite H1 in Ha. discriminate.
  - rewrite H2 in Hd. discriminate.
Qed.

Lemma run_exhausts rem n le l c :
  run fn maxA b m f j None onRetry signal rem n le l c ->
  Z.of_nat rem = maxA + 1 - n ->
  exists es,
    c = Throw (RetryError maxA (last es le))
    /\ attempts_of l = failed_from n es
    /\ List.length es = rem.
Proof.
  induction 1 as
    [ n le
    | rem n le r Hr
    | rem n le inner v Hy
    | rem n le inner e Hy Hwhy
    | rem n le inner e p w w' e' Hy Hp Hthrow
    | rem n le inner e Hy Hal Hn
    | rem n le inner e d e' Hy Hal Hn Hd Hthrow
    | rem n le inner e d r Hy Hal Hn Hd Hr
    | rem n le inner e d rest c Hy Hal Hn Hd Hrun IH ]; intros Hrem.
  - exists []. auto.
  - exfalso. apply never_found_aborted.
    destruct Hr as [sg [w [Hsg [Ha _]]]]. exists sg, w. auto.
  - exfalso. eapply fn_fails; eauto.
  - destruct Hwhy as [Hs | [p [w [w' [Hp _]]]]];
      [exfalso; apply never_found_aborted; exact Hs | discriminate].
  - discriminate.
  - exists [e]. split; [reflexivity|]. split.
    + rewrite attempts_of_app, (fn_quiet Hy). reflexivity.
    + simpl List.length. lia.
  - exfalso. eapply onRetry_total; eauto.
  - exfalso. eapply never_interrupted; eauto.
  - destruct IH as [es [Hc [Hat Hlen]]]; [lia|].
    exists (e :: es). split; [|split].
    + rewrite last_cons. exact Hc.
    + rewrite attempts_of_app, (fn_quiet Hy). simpl.
      rewrite attempts_of_app, attempts_of_hook_events. simpl.
      rewrite Hat. reflexivity.
    + simpl. rewrite Hlen. reflexivity.
Qed.

End Exhaustion.

(** *** The journal of the environment and the log *)

Section Journal.

Variable T : Type.
Variable op : Z -> User World T.
Variables (maxA : Z) (b m f : number) (j : bool).
Variable retryIf : option (Value -> Z -> User World bool).
Variable onRetry : option (Value -> Z -> number -> User World unit).
Variable signal : option (AbortSignal World).
Variable journal : World -> list Event.

Hypothesis Hj : journaled journal op retryIf onRetry signal.

Local Abbreviation loop :=
  (retry_loop (fun n => user (op n)) maxA b m f j retryIf onRetry signal).

Lemma computeDelay_journal n s d s' :
  computeDelay n b m f j s = (Normal d, s') ->
  journal (world s') = journal (world s) /\ log s' = log s.
Proof.
  unfold computeDelay. destruct j; simpl.
  - unfold bind, random, ret.
    pose proof (journal_random Hj (world s)) as Hr.
    destruct (Math_random (world s)) as [r w']. simpl in Hr.
    intros H. inversion H; subst. simpl. auto.
  - unfold ret. intros H. inversion H; subst. auto.
Qed.

Lemma loop_journal rem :
  forall n le s c s',
    loop rem n le s = (c, s') ->
    exists l J,
      log s' = log s ++ l
      /\ journal (world s') = journal (world s) ++ J
      /\ (J = l
          \/ exists d r, l = J ++ [EvSleep d (Some r)] /\ c = Throw r /\ cancelled signal r).
Proof.
  induction rem as [|rem IH]; intros n le s c s' H.
  - simpl in H. inversion H; subst. exists [], []. rewrite !app_nil_r. auto.
  - destruct (signal_aborted signal (world s)) eqn:Ha.
    { simpl retry_loop in H. unfold try_catch in H. unfold bind at 1 in H.
      destruct (throw_if_aborted_cases signal s) as [[Hna _] | [sg [Hsg [_ Ht]]]];
        [congruence|].
      rewrite Ht in H. unfold bind at 1 in H. unfold read at 1 in H. cbv beta in H.
      rewrite Ha in H. inversion H; subst. exists [], []. rewrite !app_nil_r. auto. }
    destruct (user_frame (op n) s) as [c0 [w1 [Hop Hu]]].
    pose proof (journal_attempt Hj n (world s)) as Hja. rewrite Hop in Hja.
    simpl in Hja.
    destruct c0 as [v|e].
    { erewrite (loop_succeeds (fun k => user (op k))) in H;
        [|exact Ha|exact Hu].
      inversion H; subst. cbn [world log].
      exists [EvAttempt n None], [EvAttempt n None]. auto. }
    erewrite (loop_catches (fun k => user (op k))) in H; [|exact Ha|exact Hu].
    cbn [world this log] in H.
    set (s2 := mkState w1 (this s) (log s ++ [EvAttempt n (Some e)])) in H.
    unfold bind at 1 in H. unfold read at 1 in H. cbv beta in H.
    destruct (signal_aborted signal (world s2)) eqn:Ha2.
    { inversion H; subst. cbn [world log].
      exists [EvAttempt n (Some e)], [EvAttempt n (Some e)]. auto. }
    unfold bind at 1 in H.
    assert (Hgo : exists c1 w3,
      (match retryIf with
       | Some p => user (p e n)
       | None => ret true
       end) s2 = (c1, mkState w3 (this s) (log s2))
      /\ journal w3 = journal w1).
    { destruct retryIf as [p|] eqn:Hp.
      - destruct (user_frame (p e n) s2) as [c1 [w3 [Hpw Hpu]]].
        exists c1, w3. split; [exact Hpu|].
        pose proof (journal_retryIf Hj e n (world s2) eq_refl) as Hjp.
        rewrite Hpw in Hjp. exact Hjp.
      - exists (Normal true), w1. split; reflexivity. }
    destruct Hgo as [c1 [w3 [Hgo Hj3]]]. rewrite Hgo in H.
    destruct c1 as [[|]|e'].
    2:{ cbv beta iota in H. change (negb false) with true in H. cbv beta iota in H.
        inversion H; subst. cbn [world log].
        exists [EvAttempt n (Some e)], [EvAttempt n (Some e)].
        rewrite Hj3. auto. }
    2:{ inversion H; subst. cbn [world log].
        exists [EvAttempt n (Some e)], [EvAttempt n (Some e)].
        rewrite Hj3. auto. }
    cbv beta iota in H. change (negb true) with false in H. cbv beta iota in H.
    destruct (n =? maxA) eqn:Hlast.
    { inversion H; subst. cbn [world log].
      exists [EvAttempt n (Some e)], [EvAttempt n (Some e)].
      rewrite Hj3. auto. }
    unfold bind at 1 in H.
    destruct (computeDelay_returns n b m f j (mkState w3 (this s) (log s2)))
      as [d [s4 [Hd _]]].
    rewrite Hd in H.
    destruct (computeDelay_journal _ _ Hd) as [Hj4 Hl4]. cbn [world log] in Hj4, Hl4.
    unfold bind at 1 in H.
    assert (Hhook : exists c2 s5,
      (match onRetry with
       | Some h => emit (EvOnRetry e n d) ;;; user (h e n d)
       | None => ret tt
       end) s4 = (c2, s5)
      /\ log s5 = log s4 ++ hook_events onRetry e n d
      /\ journal (world s5) = journal (world s4) ++ hook_events onRetry e n d).
    { unfold hook_events. destruct onRetry as [h|] eqn:Hh.
      - unfold bind, emit.
        set (s4' := mkState (world s4) (this s4) (log s4 ++ [EvOnRetry e n d])).
        destruct (user_frame (h e n d) s4') as [c2 [w5 [Hhw Hhu]]].
        rewrite Hhu. exists c2, (mkState w5 (this s4') (log s4')).
        split; [reflexivity|]. split; [reflexivity|].
        pose proof (journal_onRetry Hj e n d (world s4') eq_refl) as Hjh.
        rewrite Hhw in Hjh. exact Hjh.
      - exists (Normal tt), s4. rewrite !app_nil_r. auto. }
    destruct Hhook as [c2 [s5 [Hh [Hl5 Hj5]]]]. rewrite Hh in H.
    assert (Hl5' : log s5 = log s ++ EvAttempt n (Some e) :: hook_events onRetry e n d).
    { rewrite Hl5, Hl4. subst s2. cbn [log]. rewrite <- app_assoc. reflexivity. }
    assert (Hj5' : journal (world s5)
                   = journal (world s) ++ EvAttempt n (Some e) :: hook_events onRetry e n d).
    { rewrite Hj5, Hj4, Hj3, Hja. rewrite <- app_assoc. reflexivity. }
    destruct c2 as [[]|e'].
    2:{ inversion H; subst.
        exists (EvAttempt n (Some e) :: hook_events onRetry e n d),
               (EvAttempt n (Some e) :: hook_events onRetry e n d).
        auto. }
    unfold bind at 1 in H. unfold logged, sleep in H.
    destruct signal as [sg|] eqn:Hsg.
    + destruct (aborted sg (world s5)) eqn:Ha5.
      * inversion H; subst. cbn [world log].
        exists (EvAttempt n (Some e) :: hook_events onRetry e n d
                  ++ [EvSleep d (Some (abort_reason sg (world s5)))]),
               (EvAttempt n (Some e) :: hook_events onRetry e n d).
        split; [rewrite Hl5', <- app_assoc; reflexivity|].
        split; [exact Hj5'|]. right. do 2 eexists.
        split; [reflexivity|]. split; [reflexivity|].
        exists sg, (world s5). auto.
      * destruct (abort_dispatched sg d (world s5)) as [w6|] eqn:Hd6.
        -- inversion H; subst. cbn [world log].
           exists (EvAttempt n (Some e) :: hook_events onRetry e n d
                     ++ [EvSleep d (Some (abort_reason sg w6))]),
                  (EvAttempt n (Some e) :: hook_events onRetry e n d
                     ++ [EvSleep d (Some (abort_reason sg w6))]).
           split; [rewrite Hl5', <- app_assoc; reflexivity|].
           split; [|left; reflexivity].
           rewrite (journal_abort Hj d (world s5) eq_refl Hd6), Hj5', <- app_assoc.
           reflexivity.
        -- destruct (IH _ _ _ _ _ H) as [l [J [Hl [HJ Hrel]]]].
           cbn [world log] in Hl, HJ.
           exists (EvAttempt n (Some e) :: hook_events onRetry e n d
                     ++ EvSleep d None :: l),
                  (EvAttempt n (Some e) :: hook_events onRetry e n d
                     ++ EvSleep d None :: J).
           split.
           { rewrite Hl, Hl5'. rewrite <- !app_assoc. reflexivity. }
           split.
           { rewrite HJ, (journal_timer Hj), Hj5'. rewrite <- !app_assoc. reflexivity. }
           destruct Hrel as [-> | [d' [r [-> Hc]]]]; [left; reflexivity|].
           right. exists d', r. split; [|exact Hc].
           cbn [app]. rewrite <- !app_assoc. reflexivity.
    + destruct (IH _ _ _ _ _ H) as [l [J [Hl [HJ Hrel]]]].
      cbn [world log] in Hl, HJ.
      exists (EvAttempt n (Some e) :: hook_events onRetry e n d
                ++ EvSleep d None :: l),
             (EvAttempt n (Some e) :: hook_events onRetry e n d
                ++ EvSleep d None :: J).
      split.
      { rewrite Hl, Hl5'. rewrite <- !app_assoc. reflexivity. }
      split.
      { rewrite HJ, (journal_timer Hj), Hj5'. rewrite <- !app_assoc. reflexivity. }
      destruct Hrel as [-> | [d' [r [-> Hc]]]]; [left; reflexivity|].
      right. exists d', r. split; [|exact Hc].
      cbn [app]. rewrite <- !app_assoc. reflexivity.
Qed.

End Journal.


Lemma retry_journal T (op : Z -> User World T) (options : RetryOptions World)
    (journal : World -> list Event) s :
  journaled journal op (retryIf options) (onRetry options) (signal options) ->
  1 <= default 3 (maxAttempts options) ->
  exists l J c s',
    retry (fun n => user (op n)) options s = (Normal (settled c), s')
    /\ log s' = log s ++ l
    /\ journal (world s') = journal (world s) ++ J
    /\ run (fun n => user (op n)) (default 3 (maxAttempts options))
         (default (of_Z 1000) (baseDelay options))
         (default (of_Z 30000) (maxDelay options))
         (default (of_Z 2) (factor options)) (default true (jitter options))
         (retryIf options) (onRetry options) (signal options)
         (Z.to_nat (default 3 (maxAttempts options))) 1 undefined l c
    /\ (J = l
        \/ exists d r,
             l = J ++ [EvSleep d (Some r)] /\ c = Throw r
             /\ cancelled (signal options) r).
Proof.
  intros Hj Hmax.
  destruct (retry_run (fun n => user (op n)) options s)
    as [l [c [s' [Hr [Hl Hrun]]]]].
  { intros n. apply user_extends_log. }
  { exact Hmax. }
  exists l. unfold retry, async in Hr.
  destruct (default 3 (maxAttempts options) <? 1) eqn:E.
  { apply Z.ltb_lt in E. lia. }
  match type of Hr with
  | context [retry_loop ?a ?b ?c ?d ?e ?f ?g ?h ?i ?j ?k ?l s] =>
      destruct (retry_loop a b c d e f g h i j k l s) as [c0 s0] eqn:Hloop
  end.
  edestruct loop_journal as [l' [J [Hl' [HJ Hrel]]]]; [exact Hj | exact Hloop |].
  assert (Hc : s0 = s' /\ c0 = c).
  { destruct c0, c; simpl in Hr; inversion Hr; subst; auto. }
  destruct Hc as [-> ->].
  assert (l' = l) as ->.
  { apply (app_inv_head (log s)). rewrite <- Hl, <- Hl'. reflexivity. }
  exists J, c, s'. split.
  { unfold retry, async. rewrite E, Hloop. destruct c; reflexivity. }
  auto.
Qed.

Lemma failing_operation_arrives T (op : Z -> User World T)
    (options : RetryOptions World) s :
  (forall n, fails (op n)) ->
  retryIf options = None ->
  never_cancelled (signal options) ->
  (forall h e n d, onRetry options = Some h -> returns (h e n d)) ->
  forall k : nat,
    Z.of_nat k < default 3 (maxAttempts options) ->
    exists le sk,
      arrives (round_of (fun n => user (op n)) options) s (1 + Z.of_nat k) le sk.
Proof.
  intros Hfail Hif Hsig Hhook.
  assert (Hna : forall w, signal_aborted (signal options) w = false).
  { intros w. unfold never_cancelled in Hsig.
    destruct (signal options) as [sg|]; [|reflexivity]. apply Hsig. }
  induction k as [|k IH]; intros Hk.
  - exists undefined, s. apply arrives_first.
  - destruct IH as [le [sk Harr]]; [lia|].
    destruct (Hfail (1 + Z.of_nat k) (world sk)) as [e [w1 Hop]].
    destruct (computeDelay_returns (1 + Z.of_nat k)
                (default (of_Z 1000) (baseDelay options))
                (default (of_Z 30000) (maxDelay options))
                (default (of_Z 2) (factor options))
                (default true (jitter options))
                (mkState w1 (this sk)
                   (log sk ++ [EvAttempt (1 + Z.of_nat k) (Some e)])))
      as [d [s3 [Hd _]]].
    assert (Hh : exists s4,
      match onRetry options with
      | Some h =>
          exists w4,
            h e (1 + Z.of_nat k) d (world s3) = (Normal tt, w4)
            /\ s4 = mkState w4 (this s3) (log s3 ++ [EvOnRetry e (1 + Z.of_nat k) d])
      | None => s4 = s3
      end).
    { destruct (onRetry options) as [h|] eqn:Eh.
      - destruct (Hhook h e (1 + Z.of_nat k) d eq_refl (world s3)) as [[] [w4 Hw4]].
        eexists. exists w4. split; [exact Hw4|reflexivity].
      - exists s3. reflexivity. }
    destruct Hh as [s4 Hh].
    exists e, (mkState (setTimeout_fires d (world s4)) (this s4)
                 (log s4 ++ [EvSleep d None])).
    replace (1 + Z.of_nat (S k)) with (1 + Z.of_nat k + 1) by lia.
    apply arrives_next with (le := le) (s := sk); [exact Harr|].
    exists d, s4. split.
    + split; [apply Hna|].
      exists (mkState w1 (this sk) (log sk)), w1, s3.
      split; [unfold user; rewrite Hop; reflexivity|].
      split; [apply Hna|]. split; [rewrite Hif; reflexivity|].
      split; [lia|]. split; [exact Hd|exact Hh].
    + split; [|reflexivity]. unfold never_cancelled in Hsig.
      destruct (signal options) as [sg|]; [|exact I].
      destruct Hsig as [H1 H2]. split; [apply H1|apply H2].
Qed.

(** C2.  An operation that fails at every call, [maxAttempts = N >= 1],
    no [retryIf], no signal or one that is never aborted, and an
    [onRetry] hook, if any, that does not throw (the specification asks
    that of the hooks, 7).  Then [N - 1] rounds, in each of which the
    operation is called once, lead to attempt [N]; there the operation is
    called for the [N]th time and fails; and the promise of [retry]
    rejects with a [RetryError] whose [attempts] is [N] and whose
    [lastError] is the error of that last call.  The environment at the
    end is the one that the last call left: nothing ran after it.  The
    attempts in the log are 1 to [N], all failed; and when the environment
    keeps a journal, the calls that the operation itself noted there are
    the same [N]. *)
Theorem retry_exhausts_maxAttempts T (op : Z -> User World T)
    (options : RetryOptions World) (N : Z) s :
  (forall n, fails (op n)) ->
  maxAttempts options = Some N ->
  1 <= N ->
  retryIf options = None ->
  never_cancelled (signal options) ->
  (forall h e n d, onRetry options = Some h -> returns (h e n d)) ->
  exists es le sN wN l,
    arrives (round_of (fun n => user (op n)) options) s N le sN
    /\ op N (world sN) = (Throw (last es undefined), wN)
    /\ retry (fun n => user (op n)) options s
       = (Normal (Rejected (RetryError N (last es undefined))),
          mkState wN (this sN) (log s ++ l))
    /\ attempts_of l = failed_from 1 es
    /\ Z.of_nat (List.length es) = N
    /\ forall journal : World -> list Event,
         journaled journal op (retryIf options) (onRetry options) (signal options) ->
         exists J,
           journal wN = journal (world s) ++ J
           /\ attempts_of J = failed_from 1 es.
Proof.
  intros Hfail HN Hpos Hif Hsig Hhook.
  assert (Hmax : default 3 (maxAttempts options) = N) by (rewrite HN; reflexivity).
  assert (Hna : forall w, signal_aborted (signal options) w = false).
  { intros w. unfold never_cancelled in Hsig.
    destruct (signal options) as [sg|]; [|reflexivity]. apply Hsig. }
  (* the way to the last attempt, and the last attempt *)
  destruct (@failing_operation_arrives T op options s Hfail Hif Hsig Hhook
              (Z.to_nat (N - 1)))
    as [le [sN Harr]]; [rewrite Hmax; lia|].
  replace (1 + Z.of_nat (Z.to_nat (N - 1))) with N in Harr by lia.
  destruct (Hfail N (world sN)) as [e [wN Hop]].
  assert (Hexact :
    retry (fun n => user (op n)) options s
    = (Normal (Rejected (RetryError N e)),
       mkState wN (this sN) (log sN ++ [EvAttempt N (Some e)]))).
  { unfold retry, async. rewrite Hmax.
    destruct (N <? 1) eqn:E; [apply Z.ltb_lt in E; lia|].
    pose proof Harr as Harr'. unfold round_of in Harr'. rewrite Hmax in Harr'.
    edestruct arrives_loop as [_ Hloop]; [exact Hpos | exact Harr' |].
    rewrite Hloop.
    replace (Z.to_nat (N + 1 - N)) with 1%nat by lia.
    erewrite loop_last with (s1 := mkState wN (this sN) (log sN)) (w2 := wN);
      [reflexivity | apply Hna | | apply Hna | rewrite Hif; reflexivity].
    unfold user. rewrite Hop. reflexivity. }
  (* the attempts of the log *)
  destruct (retry_run (fun n => user (op n)) options s) as [l [c [s' [Hr [Hl Hrun]]]]].
  { intros n. apply user_extends_log. }
  { rewrite Hmax. exact Hpos. }
  rewrite HN, Hif in Hrun. simpl default in Hrun.
  assert (H1 : forall n v inner, ~ yields (fun n => user (op n)) n (Normal v) inner).
  { intros n v inner Hy. apply user_yields in Hy.
    destruct Hy as [_ [w [w' Hop']]].
    destruct (Hfail n w) as [e' [w'' He]]. congruence. }
  assert (H2 : forall n c0 inner,
             yields (fun n => user (op n)) n c0 inner -> attempts_of inner = []).
  { intros n c0 inner Hy. apply user_yields in Hy. destruct Hy as [-> _].
    reflexivity. }
  assert (H3 : forall e' n d e'', ~ onRetry_throws (onRetry options) e' n d e'').
  { intros e' n d e'' [h [w [w' [Hh Hthrow]]]].
    destruct (Hhook h e' n d Hh w) as [[] [w'' Hret]]. congruence. }
  assert (H4 : Z.of_nat (Z.to_nat N) = N + 1 - 1) by (rewrite Z2Nat.id; lia).
  destruct (run_exhausts H1 H2 H3 Hsig Hrun H4) as [es [Hc [Hat Hlen]]].
  rewrite Hexact in Hr. subst c. simpl in Hr. injection Hr as He Hs'.
  subst s'. cbn [log] in Hl.
  exists es, le, sN, wN, l. rewrite <- He.
  split; [exact Harr|]. split; [exact Hop|]. split.
  { rewrite Hexact, Hl. reflexivity. }
  split; [exact Hat|]. split; [rewrite Hlen; apply Z2Nat.id; lia|].
  (* the attempts that the environment saw *)
  intros journal Hj.
  destruct (@retry_journal T op options journal s Hj)
    as [l' [J [c' [s'' [Hr' [Hl' [HJ [_ Hrel]]]]]]]].
  { rewrite Hmax. exact Hpos. }
  rewrite Hexact in Hr'. injection Hr' as Hc' Hs''.
  subst s''. cbn [world log] in HJ, Hl'.
  exists J. split; [exact HJ|].
  assert (J = l') as ->.
  { destruct Hrel as [-> | [d [r [_ [_ Hcan]]]]]; [reflexivity|].
    exfalso. destruct Hcan as [sg [w [Hsg [Ha _]]]].
    pose proof (Hna w) as Hw. rewrite Hsg in Hw. simpl in Hw. congruence. }
  assert (l' = l) as ->.
  { apply (app_inv_head (log s)). rewrite <- Hl'. exact Hl. }
  exact Hat.
Qed.

(** *** Cancellation during the sleep *)

Lemma in_hook_events (onRetry : option (Value -> Z -> number -> User World unit))
    e n d ev :
  In ev (hook_events onRetry e n d) -> ev = EvOnRetry e n d.
Proof.
  unfold hook_events. destruct onRetry; simpl; intros H; [|contradiction].
  destruct H as [H|[]]. symmetry. exact H.
Qed.

(** C6.  The signal is aborted during a sleep between two attempts.
    Rounds lead from the call of [retry] to attempt [n], the first or a
    later one; that attempt fails with [e] and is retried, the sleep of
    [d] after it starts with the signal not aborted, and the abort event
    is dispatched before the timer fires, leaving the environment [w5].
    Then attempts remain ([n < maxAttempts]) and yet the promise of
    [retry] rejects, with the reason of the signal as it is then
    ([signal.reason], or the [AbortError] of [sleep] if the reason is
    undefined): not with a [RetryError] and not with [e].  The state is
    the one that the abort left, so nothing ran after it. *)
Theorem cancelled_sleep_rejects_retry T (op : Z -> User World T)
    (options : RetryOptions World) (sg : AbortSignal World)
    s0 n le s e d s4 w5 :
  signal options = Some sg ->
  1 <= default 3 (maxAttempts options) ->
  arrives (round_of (fun k => user (op k)) options) s0 n le s ->
  retried_of (fun k => user (op k)) options n s e d s4 ->
  aborted sg (world s4) = false ->
  abort_dispatched sg d (world s4) = Some w5 ->
  let r := match reason sg w5 with
           | Some r => r
           | None => DOMException "Aborted" "AbortError"
           end in
  n < default 3 (maxAttempts options)
  /\ retry (fun k => user (op k)) options s0
     = (Normal (Rejected r),
        mkState w5 (this s4) (log s4 ++ [EvSleep d (Some r)])).
Proof.
  intros Hsg Hmax Harr Hret Ha Hd r.
  destruct (arrives_loop Hmax Harr) as [Hn Hloop].
  assert (Hne : n <> default 3 (maxAttempts options)).
  { destruct Hret as [_ [s1 [w2 [s3 [_ [_ [_ [Hne _]]]]]]]]. exact Hne. }
  split; [lia|].
  unfold retry, async.
  destruct (default 3 (maxAttempts options) <? 1) eqn:E.
  { apply Z.ltb_lt in E. lia. }
  rewrite Hloop.
  replace (Z.to_nat (default 3 (maxAttempts options) + 1 - n))
    with (S (Z.to_nat (default 3 (maxAttempts options) - n))) by lia.
  unfold retried_of in Hret. rewrite Hsg in Hret.
  rewrite Hsg.
  rewrite (loop_sleep_cancelled _ le Hret eq_refl Ha Hd).
  reflexivity.
Qed.



(** *** The hook *)

Section Hooked.

Variable T : Type.
Variable fn : Z -> M World T.
Variables (maxA : Z) (b m f : number) (j : bool).
Variable retryIf : option (Value -> Z -> User World bool).
Variable h : Value -> Z -> number -> User World unit.
Variable signal : option (AbortSignal World).

Hypothesis fn_silent : forall n c inner, yields fn n c inner -> inner = [].

Local Abbreviation Ok := (rounds_ok maxA b m f j).
Local Abbreviation Closing := (closing maxA b m f j (Some h)).

Lemma run_rounds rem n le l c :
  run fn maxA b m f j retryIf (Some h) signal rem n le l c ->
  Z.of_nat rem = maxA + 1 - n ->
  exists hs tail,
    l = rounds hs ++ tail
    /\ Ok n hs
    /\ Closing (n + Z.of_nat (List.length hs)) tail c.
Proof.
  induction 1 as
    [ n le
    | rem n le r0 Hr
    | rem n le inner v Hy
    | rem n le inner e Hy Hwhy
    | rem n le inner e p w w' e' Hy Hp Hthrow
    | rem n le inner e Hy Hal Hn
    | rem n le inner e d0 e' Hy Hal Hn Hd Hthrow
    | rem n le inner e d0 r0 Hy Hal Hn Hd Hr
    | rem n le inner e d0 rest c Hy Hal Hn Hd Hrun IH ]; intros Hrem;
    try (rewrite (fn_silent Hy); simpl app).
  - exists [], []. simpl. split; [reflexivity|]. split; [exact I|]. left. eauto.
  - exists [], []. simpl. split; [reflexivity|]. split; [exact I|]. left. eauto.
  - exists [], [EvAttempt n None]. simpl. split; [reflexivity|]. split; [exact I|].
    right. left. rewrite Z.add_0_r. exists v. split; reflexivity.
  - exists [], [EvAttempt n (Some e)]. simpl. split; [reflexivity|].
    split; [exact I|]. right. right. left. rewrite Z.add_0_r.
    exists e, e. split; reflexivity.
  - exists [], [EvAttempt n (Some e)]. simpl. split; [reflexivity|].
    split; [exact I|]. right. right. left. rewrite Z.add_0_r.
    exists e, e'. split; reflexivity.
  - exists [], [EvAttempt n (Some e)]. simpl. split; [reflexivity|].
    split; [exact I|]. right. right. left. rewrite Z.add_0_r.
    exists e, (RetryError maxA e). split; reflexivity.
  - exists [], [EvAttempt n (Some e); EvOnRetry e n d0]. simpl.
    split; [reflexivity|]. split; [exact I|]. right. right. right. left.
    rewrite Z.add_0_r. exists e, d0, e'. repeat split; try assumption. lia.
  - exists [], [EvAttempt n (Some e); EvOnRetry e n d0; EvSleep d0 (Some r0)].
    simpl. split; [reflexivity|]. split; [exact I|]. right. right. right. right.
    rewrite Z.add_0_r. exists e, d0, r0. repeat split; try assumption. lia.
  - destruct IH as [hs [tail [Hl [Hok Hclose]]]]; [lia|].
    exists ((e, n, d0) :: hs), tail. simpl. split; [rewrite Hl; reflexivity|].
    split.
    + repeat split; try assumption. lia.
    + replace (n + Z.pos (Pos.of_succ_nat (List.length hs)))
        with (n + 1 + Z.of_nat (List.length hs)) by lia.
      exact Hclose.
Qed.

End Hooked.

Lemma attempts_of_rounds hs :
  attempts_of (rounds hs) = map (fun x => (snd (fst x), Some (fst (fst x)))) hs.
Proof.
  induction hs as [|[[e n] d] hs IH]; simpl; [|rewrite IH]; reflexivity.
Qed.

Lemma hooks_of_rounds hs : hooks_of (rounds hs) = hs.
Proof.
  induction hs as [|[[e n] d] hs IH]; simpl; [|rewrite IH]; reflexivity.
Qed.

Lemma delay_of_without_jitter (b m f : number) n d :
  delay_of b m f false n d -> d = Math_min (mul b (Math_pow f (of_Z (n - 1)))) m.
Proof.
  intros [s [s' H]]. rewrite computeDelay_deterministic in H.
  inversion H. reflexivity.
Qed.

Lemma two_failures_then_success T (maxA : Z) (b m f : number)
    (onRetry : option (Value -> Z -> number -> User World unit))
    hs tail (c : Completion (RetryResult T)) e1 e2 :
  rounds_ok maxA b m f false 1 hs ->
  closing maxA b m f false onRetry (1 + Z.of_nat (List.length hs)) tail c ->
  attempts_of (rounds hs ++ tail) = [(1, Some e1); (2, Some e2); (3, None)] ->
  exists v,
    hooks_of (rounds hs ++ tail)
    = [(e1, 1, Math_min (mul b (Math_pow f (of_Z 0))) m);
       (e2, 2, Math_min (mul b (Math_pow f (of_Z 1))) m)]
    /\ c = Normal (mkRetryResult v 3).
Proof.
  intros Hok Hclose Hatt.
  rewrite attempts_of_app, attempts_of_rounds in Hatt.
  rewrite hooks_of_app, hooks_of_rounds.
  destruct hs as [|[[x1 n1] d1] [|[[x2 n2] d2] [|[[x3 n3] d3] hs]]];
    simpl in Hok, Hatt, Hclose;
    destruct Hclose as
      [ [-> _]
      | [ [v [-> Hc]]
        | [ [e [e' [-> Hc]]]
          | [ [e [d [e' [_ [_ [_ [-> Hc]]]]]]]
            | [e [d [r [_ [_ [-> Hc]]]]]] ] ] ] ];
    simpl in Hatt; try discriminate.
  destruct Hok as [-> [_ [Hd1 [-> [_ [Hd2 _]]]]]].
  apply delay_of_without_jitter in Hd1, Hd2.
  inversion Hatt; subst. exists v. simpl. split; reflexivity.
Qed.

Lemma rounds_end hs :
  rounds hs = [] \/ exists l d, rounds hs = l ++ [EvSleep d None].
Proof.
  induction hs as [|[[e n] d] hs IH]; [left; reflexivity|]. right. simpl.
  destruct IH as [-> | [l [d' ->]]].
  - exists [EvAttempt n (Some e); EvOnRetry e n d], d. reflexivity.
  - exists (EvAttempt n (Some e) :: EvOnRetry e n d :: EvSleep d None :: l), d'.
    reflexivity.
Qed.

Lemma closing_of_journal T (maxA : Z) (b m f : number) (j : bool)
    (onRetry : option (Value -> Z -> number -> User World unit))
    (signal : option (AbortSignal World)) hs k tail (c : Completion (RetryResult T))
    J d r :
  closing maxA b m f j onRetry k tail c ->
  rounds hs ++ tail = J ++ [EvSleep d (Some r)] ->
  c = Throw r ->
  cancelled signal r ->
  exists tail',
    J = rounds hs ++ tail'
    /\ closing_seen maxA b m f j onRetry signal k tail' c.
Proof.
  intros Hclose Hl Hc Hr.
  destruct Hclose as
    [ [-> _]
    | [ [v [-> _]]
      | [ [e [e' [-> _]]]
        | [ [e [d0 [e' [_ [_ [_ [-> _]]]]]]]
          | [e [d0 [r0 [Hk [Hd [-> Hc0]]]]]] ] ] ] ].
  - exfalso. rewrite app_nil_r in Hl.
    destruct (rounds_end hs) as [H | [l [d' H]]]; rewrite H in Hl.
    + destruct J; discriminate.
    + apply app_inj_tail in Hl. destruct Hl as [_ Hl]. discriminate.
  - exfalso. apply app_inj_tail in Hl. destruct Hl as [_ Hl]. discriminate.
  - exfalso. apply app_inj_tail in Hl. destruct Hl as [_ Hl]. discriminate.
  - exfalso.
    change [EvAttempt k (Some e); EvOnRetry e k d0]
      with ([EvAttempt k (Some e)] ++ [EvOnRetry e k d0]) in Hl.
    rewrite app_assoc in Hl.
    apply app_inj_tail in Hl. destruct Hl as [_ Hl]. discriminate.
  - change [EvAttempt k (Some e); EvOnRetry e k d0; EvSleep d0 (Some r0)]
      with ([EvAttempt k (Some e); EvOnRetry e k d0] ++ [EvSleep d0 (Some r0)]) in Hl.
    rewrite app_assoc in Hl.
    apply app_inj_tail in Hl. destruct Hl as [<- Hl]. inversion Hl; subst d0 r0.
    exists [EvAttempt k (Some e); EvOnRetry e k d]. split; [reflexivity|].
    right. exists e, d, r. auto.
Qed.

(** C7, as amended.  The calls of an [onRetry] hook.
    A round, as [arrives] has them, is a failed attempt [n], then the one
    call of the hook, with the error of that attempt, [n] and the delay
    that [computeDelay] returned, then the sleep of that delay, which
    starts in the environment that the hook left.  After such rounds: if
    attempt [n] succeeds, [retry] fulfils with [attempts = n], and if
    attempt [maxAttempts] fails, [retry] rejects with a [RetryError]; in
    both cases the environment at the end is the one that the operation,
    and the predicate if it was asked, left: the hook is not called after
    the final attempt.
    When the environment keeps a journal, what it saw of any run is a
    sequence of rounds (failed attempt, call of the hook, sleep) for the
    attempts 1, 2, ..., none of them attempt [maxAttempts], and a closing
    part: nothing, or the final attempt alone, with no call of the hook
    after it, or a last round cut short by a hook that throws or by a
    sleep that rejects.  So the hook is called once for each failed
    attempt that is retried, after that attempt and before the sleep.  In
    particular, when jitter is off and the attempts are two failures and a
    success, [retry] returns [attempts = 3] and the hook was called
    exactly twice, with the delays
    [Math.min(baseDelay * Math.pow(factor, 0), maxDelay)], which is
    [Math.min(baseDelay, maxDelay)], and
    [Math.min(baseDelay * Math.pow(factor, 1), maxDelay)]. *)
Theorem onRetry_once_before_each_sleep T (op : Z -> User World T)
    (options : RetryOptions World) h s :
  onRetry options = Some h ->
  (forall n le sn,
      1 <= default 3 (maxAttempts options) ->
      arrives (round_of (fun k => user (op k)) options) s n le sn ->
      signal_aborted (signal options) (world sn) = false ->
      (forall v w1,
          op n (world sn) = (Normal v, w1) ->
          retry (fun k => user (op k)) options s
          = (Normal (Fulfilled (mkRetryResult v n)),
             mkState w1 (this sn) (log sn ++ [EvAttempt n None])))
      /\ (forall e w1 w2,
            op n (world sn) = (Throw e, w1) ->
            signal_aborted (signal options) w1 = false ->
            match retryIf options with
            | Some p => p e n w1 = (Normal true, w2)
            | None => w2 = w1
            end ->
            n = default 3 (maxAttempts options) ->
            retry (fun k => user (op k)) options s
            = (Normal (Rejected (RetryError n e)),
               mkState w2 (this sn) (log sn ++ [EvAttempt n (Some e)]))))
  /\ forall journal : World -> list Event,
       journaled journal op (retryIf options) (onRetry options) (signal options) ->
       exists J p s',
         retry (fun n => user (op n)) options s = (Normal p, s')
         /\ journal (world s') = journal (world s) ++ J
         /\ (exists hs tail c,
               J = rounds hs ++ tail
               /\ p = settled c
               /\ rounds_ok (default 3 (maxAttempts options))
                    (default (of_Z 1000) (baseDelay options))
                    (default (of_Z 30000) (maxDelay options))
                    (default (of_Z 2) (factor options))
                    (default true (jitter options)) 1 hs
               /\ closing_seen (default 3 (maxAttempts options))
                    (default (of_Z 1000) (baseDelay options))
                    (default (of_Z 30000) (maxDelay options))
                    (default (of_Z 2) (factor options))
                    (default true (jitter options)) (onRetry options) (signal options)
                    (1 + Z.of_nat (List.length hs)) tail c)
         /\ (forall e1 e2 (b m f : number),
               attempts_of J = [(1, Some e1); (2, Some e2); (3, None)] ->
               jitter options = Some false ->
               default (of_Z 1000) (baseDelay options) = b ->
               default (of_Z 30000) (maxDelay options) = m ->
               default (of_Z 2) (factor options) = f ->
               exists d1 d2 v,
                 hooks_of J = [(e1, 1, d1); (e2, 2, d2)]
                 /\ d1 = Math_min (mul b (Math_pow f (of_Z 0))) m
                 /\ d2 = Math_min (mul b (Math_pow f (of_Z 1))) m
                 /\ (is_double b -> d1 = Math_min b m)
                 /\ p = Fulfilled (mkRetryResult v 3)).
Proof.
  intros Hh. split.
  { intros n le sn Hmax Harr Ha.
    pose proof Harr as Harr'. unfold round_of in Harr'.
    edestruct arrives_loop as [Hn Hloop]; [exact Hmax | exact Harr' |].
    assert (Hretry :
      retry (fun k => user (op k)) options s
      = async
          (retry_loop (fun k => user (op k)) (default 3 (maxAttempts options))
             (default (of_Z 1000) (baseDelay options))
             (default (of_Z 30000) (maxDelay options))
             (default (of_Z 2) (factor options))
             (default true (jitter options))
             (retryIf options) (onRetry options) (signal options)
             (S (Z.to_nat (default 3 (maxAttempts options) - n))) n le) sn).
    { unfold retry, async.
      destruct (default 3 (maxAttempts options) <? 1) eqn:E;
        [apply Z.ltb_lt in E; lia|].
      rewrite Hloop.
      replace (Z.to_nat (default 3 (maxAttempts options) + 1 - n))
        with (S (Z.to_nat (default 3 (maxAttempts options) - n))) by lia.
      reflexivity. }
    split.
    - intros v w1 Hop. rewrite Hretry. unfold async.
      erewrite loop_succeeds with (s1 := mkState w1 (this sn) (log sn));
        [reflexivity | exact Ha |].
      unfold user. rewrite Hop. reflexivity.
    - intros e w1 w2 Hop Ha1 Hp Hlast. rewrite Hretry. unfold async.
      clear Hretry Hloop Harr Harr'. subst n.
      erewrite loop_last with (s1 := mkState w1 (this sn) (log sn)) (w2 := w2);
        [reflexivity | exact Ha | | exact Ha1 | exact Hp].
      unfold user. rewrite Hop. reflexivity. }
  intros journal Hj.
  assert (Hdecomp :
    exists l J c s' hs tail,
      retry (fun n => user (op n)) options s = (Normal (settled c), s')
      /\ journal (world s') = journal (world s) ++ J
      /\ l = rounds hs ++ tail
      /\ rounds_ok (default 3 (maxAttempts options))
           (default (of_Z 1000) (baseDelay options))
           (default (of_Z 30000) (maxDelay options))
           (default (of_Z 2) (factor options))
           (default true (jitter options)) 1 hs
      /\ closing (default 3 (maxAttempts options))
           (default (of_Z 1000) (baseDelay options))
           (default (of_Z 30000) (maxDelay options))
           (default (of_Z 2) (factor options))
           (default true (jitter options)) (onRetry options)
           (1 + Z.of_nat (List.length hs)) tail c
      /\ (J = l
          \/ exists d r,
               l = J ++ [EvSleep d (Some r)] /\ c = Throw r
               /\ cancelled (signal options) r)).
  { destruct (Z_lt_le_dec (default 3 (maxAttempts options)) 1) as [Hlt|Hge].
    - exists [], [], (Throw (RangeError "maxAttempts must be >= 1")), s, [], [].
      split; [|split; [|split; [|split; [|split]]]].
      + unfold retry, async. apply Z.ltb_lt in Hlt. rewrite Hlt. reflexivity.
      + symmetry. apply app_nil_r.
      + reflexivity.
      + exact I.
      + left. eauto.
      + left. reflexivity.
    - destruct (@retry_journal T op options journal s Hj Hge) as [l [J [c [s' [Hr [_ [HJ [Hrun Hrel]]]]]]]].
      rewrite Hh in Hrun.
      assert (Hsilent : forall n c0 inner,
                 yields (fun n => user (op n)) n c0 inner -> inner = []).
      { intros n c0 inner Hy. apply user_yields in Hy. apply Hy. }
      destruct (run_rounds Hsilent Hrun) as [hs [tail [Hl' [Hok Hclose]]]].
      { rewrite Z2Nat.id by lia. lia. }
      exists l, J, c, s', hs, tail. rewrite Hh.
      split; [exact Hr|]. split; [exact HJ|]. split; [exact Hl'|].
      split; [exact Hok|]. split; [exact Hclose|exact Hrel]. }
  destruct Hdecomp as [l [J [c [s' [hs [tail [Hr [HJ [Hl [Hok [Hclose Hrel]]]]]]]]]]].
  exists J, (settled c), s'. split; [exact Hr|]. split; [exact HJ|]. split.
  - destruct Hrel as [-> | [d [r [Hl' [Hc Hcan]]]]].
    + exists hs, tail, c. split; [exact Hl|]. split; [reflexivity|].
      split; [exact Hok|]. left. exact Hclose.
    + rewrite Hl in Hl'.
      edestruct closing_of_journal as [tail' [HJ' Hseen]];
        [exact Hclose | exact Hl' | exact Hc | exact Hcan |].
      exists hs, tail', c. auto.
  - intros e1 e2 b m f Hatt Hjit Hb Hm Hf.
    rewrite Hjit, Hb, Hm, Hf in Hok, Hclose. simpl default in Hok, Hclose.
    assert (Hsame : attempts_of l = attempts_of J /\ hooks_of l = hooks_of J).
    { destruct Hrel as [-> | [d [r [-> _]]]]; [auto|].
      rewrite attempts_of_app, hooks_of_app. simpl. rewrite !app_nil_r. auto. }
    destruct Hsame as [Ha Hk]. rewrite <- Ha in Hatt. rewrite <- Hk.
    rewrite Hl in Hatt.
    destruct (two_failures_then_success hs Hok Hclose Hatt) as [v [Hhooks Hc]].
    exists (Math_min (mul b (Math_pow f (of_Z 0))) m),
           (Math_min (mul b (Math_pow f (of_Z 1))) m), v.
    rewrite Hl. split; [exact Hhooks|]. split; [reflexivity|].
    split; [reflexivity|]. split.
    + intros Hdb. unfold Math_pow. simpl. rewrite (mul_one_r Hdb). reflexivity.
    + rewrite Hc. reflexivity.
Qed.


(** ** The breaker and the retry loop together *)

Lemma abe_ret A (a : A) : adds_breaker_events (World := World) (ret a).
Proof. intros s. exists []. simpl. rewrite app_nil_r. auto. Qed.

Lemma abe_throw A e : adds_breaker_events (World := World) (A := A) (throw e).
Proof. intros s. exists []. simpl. rewrite app_nil_r. auto. Qed.

Lemma abe_bind A B (c : M World A) (k : A -> M World B) :
  adds_breaker_events c -> (forall a, adds_breaker_events (k a)) ->
  adds_breaker_events (bind c k).
Proof.
  intros Hc Hk s. unfold bind. destruct (Hc s) as [l1 [Hl1 Hb1]].
  destruct (c s) as [[a|e] s1]; simpl in Hl1.
  - destruct (Hk a s1) as [l2 [Hl2 Hb2]]. exists (l1 ++ l2).
    rewrite Hl2, Hl1, app_assoc. split; [reflexivity|].
    apply Forall_app. auto.
  - exists l1. auto.
Qed.

Lemma abe_try_catch A (c : M World A) (handler : Value -> M World A) :
  adds_breaker_events c -> (forall e, adds_breaker_events (handler e)) ->
  adds_breaker_events (try_catch c handler).
Proof.
  intros Hc Hk s. unfold try_catch. destruct (Hc s) as [l1 [Hl1 Hb1]].
  destruct (c s) as [[a|e] s1]; simpl in Hl1.
  - exists l1. auto.
  - destruct (Hk e s1) as [l2 [Hl2 Hb2]]. exists (l1 ++ l2).
    rewrite Hl2, Hl1, app_assoc. split; [reflexivity|].
    apply Forall_app. auto.
Qed.

Lemma abe_async A (c : M World A) :
  adds_breaker_events c -> adds_breaker_events (async c).
Proof.
  intros Hc s. unfold async. destruct (Hc s) as [l [Hl Hb]].
  destruct (c s) as [[a|e] s1]; exists l; auto.
Qed.

Lemma abe_user A (u : User World A) : adds_breaker_events (user u).
Proof.
  intros s. exists []. unfold user. destruct (u (world s)). simpl.
  rewrite app_nil_r. auto.
Qed.

Lemma abe_assign g : adds_breaker_events (World := World) (assign g).
Proof. intros s. exists []. simpl. rewrite app_nil_r. auto. Qed.

Lemma abe_logged_operation A (c : M World A) :
  adds_breaker_events c -> adds_breaker_events (logged EvOperation c).
Proof.
  intros Hc s. unfold logged. destruct (Hc s) as [l [Hl Hb]].
  destruct (c s) as [[a|e] s1]; simpl in *.
  - exists (l ++ [EvOperation None]). rewrite Hl, app_assoc.
    split; [reflexivity|]. apply Forall_app. split; [exact Hb|].
    constructor; [exact I|constructor].
  - exists (l ++ [EvOperation (Some e)]). rewrite Hl, app_assoc.
    split; [reflexivity|]. apply Forall_app. split; [exact Hb|].
    constructor; [exact I|constructor].
Qed.

Lemma abe_transition to : adds_breaker_events (World := World) (transition to).
Proof.
  intros s. rewrite transition_log.
  destruct (CircuitState_eqb (state (this s)) to); eexists; split;
    try reflexivity; auto.
  constructor; [exact I|constructor].
Qed.

Lemma abe_checkHalfOpen : adds_breaker_events (World := World) checkHalfOpen.
Proof.
  intros s. destruct (due_dec s) as [Hd|Hd].
  - rewrite (checkHalfOpen_due_log Hd). eexists. split; [reflexivity|].
    constructor; [exact I|constructor].
  - rewrite (checkHalfOpen_not_due Hd). exists []. simpl.
    rewrite app_nil_r. auto.
Qed.

Lemma abe_onSuccess : adds_breaker_events (World := World) onSuccess.
Proof.
  unfold onSuccess. apply abe_bind; [intros s; exists []; simpl; rewrite app_nil_r; auto|].
  intros b0. destruct (CircuitState_eqb (state b0) half_open).
  - apply abe_bind; [apply abe_assign|]. intros _.
    apply abe_bind; [intros s; exists []; simpl; rewrite app_nil_r; auto|].
    intros b1. destruct (successes b1 >=? halfOpenSuccesses b1).
    + apply abe_bind; [apply abe_transition|]. intros _.
      apply abe_bind; [apply abe_assign|]. intros _. apply abe_assign.
    + apply abe_ret.
  - apply abe_assign.
Qed.

Lemma abe_onFailure : adds_breaker_events (World := World) onFailure.
Proof.
  unfold onFailure. apply abe_bind; [intros s; exists []; simpl; rewrite app_nil_r; auto|].
  intros b0. apply abe_bind; [apply abe_assign|]. intros _.
  apply abe_bind; [intros s; exists []; simpl; rewrite app_nil_r; auto|].
  intros now. apply abe_bind; [apply abe_assign|]. intros _.
  apply abe_bind; [intros s; exists []; simpl; rewrite app_nil_r; auto|].
  intros b1. destruct (CircuitState_eqb (state b1) half_open).
  - apply abe_transition.
  - destruct (failures b1 >=? failureThreshold b1);
      [apply abe_transition | apply abe_ret].
Qed.

Lemma abe_call T (fn : M World T) :
  adds_breaker_events fn -> adds_breaker_events (call fn).
Proof.
  intros Hfn. unfold call. apply abe_async.
  apply abe_bind; [apply abe_checkHalfOpen|]. intros _.
  apply abe_bind; [intros s; exists []; simpl; rewrite app_nil_r; auto|].
  intros b0. destruct (CircuitState_eqb (state b0) open).
  - apply abe_throw.
  - apply abe_try_catch.
    + apply abe_bind; [apply abe_logged_operation; exact Hfn|]. intros r.
      apply abe_bind; [apply abe_onSuccess|]. intros _. apply abe_ret.
    + intros e. apply abe_bind; [apply abe_onFailure|]. intros _.
      apply abe_throw.
Qed.

Lemma abe_await A (p : Promise A) : adds_breaker_events (World := World) (await p).
Proof. destruct p; [apply abe_ret | apply abe_throw]. Qed.

Section Refusal.

Variable T : Type.
Variable fn : Z -> M World T.
Variables (maxA : Z) (b m f : number) (j : bool).
Variable p : Value -> Z -> User World bool.
Variable onRetry : option (Value -> Z -> number -> User World unit).
Variable signal : option (AbortSignal World).

(** An error for which [retryIf] always answers [false]. *)
Variable e0 : Value.
Hypothesis p_refuses : forall n w, p e0 n w = (Normal false, w).

Hypothesis fn_quiet :
  forall n c inner, yields fn n c inner -> forall k r, ~ In (EvAttempt k r) inner.

Lemma run_refused_error_is_final rem n le l c :
  run fn maxA b m f j (Some p) onRetry signal rem n le l c ->
  forall k,
    In (EvAttempt k (Some e0)) l ->
    c = Throw e0 /\ exists l0, l = l0 ++ [EvAttempt k (Some e0)].
Proof.
  assert (Hnot : forall k, ~ allowed (Some p) e0 k).
  { intros k Hal. destruct (Hal p eq_refl) as [w [w' Hw]].
    rewrite p_refuses in Hw. discriminate. }
  induction 1 as
    [ n le
    | rem n le r0 Hr
    | rem n le inner v Hy
    | rem n le inner e Hy Hwhy
    | rem n le inner e q w w' e' Hy Hp Hthrow
    | rem n le inner e Hy Hal Hn
    | rem n le inner e d0 e' Hy Hal Hn Hd Hthrow
    | rem n le inner e d0 r0 Hy Hal Hn Hd Hr
    | rem n le inner e d0 rest c Hy Hal Hn Hd Hrun IH ]; intros k Hin;
    try (apply in_app_or in Hin; destruct Hin as [Hin|Hin];
         [exfalso; eapply fn_quiet; eauto|]).
  - contradiction.
  - contradiction.
  - destruct Hin as [Hin|[]]. discriminate.
  - destruct Hin as [Hin|[]]. inversion Hin; subst. eauto.
  - destruct Hin as [Hin|[]]. inversion Hin; subst.
    inversion Hp; subst q. rewrite p_refuses in Hthrow. discriminate.
  - destruct Hin as [Hin|[]]. inversion Hin; subst.
    exfalso. eapply Hnot; eauto.
  - destruct Hin as [Hin|[Hin|[]]]; [|discriminate].
    inversion Hin; subst. exfalso. eapply Hnot; eauto.
  - destruct Hin as [Hin|Hin].
    { inversion Hin; subst. exfalso. eapply Hnot; eauto. }
    apply in_app_or in Hin. destruct Hin as [Hin|[Hin|[]]].
    + apply in_hook_events in Hin. discriminate.
    + discriminate.
  - destruct Hin as [Hin|Hin].
    { inversion Hin; subst. exfalso. eapply Hnot; eauto. }
    apply in_app_or in Hin. destruct Hin as [Hin|[Hin|Hin]].
    + apply in_hook_events in Hin. discriminate.
    + discriminate.
    + destruct (IH k Hin) as [Hc [l0 Hl0]]. split; [exact Hc|].
      exists (inner ++ EvAttempt n (Some e)
                :: hook_events onRetry e n d0 ++ EvSleep d0 None :: l0).
      rewrite Hl0. rewrite <- !app_assoc. simpl. rewrite <- !app_assoc.
      reflexivity.
Qed.

End Refusal.

Lemma callWithRetry_is_retry T (fn : Z -> M World T)
    (retryOptions : RetryOptions World) s :
  callWithRetry fn retryOptions s
  = retry (fun attempt => q <- call (fn attempt) ;; await q)
      {| maxAttempts := maxAttempts retryOptions;
         baseDelay := baseDelay retryOptions;
         maxDelay := maxDelay retryOptions;
         factor := factor retryOptions;
         jitter := jitter retryOptions;
         retryIf := Some (callWithRetry_retryIf retryOptions);
         onRetry := onRetry retryOptions;
         signal := signal retryOptions |} s.
Proof.
  unfold callWithRetry, retry, async, bind.
  match goal with
  | |- context [match ?body with _ => _ end] =>
      match body with
      | _ s => destruct body as [[a|e] s']
      end
  end; reflexivity.
Qed.

Lemma round_through_effective T (fn : Z -> M World T) (options : RetryOptions World)
    n s e s' :
  round_through fn options n s e s' ->
  round (through_breaker fn) (default 3 (maxAttempts options))
    (default (of_Z 1000) (baseDelay options))
    (default (of_Z 30000) (maxDelay options))
    (default (of_Z 2) (factor options))
    (default true (jitter options))
    (Some (callWithRetry_retryIf options)) (onRetry options) (signal options)
    n s e s'.
Proof.
  intros [He [d [s4 [Hr Hs]]]]. exists d, s4. split; [|exact Hs].
  destruct Hr as [Ha [s1 [w2 [s3 [Hfn [Ha1 [Hp Hrest]]]]]]].
  split; [exact Ha|]. exists s1, w2, s3.
  split; [exact Hfn|]. split; [exact Ha1|]. split; [|exact Hrest].
  unfold callWithRetry_retryIf. rewrite He.
  destruct (retryIf options) as [p|]; [exact Hp|]. subst w2. reflexivity.
Qed.

Lemma arrives_through T (fn : Z -> M World T) (options : RetryOptions World)
    s0 n le s :
  1 <= default 3 (maxAttempts options) ->
  arrives (round_through fn options) s0 n le s ->
  1 <= n <= default 3 (maxAttempts options)
  /\ callWithRetry fn options s0
     = async
         (retry_loop (through_breaker fn) (default 3 (maxAttempts options))
            (default (of_Z 1000) (baseDelay options))
            (default (of_Z 30000) (maxDelay options))
            (default (of_Z 2) (factor options))
            (default true (jitter options))
            (Some (callWithRetry_retryIf options)) (onRetry options) (signal options)
            (S (Z.to_nat (default 3 (maxAttempts options) - n))) n le) s.
Proof.
  intros Hmax Harr.
  assert (Harr' :
    arrives
      (round (through_breaker fn) (default 3 (maxAttempts options))
         (default (of_Z 1000) (baseDelay options))
         (default (of_Z 30000) (maxDelay options))
         (default (of_Z 2) (factor options))
         (default true (jitter options))
         (Some (callWithRetry_retryIf options)) (onRetry options) (signal options))
      s0 n le s).
  { induction Harr as [|n le s e s' _ IH Hround].
    - apply arrives_first.
    - eapply arrives_next; [exact IH|]. apply round_through_effective. exact Hround. }
  destruct (arrives_loop Hmax Harr') as [Hn Hloop]. split; [exact Hn|].
  rewrite callWithRetry_is_retry. unfold retry, async. cbn [maxAttempts baseDelay maxDelay factor jitter retryIf onRetry signal].
  destruct (default 3 (maxAttempts options) <? 1) eqn:E.
  { apply Z.ltb_lt in E. lia. }
  unfold through_breaker in *. rewrite Hloop.
  replace (Z.to_nat (default 3 (maxAttempts options) + 1 - n))
    with (S (Z.to_nat (default 3 (maxAttempts options) - n))) by lia.
  reflexivity.
Qed.

(** C5, as amended.  [callWithRetry] never retries an attempt that
    failed with a [CircuitOpenError].  Rounds lead from the call of
    [callWithRetry] to attempt [n], the first or a later one; a round is a
    failure that is not a [CircuitOpenError] and that the [retryIf] of the
    caller allows, or any such failure when the caller gave none.
    - If attempt [n] fails with a [CircuitOpenError], the promise rejects
      with that error itself, and only the attempt is added to the log:
      the caller's [retryIf] is not asked and nothing follows, whatever
      [maxAttempts].
    - So it is when attempt [n] finds the breaker open, its reset timeout
      not elapsed, as after it opened earlier in the sequence: the
      operation is not run and the promise rejects with the
      [CircuitOpenError] of the breaker.
    - If attempt [n] fails with another error and the caller's [retryIf]
      answers [false], the promise rejects with that error.
    - If attempt [n] succeeds, the promise fulfils with its value and
      [attempts = n].
    And in every run of [callWithRetry], an attempt that failed with a
    [CircuitOpenError] is the last thing that happened, and the promise
    rejects with that error, not wrapped in a [RetryError]. *)
Theorem callWithRetry_stops_at_open_circuit T (op : Z -> User World T)
    (options : RetryOptions World) s :
  (1 <= default 3 (maxAttempts options) ->
   (forall n le s1 e s2,
       arrives (round_through (fun k => user (op k)) options) s n le s1 ->
       signal_aborted (signal options) (world s1) = false ->
       through_breaker (fun k => user (op k)) n s1 = (Throw e, s2) ->
       instanceof_CircuitOpenError e = true ->
       callWithRetry (fun k => user (op k)) options s
       = (Normal (Rejected e),
          mkState (world s2) (this s2) (log s2 ++ [EvAttempt n (Some e)])))
   /\ (forall n le s1,
         arrives (round_through (fun k => user (op k)) options) s n le s1 ->
         signal_aborted (signal options) (world s1) = false ->
         state (this s1) = open -> ~ due s1 ->
         callWithRetry (fun k => user (op k)) options s
         = (Normal (Rejected (CircuitOpenError (failures (this s1)))),
            mkState (world s1) (this s1)
              (log s1 ++ [EvAttempt n (Some (CircuitOpenError (failures (this s1))))])))
   /\ (forall n le s1 e s2 p w3,
         arrives (round_through (fun k => user (op k)) options) s n le s1 ->
         signal_aborted (signal options) (world s1) = false ->
         through_breaker (fun k => user (op k)) n s1 = (Throw e, s2) ->
         instanceof_CircuitOpenError e = false ->
         signal_aborted (signal options) (world s2) = false ->
         retryIf options = Some p ->
         p e n (world s2) = (Normal false, w3) ->
         callWithRetry (fun k => user (op k)) options s
         = (Normal (Rejected e),
            mkState w3 (this s2) (log s2 ++ [EvAttempt n (Some e)])))
   /\ (forall n le s1 v s2,
         arrives (round_through (fun k => user (op k)) options) s n le s1 ->
         signal_aborted (signal options) (world s1) = false ->
         through_breaker (fun k => user (op k)) n s1 = (Normal v, s2) ->
         callWithRetry (fun k => user (op k)) options s
         = (Normal (Fulfilled (mkRetryResult v n)),
            mkState (world s2) (this s2) (log s2 ++ [EvAttempt n None]))))
  /\ exists l p s',
       callWithRetry (fun n => user (op n)) options s = (Normal p, s')
       /\ log s' = log s ++ l
       /\ forall n k,
            In (EvAttempt n (Some (CircuitOpenError k))) l ->
            p = Rejected (CircuitOpenError k)
            /\ exists l0, l = l0 ++ [EvAttempt n (Some (CircuitOpenError k))].
Proof.
  split.
  - intros Hmax.
    assert (Hstop : forall n le s1 e s2,
      arrives (round_through (fun k => user (op k)) options) s n le s1 ->
      signal_aborted (signal options) (world s1) = false ->
      through_breaker (fun k => user (op k)) n s1 = (Throw e, s2) ->
      instanceof_CircuitOpenError e = true ->
      callWithRetry (fun k => user (op k)) options s
      = (Normal (Rejected e),
         mkState (world s2) (this s2) (log s2 ++ [EvAttempt n (Some e)]))).
    { intros n le s1 e s2 Harr Ha Hfn He.
      destruct (arrives_through Hmax Harr) as [_ ->]. unfold async.
      destruct (signal_aborted (signal options) (world s2)) eqn:Ha2.
      - erewrite loop_keeps_error; [reflexivity | exact Ha | exact Hfn | exact Ha2].
      - erewrite loop_refused;
          [reflexivity | exact Ha | exact Hfn | exact Ha2 | reflexivity |].
        unfold callWithRetry_retryIf. rewrite He. reflexivity. }
    split; [exact Hstop|]. split; [|split].
    + intros n le s1 Harr Ha Ho Hd.
      apply (Hstop n le s1 _ s1 Harr Ha); [|reflexivity].
      unfold through_breaker, bind.
      rewrite (call_open_rejects (user (op n)) Ho Hd). reflexivity.
    + intros n le s1 e s2 p w3 Harr Ha Hfn He Ha2 Hp Hno.
      destruct (arrives_through Hmax Harr) as [_ ->]. unfold async.
      erewrite loop_refused;
        [reflexivity | exact Ha | exact Hfn | exact Ha2 | reflexivity |].
      unfold callWithRetry_retryIf. rewrite He, Hp. exact Hno.
    + intros n le s1 v s2 Harr Ha Hfn.
      destruct (arrives_through Hmax Harr) as [_ ->]. unfold async.
      erewrite loop_succeeds; [reflexivity | exact Ha | exact Hfn].
  - rewrite callWithRetry_is_retry.
    set (fn := fun attempt : Z => q <- call (user (op attempt)) ;; await q).
    set (options' := mkRetryOptions _ _ _ _ _ _ _ _).
    assert (Hfn : forall n, adds_breaker_events (fn n)).
    { intros n. subst fn. apply abe_bind.
      - apply abe_call. apply abe_user.
      - intros q. apply abe_await. }
    destruct (Z_lt_le_dec (default 3 (maxAttempts options')) 1) as [Hlt|Hge].
    + exists [], (Rejected (RangeError "maxAttempts must be >= 1")), s.
      split; [|split].
      * unfold retry, async. apply Z.ltb_lt in Hlt. rewrite Hlt. reflexivity.
      * symmetry. apply app_nil_r.
      * intros n k [].
    + destruct (retry_run fn options' s) as [l [c [s' [Hr [Hl Hrun]]]]].
      { intros n s0. destruct (Hfn n s0) as [l [Hl _]]. eauto. }
      { exact Hge. }
      exists l, (settled c), s'. split; [exact Hr|]. split; [exact Hl|].
      intros n k Hin. simpl in Hrun.
      assert (Hq : forall n0 c0 inner,
                 yields fn n0 c0 inner ->
                 forall k0 r, ~ In (EvAttempt k0 r) inner).
      { intros n0 c0 inner [s0 [s1 [Hrun0 Hlog0]]] k0 r Hin0.
        destruct (Hfn n0 s0) as [l1 [Hl1 Hb1]]. rewrite Hrun0 in Hl1.
        simpl in Hl1. rewrite Hlog0 in Hl1. apply app_inv_head in Hl1.
        subst l1. rewrite Forall_forall in Hb1. apply (Hb1 _ Hin0). }
      destruct (run_refused_error_is_final
                  (p := callWithRetry_retryIf options)
                  (CircuitOpenError k)
                  (fun n0 w => eq_refl) Hq Hrun n Hin) as [-> Hl0].
      simpl. auto.
Qed.

(** * Further properties of the code *)

(** ** More on the retry loop *)

Section Numbering.

Variable T : Type.
Variable fn : Z -> M World T.
Variables (maxA : Z) (b m f : number) (j : bool).
Variable retryIf : option (Value -> Z -> User World bool).
Variable onRetry : option (Value -> Z -> number -> User World unit).
Variable signal : option (AbortSignal World).

Hypothesis fn_quiet :
  forall n c inner, yields fn n c inner -> attempts_of inner = [].


End Numbering.



Lemma retry_enters_loop T (fn : Z -> M World T) (options : RetryOptions World) s :
  1 <= default 3 (maxAttempts options) ->
  retry fn options s
  = async
      (retry_loop fn (default 3 (maxAttempts options))
         (default (of_Z 1000) (baseDelay options)) (default (of_Z 30000) (maxDelay options))
         (default (of_Z 2) (factor options)) (default true (jitter options))
         (retryIf options) (onRetry options) (signal options)
         (S (Z.to_nat (default 3 (maxAttempts options) - 1))) 1 undefined) s.
Proof.
  intros H. unfold retry, async.
  destruct (default 3 (maxAttempts options) <? 1) eqn:E.
  { apply Z.ltb_lt in E. lia. }
  replace (Z.to_nat (default 3 (maxAttempts options)))
    with (S (Z.to_nat (default 3 (maxAttempts options) - 1))) by lia.
  reflexivity.
Qed.

(** X4.  When the first call of the operation succeeds, [retry] fulfils
    with its value and [attempts = 1], and that call is all that
    happened: no hook, no sleep, no second call. *)
Theorem retry_succeeds_at_once T (op : Z -> User World T)
    (options : RetryOptions World) s (v : T) w' :
  1 <= default 3 (maxAttempts options) ->
  signal_aborted (signal options) (world s) = false ->
  op 1 (world s) = (Normal v, w') ->
  retry (fun n => user (op n)) options s
  = (Normal (Fulfilled (mkRetryResult v 1)),
     mkState w' (this s) (log s ++ [EvAttempt 1 None])).
Proof.
  intros Hmax Hclear Hop. rewrite (retry_enters_loop _ _ _ Hmax).
  unfold async. simpl retry_loop. unfold try_catch. unfold bind at 1.
  rewrite throw_if_aborted_clear by exact Hclear.
  unfold bind at 1. unfold logged, user. rewrite Hop. reflexivity.
Qed.

Section OneIteration.

Variable T : Type.
Variable op : Z -> User World T.
Variables (maxA : Z) (b m f : number) (j : bool).
Variable retryIf : option (Value -> Z -> User World bool).
Variable onRetry : option (Value -> Z -> number -> User World unit).
Variable sg : AbortSignal World.

Local Abbreviation loop :=
  (retry_loop (fun n => user (op n)) maxA b m f j retryIf onRetry (Some sg)).

Lemma loop_cancelled_before rem n le s :
  aborted sg (world s) = true ->
  loop (S rem) n le s = (Throw (abort_reason sg (world s)), s).
Proof.
  intros Ha. simpl retry_loop. unfold try_catch. unfold bind at 1.
  unfold throw_if_aborted, bind, read, throw. simpl. rewrite Ha. simpl.
  rewrite Ha. reflexivity.
Qed.

Lemma loop_cancelled_meanwhile rem n le s e w1 :
  aborted sg (world s) = false ->
  op n (world s) = (Throw e, w1) ->
  aborted sg w1 = true ->
  loop (S rem) n le s
  = (Throw e, mkState w1 (this s) (log s ++ [EvAttempt n (Some e)])).
Proof.
  intros Ha Hop Ha1. simpl retry_loop.
  unfold try_catch, throw_if_aborted, bind, read, ret, throw, logged, user.
  simpl. rewrite Ha. simpl. rewrite Hop. simpl. rewrite Ha1. reflexivity.
Qed.

End OneIteration.

(** X6.  When the signal is already aborted as an attempt is about to
    be made, the first one or a later one, the loop stops there with the
    reason of the signal ([signal.reason], or an [AbortError]) and
    nothing else happens: the operation is not called.  So [retry] with a
    signal that is aborted from the start rejects with that reason and
    changes nothing. *)
Theorem aborted_signal_stops_before_the_attempt T (op : Z -> User World T)
    (options : RetryOptions World) (sg : AbortSignal World) s :
  signal options = Some sg ->
  aborted sg (world s) = true ->
  (forall maxA b m f j retryIf onRetry rem n le,
      retry_loop (fun k => user (op k)) maxA b m f j retryIf onRetry (Some sg)
        (S rem) n le s
      = (Throw (abort_reason sg (world s)), s))
  /\ (1 <= default 3 (maxAttempts options) ->
      retry (fun n => user (op n)) options s
      = (Normal (Rejected (abort_reason sg (world s))), s)).
Proof.
  intros Hsg Ha. split.
  - intros. apply loop_cancelled_before. exact Ha.
  - intros Hmax. rewrite (retry_enters_loop _ _ _ Hmax). unfold async.
    rewrite Hsg, loop_cancelled_before by exact Ha. reflexivity.
Qed.

(** X7.  When an attempt fails and the signal is found aborted right
    after, having become so while the operation ran, the loop stops with
    the error of the operation itself, not the reason of the signal and
    not a [RetryError]; [retryIf] and [onRetry] are not consulted and
    there is no sleep, whatever attempts remain. *)
Theorem error_is_kept_when_aborted_meanwhile T (op : Z -> User World T)
    (options : RetryOptions World) (sg : AbortSignal World) s e w1 :
  signal options = Some sg ->
  aborted sg (world s) = false ->
  (forall maxA b m f j retryIf onRetry rem n le,
      op n (world s) = (Throw e, w1) ->
      aborted sg w1 = true ->
      retry_loop (fun k => user (op k)) maxA b m f j retryIf onRetry (Some sg)
        (S rem) n le s
      = (Throw e, mkState w1 (this s) (log s ++ [EvAttempt n (Some e)])))
  /\ (1 <= default 3 (maxAttempts options) ->
      op 1 (world s) = (Throw e, w1) ->
      aborted sg w1 = true ->
      retry (fun n => user (op n)) options s
      = (Normal (Rejected e),
         mkState w1 (this s) (log s ++ [EvAttempt 1 (Some e)]))).
Proof.
  intros Hsg Ha. split.
  - intros. apply loop_cancelled_meanwhile; assumption.
  - intros Hmax Hop Ha1. rewrite (retry_enters_loop _ _ _ Hmax). unfold async.
    rewrite Hsg.
    erewrite loop_cancelled_meanwhile; [reflexivity | exact Ha | exact Hop | exact Ha1].
Qed.

Section Refused.

Variable T : Type.
Variable fn : Z -> M World T.
Variables (maxA : Z) (b m f : number) (j : bool).
Variable p : Value -> Z -> User World bool.
Variable onRetry : option (Value -> Z -> number -> User World unit).
Variable signal : option (AbortSignal World).

Variable e0 : Value.
Hypothesis p_says_no : forall n w, exists w', p e0 n w = (Normal false, w').

Hypothesis fn_quiet :
  forall n c inner, yields fn n c inner -> forall k r, ~ In (EvAttempt k r) inner.


End Refused.


(** *** The delays of the sleeps *)

Section Sleeps.

Variable T : Type.
Variable fn : Z -> M World T.
Variables (maxA : Z) (b m f : number) (j : bool).
Variable retryIf : option (Value -> Z -> User World bool).
Variable onRetry : option (Value -> Z -> number -> User World unit).
Variable signal : option (AbortSignal World).

Hypothesis fn_quiet :
  forall n c inner, yields fn n c inner -> forall d r, ~ In (EvSleep d r) inner.



End Sleeps.






(** ** More on the breaker *)

Lemma CircuitState_eqb_refl (a : CircuitState) : CircuitState_eqb a a = true.
Proof. destruct a; reflexivity. Qed.

Lemma replay_app table st l1 l2 :
  replay table st (l1 ++ l2)
  = match replay table st l1 with
    | Some st' => replay table st' l2
    | None => None
    end.
Proof.
  revert st. induction l1 as [|ev l1 IH]; intros st; [reflexivity|].
  destruct ev; simpl; try apply IH.
  destruct (CircuitState_eqb from st && table from to); [apply IH|reflexivity].
Qed.

Lemma tracks_ret table A (a : A) : tracks (World := World) table (ret a).
Proof. intros s. exists []. simpl. rewrite app_nil_r. auto. Qed.

Lemma tracks_throw table A e : tracks (World := World) (A := A) table (throw e).
Proof. intros s. exists []. simpl. rewrite app_nil_r. auto. Qed.

Lemma tracks_get_this table : tracks (World := World) table get_this.
Proof. intros s. exists []. simpl. rewrite app_nil_r. auto. Qed.

Lemma tracks_bind table A B (c : M World A) (k : A -> M World B) :
  tracks table c -> (forall a, tracks table (k a)) -> tracks table (bind c k).
Proof.
  intros Hc Hk s. unfold bind. destruct (Hc s) as [l1 [Hl1 Hr1]].
  destruct (c s) as [[a|e] s1]; simpl in Hl1, Hr1.
  - destruct (Hk a s1) as [l2 [Hl2 Hr2]]. exists (l1 ++ l2).
    rewrite Hl2, Hl1, app_assoc. split; [reflexivity|].
    rewrite replay_app, Hr1. exact Hr2.
  - exists l1. auto.
Qed.

Lemma tracks_try_catch table A (c : M World A) (handler : Value -> M World A) :
  tracks table c -> (forall e, tracks table (handler e)) ->
  tracks table (try_catch c handler).
Proof.
  intros Hc Hk s. unfold try_catch. destruct (Hc s) as [l1 [Hl1 Hr1]].
  destruct (c s) as [[a|e] s1]; simpl in Hl1, Hr1.
  - exists l1. auto.
  - destruct (Hk e s1) as [l2 [Hl2 Hr2]]. exists (l1 ++ l2).
    rewrite Hl2, Hl1, app_assoc. split; [reflexivity|].
    rewrite replay_app, Hr1. exact Hr2.
Qed.

Lemma tracks_async table A (c : M World A) : tracks table c -> tracks table (async c).
Proof.
  intros Hc s. unfold async. destruct (Hc s) as [l [Hl Hr]].
  destruct (c s) as [[a|e] s1]; exists l; auto.
Qed.

Lemma tracks_logged_user table A (u : User World A) :
  tracks table (logged EvOperation (user u)).
Proof.
  intros s. unfold logged, user. destruct (u (world s)) as [[a|e] w']; simpl;
    eexists; split; reflexivity.
Qed.

Lemma transition_tracks table to s :
  CircuitState_eqb (state (this s)) to = true \/ table (state (this s)) to = true ->
  exists l,
    log (snd (transition to s)) = log s ++ l
    /\ replay table (state (this s)) l = Some (state (this (snd (transition to s)))).
Proof.
  intros H. rewrite transition_log, transition_this. simpl.
  destruct (CircuitState_eqb (state (this s)) to) eqn:E.
  - exists []. split; [reflexivity|]. simpl. apply CircuitState_eqb_eq in E.
    congruence.
  - destruct H as [H|H]; [discriminate|].
    eexists. split; [reflexivity|]. simpl.
    rewrite CircuitState_eqb_refl, H. reflexivity.
Qed.

Lemma tracks_checkHalfOpen : tracks (World := World) legal checkHalfOpen.
Proof.
  intros s. destruct (due_dec s) as [Hd|Hd].
  - rewrite (checkHalfOpen_due_log Hd). eexists. split; [reflexivity|].
    destruct Hd as [Ho Hd]. rewrite Ho. simpl.
    destruct (checkHalfOpen_due (conj Ho Hd)) as [-> | ->]; reflexivity.
  - rewrite (checkHalfOpen_not_due Hd). exists []. simpl.
    rewrite app_nil_r. auto.
Qed.

Lemma tracks_onSuccess : tracks (World := World) legal onSuccess.
Proof.
  intros s. unfold onSuccess, bind, get_this, assign, ret. simpl.
  destruct (CircuitState_eqb (state (this s)) half_open) eqn:E; simpl.
  - apply CircuitState_eqb_eq in E.
    destruct (successes (this s) + 1 >=? halfOpenSuccesses (this s)); simpl.
    + set (s1 := mkState (world s) (with_successes (successes (this s) + 1) (this s))
                   (log s)).
      destruct (transition_tracks legal closed s1) as [l [Hl Hr]].
      { right. simpl. rewrite E. reflexivity. }
      exists l. simpl in Hl, Hr.
      destruct (transition closed s1) as [[[]|e] s2]; simpl in *; auto.
    + exists []. rewrite app_nil_r. auto.
  - exists []. rewrite app_nil_r. auto.
Qed.

Lemma tracks_onFailure : tracks (World := World) legal onFailure.
Proof.
  intros s. unfold onFailure, bind, get_this, assign, read, ret. simpl.
  set (s1 := mkState (world s)
               (with_lastFailureTime (Date_now (world s))
                  (with_failures (failures (this s) + 1) (this s))) (log s)).
  assert (Ht : exists l,
             log (snd (transition open s1)) = log s ++ l
             /\ replay legal (state (this s)) l
                = Some (state (this (snd (transition open s1))))).
  { apply (transition_tracks legal open s1). simpl.
    destruct (state (this s)); auto. }
  destruct (CircuitState_eqb (state (this s)) half_open); simpl.
  - exact Ht.
  - destruct (failures (this s) + 1 >=? failureThreshold (this s)); simpl.
    + exact Ht.
    + exists []. rewrite app_nil_r. auto.
Qed.

Lemma tracks_call T (op : User World T) : tracks legal (call (user op)).
Proof.
  unfold call. apply tracks_async.
  apply tracks_bind; [apply tracks_checkHalfOpen|]. intros _.
  apply tracks_bind; [apply tracks_get_this|].
  intros b0. destruct (CircuitState_eqb (state b0) open).
  - apply tracks_throw.
  - apply tracks_try_catch.
    + apply tracks_bind; [apply tracks_logged_user|]. intros r.
      apply tracks_bind; [apply tracks_onSuccess|]. intros _. apply tracks_ret.
    + intros e. apply tracks_bind; [apply tracks_onFailure|]. intros _.
      apply tracks_throw.
Qed.


Lemma hook_total_same (b b' : CircuitBreaker World) :
  onStateChange b' = onStateChange b -> hook_total b -> hook_total b'.
Proof. unfold hook_total. intros ->. auto. Qed.

Lemma call_failure_total T (op : User World T) s e w' :
  state (this s) <> open -> hook_total (this s) ->
  op (world s) = (Throw e, w') ->
  exists w'' l,
    call (user op) s
    = (Normal (Rejected e),
       mkState w'' (after_failure (Date_now w') (this s))
         (log s ++ EvOperation (Some e) :: l)).
Proof.
  intros Hs Hh Hop.
  assert (Hd : ~ due s) by (intros [Ho _]; contradiction).
  unfold call, async, bind. rewrite (checkHalfOpen_not_due Hd).
  unfold get_this. simpl.
  destruct (CircuitState_eqb (state (this s)) open) eqn:E.
  { apply CircuitState_eqb_eq in E. contradiction. }
  unfold try_catch, bind, logged, user. rewrite Hop. simpl.
  set (s1 := mkState w' (this s) (log s ++ [EvOperation (Some e)])).
  unfold onFailure, after_failure, bind, get_this, assign, read, ret, throw.
  simpl.
  set (s2 := mkState w'
               (with_lastFailureTime (Date_now w')
                  (with_failures (failures (this s) + 1) (this s)))
               (log s ++ [EvOperation (Some e)])).
  assert (Ht : exists w'' l,
             transition open s2
             = (Normal tt,
                mkState w'' (with_state open (this s2))
                  (log s ++ EvOperation (Some e) :: l))).
  { destruct (transition_total open s2) as [w'' Hw]; [exact Hh|].
    rewrite Hw. simpl. rewrite <- app_assoc. simpl. eauto. }
  destruct (CircuitState_eqb (state (this s)) half_open); simpl.
  - destruct Ht as [w'' [l Ht]]. rewrite Ht. simpl. eauto.
  - destruct (failures (this s) + 1 >=? failureThreshold (this s)); simpl.
    + destruct Ht as [w'' [l Ht]]. rewrite Ht. simpl. eauto.
    + exists w', []. reflexivity.
Qed.

(** X11.  [reset], with a hook that does not throw, leaves the breaker
    closed with both counters at 0, whatever its state was; the time of
    the last failure and the configuration stay; the change of state is
    recorded, once, exactly when the breaker was not closed already.  The
    next call then runs its operation. *)
Theorem reset_closes_unconditionally s :
  hook_total (this s) ->
  exists w',
    reset s
    = (Normal tt,
       mkState w'
         (with_successes 0 (with_failures 0 (with_state closed (this s))))
         (log s ++ (if CircuitState_eqb (state (this s)) closed then []
                    else [EvStateChange (state (this s)) closed])))
    /\ forall T (op : User World T), exists r l,
         log (snd (call (user op) (snd (reset s))))
         = log (snd (reset s)) ++ EvOperation r :: l.
Proof.
  intros Hh. unfold reset at 1. unfold bind, assign.
  destruct (transition_total closed s Hh) as [w' Hw].
  exists w'. split.
  - rewrite Hw. reflexivity.
  - intros T op. unfold reset, bind, assign. rewrite Hw. simpl.
    set (s1 := mkState _ _ _).
    assert (Hn : state (this s1) <> open) by discriminate.
    destruct (op (world s1)) as [[a|e] w1] eqn:Hop.
    + destruct (call_success op s1 Hn Hh Hop) as [w2 [l Hl]]. rewrite Hl.
      simpl. eauto.
    + destruct (call_failure op s1 Hn Hop) as [_ [l Hl]]. rewrite Hl. eauto.
Qed.

(** X13.  On a closed breaker a call whose operation succeeds fulfils
    with the value of the operation and sets the failure count back to 0;
    nothing else changes, no hook is involved, and the only record is
    that of the operation. *)
Theorem success_when_closed_clears_failures T (op : User World T) s (a : T) w' :
  state (this s) = closed ->
  op (world s) = (Normal a, w') ->
  call (user op) s
  = (Normal (Fulfilled a),
     mkState w' (with_failures 0 (this s)) (log s ++ [EvOperation None])).
Proof.
  intros Hc Hop.
  assert (Hd : ~ due s) by (intros [Ho _]; congruence).
  unfold call, async, bind. rewrite (checkHalfOpen_not_due Hd).
  unfold get_this. simpl. rewrite Hc. simpl.
  unfold try_catch, bind, logged, user. rewrite Hop. simpl.
  unfold onSuccess, bind, get_this, assign, ret. simpl. rewrite Hc. reflexivity.
Qed.

(** X15.  With a hook that does not throw, a call that the breaker lets
    through settles as its operation does: fulfilled with the value, or
    rejected with the error of the operation itself.  The breaker lets
    the call through when it is not open, and when it is open with the
    reset timeout elapsed. *)
Theorem call_settles_as_its_operation T (op : User World T) s :
  hook_total (this s) ->
  (state (this s) <> open ->
   fst (call (user op) s) = Normal (settled (fst (op (world s)))))
  /\ (due s ->
      exists w1,
        fst (checkHalfOpen s) = Normal tt
        /\ world (snd (checkHalfOpen s)) = w1
        /\ fst (call (user op) s) = Normal (settled (fst (op w1)))).
Proof.
  intros Hh.
  assert (Hpass : forall s0, hook_total (this s0) -> state (this s0) <> open ->
            fst (call (user op) s0) = Normal (settled (fst (op (world s0))))).
  { intros s0 Hh0 Hn. destruct (op (world s0)) as [[a|e] w'] eqn:Hop.
    - destruct (call_success op s0 Hn Hh0 Hop) as [w'' [l Hl]]. rewrite Hl.
      reflexivity.
    - destruct (call_failure_total op s0 Hn Hh0 Hop) as [w'' [l Hl]].
      rewrite Hl. reflexivity. }
  split; [apply Hpass; exact Hh|].
  intros Hd. destruct (checkHalfOpen_due_returns Hd Hh) as [w1 Hw].
  exists w1. rewrite Hw. split; [reflexivity|]. split; [reflexivity|].
  destruct (call_due (user op) Hd Hh) as [w1' Hc].
  unfold call at 1 in Hc. unfold async, bind in Hc. rewrite Hw in Hc.
  unfold call at 1. unfold async, bind. rewrite Hw.
  set (s1 := mkState w1 _ _) in *.
  assert (Hn : ~ due s1) by (intros [Ho _]; discriminate).
  pose proof (Hpass s1 Hh ltac:(discriminate)) as H1.
  unfold call, async, bind in H1. rewrite (checkHalfOpen_not_due Hn) in H1.
  exact H1.
Qed.

(** X16.  A failed probe reopens the breaker: on a half-open breaker a
    call whose operation fails leaves it open, with one more failure
    counted and the time of this failure as the time of the last one, so
    that the reset timeout runs anew; with a hook that does not throw the
    call rejects with the error of the operation. *)
Theorem failed_probe_reopens T (op : User World T) s e w' :
  state (this s) = half_open ->
  op (world s) = (Throw e, w') ->
  let s' := snd (call (user op) s) in
  state (this s') = open
  /\ failures (this s') = failures (this s) + 1
  /\ lastFailureTime (this s') = Date_now w'
  /\ (hook_total (this s) -> fst (call (user op) s) = Normal (Rejected e)).
Proof.
  intros Hs Hop s'. subst s'.
  assert (Hn : state (this s) <> open) by (rewrite Hs; discriminate).
  destruct (call_failure op s Hn Hop) as [Ht _]. rewrite Ht.
  unfold after_failure. rewrite Hs. simpl.
  repeat split. intros Hh.
  destruct (call_failure_total op s Hn Hh Hop) as [w'' [l Hl]]. rewrite Hl.
  reflexivity.
Qed.

(** X17.  The lazy check fires at most once: right after a [getState],
    a second [getState] changes nothing and answers the state the breaker
    is in. *)
Theorem getState_twice s :
  let s1 := snd (getState s) in
  getState s1 = (Normal (state (this s1)), s1).
Proof.
  intros s1.
  assert (Hn : ~ due s1).
  { subst s1. unfold getState, bind. destruct (due_dec s) as [Hd|Hd].
    - pose proof (checkHalfOpen_due Hd) as Hb. simpl in Hb.
      destruct (checkHalfOpen s) as [[[]|e] s2]; simpl in *;
        intros [Ho _]; destruct Hb as [Hb|Hb]; rewrite Hb in Ho; discriminate.
    - rewrite (checkHalfOpen_not_due Hd). exact Hd. }
  unfold getState, bind. rewrite (checkHalfOpen_not_due Hn). reflexivity.
Qed.

(** *** The invariant of the counters *)

Lemma consistent_after_success (b : CircuitBreaker World) :
  well_configured b -> consistent b ->
  consistent (after_success b) /\ same_configuration b (after_success b).
Proof.
  intros [Ht Hs] [Hf [Hsu [Hc Hh]]]. unfold after_success, consistent, same_configuration.
  destruct (CircuitState_eqb (state b) half_open) eqn:E; simpl.
  - apply CircuitState_eqb_eq in E.
    destruct (successes b + 1 >=? halfOpenSuccesses b) eqn:G; simpl.
    + repeat split; try lia; try reflexivity; try (intros; discriminate).
    + rewrite Z.geb_leb in G. apply Z.leb_gt in G.
      rewrite E. repeat split; try lia; try reflexivity; try (intros; discriminate).
  - repeat split; try lia; try reflexivity.
    intros Hst. rewrite Hst in E. discriminate.
Qed.

Lemma consistent_after_failure now (b : CircuitBreaker World) :
  consistent b ->
  consistent (after_failure now b) /\ same_configuration b (after_failure now b).
Proof.
  intros [Hf [Hsu [Hc Hh]]]. unfold after_failure, consistent, same_configuration.
  destruct (CircuitState_eqb (state b) half_open) eqn:E; simpl.
  - repeat split; try lia; try reflexivity; try (intros; discriminate).
  - destruct (failures b + 1 >=? failureThreshold b) eqn:G; simpl.
    + repeat split; try lia; try reflexivity; try (intros; discriminate).
    + rewrite Z.geb_leb in G. apply Z.leb_gt in G.
      repeat split; try lia; try reflexivity.
      intros Hst. rewrite Hst in E. discriminate.
Qed.

Lemma consistent_on_entry (b : CircuitBreaker World) :
  well_configured b -> consistent b ->
  consistent (with_successes 0 (with_state half_open b))
  /\ same_configuration b (with_successes 0 (with_state half_open b)).
Proof.
  intros [Ht Hs] [Hf [Hsu [Hc Hh]]]. unfold consistent, same_configuration. simpl.
  repeat split; try lia; try reflexivity; try (intros; discriminate).
Qed.

Lemma same_configuration_trans (b1 b2 b3 : CircuitBreaker World) :
  same_configuration b1 b2 -> same_configuration b2 b3 -> same_configuration b1 b3.
Proof.
  unfold same_configuration. intros [A1 [A2 [A3 A4]]] [B1 [B2 [B3 B4]]].
  repeat split; congruence.
Qed.

Lemma same_configuration_refl (b : CircuitBreaker World) : same_configuration b b.
Proof. unfold same_configuration. auto. Qed.

Lemma call_keeps_consistent T (op : User World T) s :
  state (this s) <> open ->
  well_configured (this s) -> consistent (this s) -> hook_total (this s) ->
  consistent (this (snd (call (user op) s)))
  /\ same_configuration (this s) (this (snd (call (user op) s))).
Proof.
  intros Hn Hw Hc Hh. destruct (op (world s)) as [[a|e] w'] eqn:Hop.
  - destruct (call_success op s Hn Hh Hop) as [w'' [l Hl]]. rewrite Hl. simpl.
    apply consistent_after_success; assumption.
  - destruct (call_failure op s Hn Hop) as [Ht _]. rewrite Ht.
    apply consistent_after_failure; assumption.
Qed.

(** X12.  The counters fit the state, and keep doing so.  A new breaker
    with positive thresholds is closed with a failure count below its
    threshold.  From a breaker whose counters fit its state, with
    positive thresholds and a hook that does not throw, [getState],
    [reset] and [call] lead to one whose counters are not negative, which
    is below its failure threshold if closed and below its success
    threshold if half-open; and they never change the configuration. *)
Theorem breaker_stays_consistent :
  (forall options : CircuitBreakerOptions World,
      1 <= default 5 (opt_failureThreshold options) ->
      1 <= default 1 (opt_halfOpenSuccesses options) ->
      well_configured (new_CircuitBreaker options)
      /\ consistent (new_CircuitBreaker options)
      /\ state (new_CircuitBreaker options) = closed)
  /\ forall s,
       well_configured (this s) -> consistent (this s) -> hook_total (this s) ->
       (consistent (this (snd (getState s)))
        /\ same_configuration (this s) (this (snd (getState s))))
       /\ (consistent (this (snd (reset s)))
           /\ same_configuration (this s) (this (snd (reset s))))
       /\ forall T (op : User World T),
            consistent (this (snd (call (user op) s)))
            /\ same_configuration (this s) (this (snd (call (user op) s))).
Proof.
  split.
  - intros options H1 H2. unfold well_configured, consistent. simpl.
    repeat split; try lia; try (intros; discriminate).
  - intros s Hw Hc Hh.
    assert (Hentry : forall s1 w1,
              s1 = mkState w1 (with_successes 0 (with_state half_open (this s)))
                     (log s ++ [EvStateChange open half_open]) ->
              well_configured (this s1) /\ consistent (this s1)
              /\ hook_total (this s1) /\ same_configuration (this s) (this s1)).
    { intros s1 w1 ->. simpl.
      destruct (consistent_on_entry Hw Hc) as [Hc1 Hs1].
      split; [exact Hw|]. split; [exact Hc1|]. split; [exact Hh | exact Hs1]. }
    split; [|split].
    + unfold getState, bind. destruct (due_dec s) as [Hd|Hd].
      * destruct (checkHalfOpen_due_returns Hd Hh) as [w1 Hw1]. rewrite Hw1.
        simpl. apply consistent_on_entry; assumption.
      * rewrite (checkHalfOpen_not_due Hd). simpl.
        split; [exact Hc | apply same_configuration_refl].
    + destruct (reset_total s Hh) as [w' [l Hl]]. rewrite Hl. simpl.
      destruct Hw as [Ht Hs]. destruct Hc as [Hf [Hsu _]].
      unfold consistent, same_configuration. simpl.
      repeat split; try lia; try reflexivity; try (intros; discriminate).
    + intros T op. destruct (due_dec s) as [Hd|Hd].
      * destruct (call_due (user op) Hd Hh) as [w1 Hcall]. simpl in Hcall.
        rewrite Hcall.
        destruct (Hentry _ w1 eq_refl) as [Hw1 [Hc1 [Hh1 Hs1]]].
        destruct (call_keeps_consistent op
                    (mkState w1 (with_successes 0 (with_state half_open (this s)))
                       (log s ++ [EvStateChange open half_open]))
                    ltac:(discriminate) Hw1 Hc1 Hh1)
          as [Hc2 Hs2].
        split; [exact Hc2|]. exact (same_configuration_trans Hs1 Hs2).
      * destruct (CircuitState_eqb (state (this s)) open) eqn:E.
        -- apply CircuitState_eqb_eq in E.
           rewrite (call_open_rejects (user op) E Hd). simpl.
           split; [exact Hc | apply same_configuration_refl].
        -- apply call_keeps_consistent; try assumption.
           intros Ho. rewrite Ho in E. discriminate.
Qed.

(** *** Probes *)

Lemma consecutive_successes T (ops : list (User World T)) :
  Forall returns ops ->
  forall s,
    state (this s) = half_open ->
    hook_total (this s) ->
    successes (this s) < halfOpenSuccesses (this s) ->
    successes (this s) + Z.of_nat (List.length ops) <= halfOpenSuccesses (this s) ->
    let s' := snd (calls_ignoring_errors (map user ops) s) in
    if successes (this s) + Z.of_nat (List.length ops) >=? halfOpenSuccesses (this s)
    then state (this s') = closed /\ failures (this s') = 0 /\ successes (this s') = 0
    else state (this s') = half_open
         /\ successes (this s') = successes (this s) + Z.of_nat (List.length ops)
         /\ failures (this s') = failures (this s).
Proof.
  induction 1 as [|op ops Hop Hops IH]; intros s Hs Hh Hlt Hlen.
  - simpl. rewrite Z.add_0_r.
    rewrite Z.geb_leb, (proj2 (Z.leb_gt _ _)) by lia. auto.
  - simpl map. simpl calls_ignoring_errors. unfold bind at 1.
    destruct (Hop (world s)) as [a [w' Hrun]].
    assert (Hno : state (this s) <> open) by (rewrite Hs; discriminate).
    destruct (call_success op s Hno Hh Hrun) as [w'' [l Hcall]].
    assert (Has : after_success (this s)
                  = if successes (this s) + 1 >=? halfOpenSuccesses (this s)
                    then with_successes 0
                           (with_failures 0
                              (with_state closed
                                 (with_successes (successes (this s) + 1) (this s))))
                    else with_successes (successes (this s) + 1) (this s)).
    { unfold after_success. rewrite Hs. reflexivity. }
    rewrite Has in Hcall. rewrite Hcall. clear Hcall Has.
    change (List.length (op :: ops)) with (S (List.length ops)) in *.
    rewrite Nat2Z.inj_succ in *.
    destruct (successes (this s) + 1 >=? halfOpenSuccesses (this s)) eqn:G.
    + apply Z.geb_le in G.
      destruct ops as [|op' ops'];
        [|simpl List.length in Hlen; rewrite Nat2Z.inj_succ in Hlen; lia].
      simpl. unfold ret. simpl.
      rewrite (proj2 (Z.geb_le _ _)) by lia. auto.
    + assert (G' : successes (this s) + 1 < halfOpenSuccesses (this s)).
      { rewrite Z.geb_leb in G. apply Z.leb_gt in G. exact G. }
      pose proof (IH (mkState w'' (with_successes (successes (this s) + 1) (this s))
                        (log s ++ EvOperation None :: l))) as IH1.
      simpl in IH1.
      replace (successes (this s) + Z.succ (Z.of_nat (List.length ops)))
        with (successes (this s) + 1 + Z.of_nat (List.length ops)) by lia.
      apply IH1; try assumption; lia.
Qed.

(** X14.  On a half-open breaker with a hook that does not throw,
    successful probes leave it half-open, counting them and keeping the
    failure count, as long as the count of successes is below
    [halfOpenSuccesses]; the probe that brings the count to that
    threshold closes the breaker and sets both counters to 0. *)
Theorem probes_close_the_breaker T (ops : list (User World T)) s :
  state (this s) = half_open ->
  hook_total (this s) ->
  successes (this s) < halfOpenSuccesses (this s) ->
  Forall returns ops ->
  let s' := snd (calls_ignoring_errors (map user ops) s) in
  (successes (this s) + Z.of_nat (List.length ops) < halfOpenSuccesses (this s) ->
   state (this s') = half_open
   /\ successes (this s') = successes (this s) + Z.of_nat (List.length ops)
   /\ failures (this s') = failures (this s))
  /\ (successes (this s) + Z.of_nat (List.length ops) = halfOpenSuccesses (this s) ->
      state (this s') = closed
      /\ failures (this s') = 0
      /\ successes (this s') = 0).
Proof.
  intros Hs Hh Hlt Hops. split; intros Hlen.
  - pose proof (consecutive_successes Hops s Hs Hh Hlt ltac:(lia)) as H.
    simpl in H. rewrite Z.geb_leb, (proj2 (Z.leb_gt _ _)) in H by lia. exact H.
  - pose proof (consecutive_successes Hops s Hs Hh Hlt ltac:(lia)) as H.
    simpl in H. rewrite (proj2 (Z.geb_le _ _)) in H by lia. exact H.
Qed.

(** ** The breaker under [callWithRetry] *)

(** X18.  [callWithRetry] on an open breaker whose reset timeout has not
    elapsed fails fast: there is one attempt, which the breaker refuses
    without running the operation, and no retry, hook or sleep follows,
    whatever [maxAttempts] and the caller's [retryIf]; the promise rejects
    with the [CircuitOpenError] itself, and the breaker and the
    environment are as before. *)
Theorem callWithRetry_fails_fast_when_open T (fn : Z -> M World T)
    (options : RetryOptions World) s :
  state (this s) = open -> ~ due s ->
  1 <= default 3 (maxAttempts options) ->
  signal_aborted (signal options) (world s) = false ->
  callWithRetry fn options s
  = (Normal (Rejected (CircuitOpenError (failures (this s)))),
     mkState (world s) (this s)
       (log s ++ [EvAttempt 1 (Some (CircuitOpenError (failures (this s))))])).
Proof.
  intros Ho Hd Hmax Hsig.
  rewrite callWithRetry_is_retry, retry_enters_loop by exact Hmax.
  unfold async. simpl retry_loop. unfold try_catch, bind at 1.
  rewrite (throw_if_aborted_clear _ s) by exact Hsig.
  unfold bind at 1. unfold logged. unfold bind at 1.
  rewrite (call_open_rejects (fn 1) Ho Hd).
  unfold await, throw, bind, read, user, callWithRetry_retryIf. simpl.
  rewrite Hsig. reflexivity.
Qed.

Lemma tracks_quiet table A (c : M World A) :
  (forall s, log (snd (c s)) = log s
             /\ state (this (snd (c s))) = state (this s)) ->
  tracks table c.
Proof.
  intros H s. destruct (H s) as [Hl Hs]. exists [].
  rewrite app_nil_r, Hl, Hs. auto.
Qed.

Lemma tracks_user table A (u : User World A) : tracks table (user u).
Proof.
  apply tracks_quiet. intros s. unfold user.
  destruct (u (world s)) as [r w]. auto.
Qed.

Lemma tracks_read table A (f : World -> A) : tracks table (read f).
Proof. apply tracks_quiet. intros s. auto. Qed.

Lemma tracks_await table A (p : Promise A) : tracks (World := World) table (await p).
Proof. destruct p; [apply tracks_ret | apply tracks_throw]. Qed.

Lemma tracks_throw_if_aborted table (signal : option (AbortSignal World)) :
  tracks table (throw_if_aborted signal).
Proof.
  apply tracks_quiet. intros s.
  destruct (throw_if_aborted_cases signal s) as [[_ ->] | [sg [_ [_ ->]]]]; auto.
Qed.

Lemma tracks_computeDelay table n b m f j : tracks table (computeDelay n b m f j).
Proof.
  apply tracks_quiet. intros s. unfold computeDelay, bind, random, ret.
  destruct j; simpl; [|auto].
  destruct (Math_random (world s)) as [r w]. auto.
Qed.

Lemma tracks_sleep table d (signal : option (AbortSignal World)) :
  tracks table (sleep d signal).
Proof.
  apply tracks_quiet. intros s. unfold sleep.
  destruct signal as [sg|]; [|auto].
  destruct (aborted sg (world s)); [auto|].
  destruct (abort_dispatched sg d (world s)); auto.
Qed.

Lemma tracks_logged table A (ev : option Value -> Event) (c : M World A) :
  (forall r st, replay table st [ev r] = Some st) ->
  tracks table c -> tracks table (logged ev c).
Proof.
  intros Hev Hc s. unfold logged. destruct (Hc s) as [l [Hl Hr]].
  destruct (c s) as [[a|e] s1]; simpl in *;
    eexists; rewrite Hl, <- app_assoc; (split; [reflexivity|]);
    rewrite replay_app, Hr; apply Hev.
Qed.

Lemma tracks_retry_loop table T (fn : Z -> M World T) maxA b m f j retryIf onRetry
    signal :
  (forall n, tracks table (fn n)) ->
  forall rem n le,
    tracks table (retry_loop fn maxA b m f j retryIf onRetry signal rem n le).
Proof.
  intros Hfn. induction rem as [|rem IH]; intros n le; simpl.
  - apply tracks_throw.
  - apply tracks_try_catch.
    + apply tracks_bind; [apply tracks_throw_if_aborted|]. intros _.
      apply tracks_bind; [|intros a; apply tracks_ret].
      apply tracks_logged; [reflexivity | apply Hfn].
    + intros e. apply tracks_bind; [apply tracks_read|]. intros [|].
      * apply tracks_throw.
      * apply tracks_bind.
        { destruct retryIf; [apply tracks_user | apply tracks_ret]. }
        intros [|]; simpl; [|apply tracks_throw].
        destruct (n =? maxA); [apply tracks_throw|].
        apply tracks_bind; [apply tracks_computeDelay|]. intros d.
        apply tracks_bind.
        { destruct onRetry as [h|]; [|apply tracks_ret].
          apply tracks_bind; [|intros _; apply tracks_user].
          intros s. exists [EvOnRetry e n d]. auto. }
        intros _. apply tracks_bind; [|intros _; apply IH].
        apply tracks_logged; [reflexivity | apply tracks_sleep].
Qed.

Lemma tracks_retry table T (fn : Z -> M World T) (options : RetryOptions World) :
  (forall n, tracks table (fn n)) -> tracks table (retry fn options).
Proof.
  intros Hfn. unfold retry. apply tracks_async.
  destruct (default 3 (maxAttempts options) <? 1); [apply tracks_throw|].
  apply tracks_retry_loop. exact Hfn.
Qed.

(** X19.  The state machine holds under retries too: whatever the
    operation, the options and the hooks do, what a whole run of
    [callWithRetry] adds to the log replays from the state of the breaker
    before it to its state after it, through the four transitions of
    calls only, each recorded once. *)
Theorem callWithRetry_follows_the_state_machine T (op : Z -> User World T)
    (options : RetryOptions World) s :
  exists l,
    log (snd (callWithRetry (fun n => user (op n)) options s)) = log s ++ l
    /\ replay legal (state (this s)) l
       = Some (state (this (snd (callWithRetry (fun n => user (op n)) options s)))).
Proof.
  rewrite callWithRetry_is_retry. apply tracks_retry. intros n.
  apply tracks_bind; [apply tracks_call | intros q; apply tracks_await].
Qed.


(** ** The cap of the delays *)





(** ** Callbacks that throw *)

(** X21.  An error thrown by a callback ends the run with that error:
    when [retryIf] throws for the error of the first attempt, or
    [onRetry] throws before the first sleep, [retry] rejects with what
    the callback threw, not with the error of the operation and not with
    a [RetryError]; there is no sleep and no further attempt. *)
Theorem callback_error_ends_the_run T (op : Z -> User World T)
    (options : RetryOptions World) s e w1 e' w2 :
  1 <= default 3 (maxAttempts options) ->
  signal_aborted (signal options) (world s) = false ->
  op 1 (world s) = (Throw e, w1) ->
  signal_aborted (signal options) w1 = false ->
  (forall p,
      retryIf options = Some p ->
      p e 1 w1 = (Throw e', w2) ->
      retry (fun n => user (op n)) options s
      = (Normal (Rejected e'),
         mkState w2 (this s) (log s ++ [EvAttempt 1 (Some e)])))
  /\ (forall h d,
         retryIf options = None ->
         1 < default 3 (maxAttempts options) ->
         jitter options = Some false ->
         onRetry options = Some h ->
         d = Math_min
               (mul (default (of_Z 1000) (baseDelay options))
                  (Math_pow (default (of_Z 2) (factor options)) (of_Z (1 - 1))))
               (default (of_Z 30000) (maxDelay options)) ->
         h e 1 d w1 = (Throw e', w2) ->
         retry (fun n => user (op n)) options s
         = (Normal (Rejected e'),
            mkState w2 (this s)
              (log s ++ [EvAttempt 1 (Some e); EvOnRetry e 1 d]))).
Proof.
  intros Hmax Hsig Hop Hsig1. split.
  - intros p Hp Hthrow.
    rewrite retry_enters_loop by exact Hmax.
    unfold async. simpl retry_loop. unfold try_catch, bind at 1.
    rewrite (throw_if_aborted_clear _ s) by exact Hsig.
    unfold bind, logged, user, read. simpl. rewrite Hop. simpl.
    rewrite Hsig1, Hp. simpl. rewrite Hthrow. reflexivity.
  - intros h d Hp Hlt Hj Hh Hd Hthrow.
    rewrite retry_enters_loop by exact Hmax.
    unfold async. simpl retry_loop. unfold try_catch, bind at 1.
    rewrite (throw_if_aborted_clear _ s) by exact Hsig.
    unfold bind, logged, user, read. simpl. rewrite Hop. simpl.
    rewrite Hsig1, Hp, Hj, Hh. simpl.
    change (match default 3 (maxAttempts options) with
            | Z.pos q => (1 =? q)%positive
            | _ => false
            end) with (1 =? default 3 (maxAttempts options)).
    rewrite (proj2 (Z.eqb_neq 1 _)) by lia.
    simpl in Hd. rewrite <- Hd. simpl. rewrite Hthrow.
    rewrite <- app_assoc. reflexivity.
Qed.

Lemma transition_hook_throws to s h e' w2 :
  CircuitState_eqb (state (this s)) to = false ->
  onStateChange (this s) = Some h ->
  h (state (this s)) to (world s) = (Throw e', w2) ->
  transition to s
  = (Throw e',
     mkState w2 (with_state to (this s))
       (log s ++ [EvStateChange (state (this s)) to])).
Proof.
  intros E Hh Hthrow.
  unfold transition, bind, get_this, assign, emit, user. simpl.
  rewrite E, Hh. simpl. rewrite Hthrow. reflexivity.
Qed.

Lemma transition_hook_returns to s h w2 :
  CircuitState_eqb (state (this s)) to = false ->
  onStateChange (this s) = Some h ->
  h (state (this s)) to (world s) = (Normal tt, w2) ->
  transition to s
  = (Normal tt,
     mkState w2 (with_state to (this s))
       (log s ++ [EvStateChange (state (this s)) to])).
Proof.
  intros E Hh Hret.
  unfold transition, bind, get_this, assign, emit, user. simpl.
  rewrite E, Hh. simpl. rewrite Hret. reflexivity.
Qed.

(** X22.  A hook that throws while the breaker closes turns a
    successful probe into a failure.  The operation has succeeded and
    the state is closed already when the hook throws inside [onSuccess],
    so the [catch] of [call] runs [onFailure]: the call rejects with the
    error of the hook, a failure is counted and timed, neither counter is
    set back to 0, and, the failure count being at the threshold (as it
    is once the breaker has been opened by calls), the breaker is opened
    again at once. *)
Theorem throwing_hook_on_closing_reopens T (op : User World T) s
    h (a : T) w1 e' w2 w3 :
  state (this s) = half_open ->
  halfOpenSuccesses (this s) <= successes (this s) + 1 ->
  failureThreshold (this s) <= failures (this s) + 1 ->
  onStateChange (this s) = Some h ->
  op (world s) = (Normal a, w1) ->
  h half_open closed w1 = (Throw e', w2) ->
  h closed open w2 = (Normal tt, w3) ->
  call (user op) s
  = (Normal (Rejected e'),
     mkState w3
       (with_state open
          (with_lastFailureTime (Date_now w2)
             (with_failures (failures (this s) + 1)
                (with_state closed
                   (with_successes (successes (this s) + 1) (this s))))))
       (log s ++ [EvOperation None; EvStateChange half_open closed;
                  EvStateChange closed open])).
Proof.
  intros Hs Hsucc Hfail Hh Hop Hthrow Hret.
  assert (Hd : ~ due s).
  { intros [Ho _]. rewrite Hs in Ho. discriminate. }
  unfold call, async, bind at 1. rewrite (checkHalfOpen_not_due Hd).
  unfold bind at 1. unfold get_this at 1. rewrite Hs. simpl.
  set (s1 := mkState w1 (this s) (log s ++ [EvOperation None])).
  set (b1 := with_successes (successes (this s) + 1) (this s)).
  set (s2 := mkState w2 (with_state closed b1)
               (log s ++ [EvOperation None; EvStateChange half_open closed])).
  set (b2 := with_lastFailureTime (Date_now w2)
               (with_failures (failures (this s) + 1) (with_state closed b1))).
  assert (Hon : onSuccess s1 = (Throw e', s2)).
  { unfold onSuccess, bind at 1, get_this at 1. simpl. rewrite Hs. simpl.
    unfold bind at 1, assign at 1. simpl.
    unfold bind at 1, get_this at 1. simpl.
    rewrite (proj2 (Z.geb_le _ _)) by lia.
    unfold bind at 1. fold b1.
    rewrite (transition_hook_throws closed
               (mkState w1 b1 (log s ++ [EvOperation None]))
               (h := h) (e' := e') (w2 := w2)).
    - unfold s2. simpl. rewrite Hs, <- app_assoc. reflexivity.
    - simpl. rewrite Hs. reflexivity.
    - exact Hh.
    - simpl. rewrite Hs. exact Hthrow. }
  assert (Hoff : onFailure s2
                 = (Normal tt,
                    mkState w3 (with_state open b2)
                      (log s2 ++ [EvStateChange closed open]))).
  { unfold onFailure, bind at 1, get_this at 1.
    unfold bind at 1, assign at 1. unfold bind at 1, read at 1.
    unfold bind at 1, assign at 1. unfold bind at 1, get_this at 1.
    simpl. rewrite (proj2 (Z.geb_le _ _)) by lia. fold b2.
    rewrite (transition_hook_returns open
               (mkState w2 b2
                  (log s ++ [EvOperation None; EvStateChange half_open closed]))
               (h := h) (w2 := w3)).
    - reflexivity.
    - reflexivity.
    - exact Hh.
    - exact Hret. }
  unfold try_catch, bind at 1, logged, user. rewrite Hop.
  unfold bind at 1. simpl world. simpl this. simpl log. fold s1.
  rewrite Hon. unfold bind at 1. rewrite Hoff.
  unfold s2. simpl. rewrite <- app_assoc. reflexivity.
Qed.

End Properties.

(** * The properties on the simulated environment *)

Section Scenarios.

Import Sim.

#[local] Existing Instance Spy.runtime | 10.

Lemma always_fails_fails : fails always_fails.
Proof. intros w. eexists _, _. reflexivity. Qed.

Lemma quiet_hook_returns e n d : returns (quiet_hook e n d).
Proof. intros w. exists tt, w. reflexivity. Qed.

(** C1, as stated, fails: with a base delay of 0 and the factor 2, the
    delay of attempt 1025 is not 0.  The power 2^1024 is Infinity, and 0
    times Infinity is NaN, which [Math.min] hands on. *)
Lemma delay_of_attempt_1025_is_NaN :
  Math_pow (of_Z 2) (of_Z (1025 - 1)) = S754_infinity false
  /\ computeDelay 1025 (of_Z 0) (of_Z 30000) (of_Z 2) false (start fresh a_breaker)
     = (Normal S754_nan, start fresh a_breaker)
  /\ eqb S754_nan (of_Z 0) = false.
Proof. vm_compute. repeat split. Qed.

Lemma computeDelay_without_jitter_witness :
  1 <= 3
  /\ exists d,
       computeDelay 3 (of_Z 100) (of_Z 30000) (of_Z 2) false (start fresh a_breaker)
       = (Normal d, start fresh a_breaker)
       /\ d = of_Z 400.
Proof.
  split; [lia|].
  destruct (computeDelay_without_jitter (n := 3) (of_Z 100) (of_Z 30000) (of_Z 2)
              (start fresh a_breaker)) as [d [H [Hd _]]]; [lia|].
  exists d. split; [exact H|]. rewrite Hd. vm_compute. reflexivity.
Defined.

(** C8.  The code at the input on which it departs from the claim: the
    probing breaker (two successes close it) is half-open with one success
    counted; the next probe fails; the breaker leaves half-open for open
    and the success count is still 1, where the claim has it reset to 0. *)
Lemma successes_kept_when_probe_fails :
  state (this probed_once) = half_open
  /\ successes (this probed_once) = 1
  /\ state (this (snd (call (user always_fails) probed_once))) = open
  /\ successes (this (snd (call (user always_fails) probed_once))) = 1
  /\ successes (this (snd (call (user always_fails) probed_once))) <> 0.
Proof. vm_compute. repeat split; discriminate. Qed.

(** C9, as stated, fails: with [maxAttempts: 0] the call of [retry]
    does not throw; it completes normally and the error is the rejection
    of the promise it returns. *)
Lemma bad_maxAttempts_is_a_rejection :
  fst (retry (fun _ => user succeeds) zero_attempts (start fresh a_breaker))
  = Normal (Rejected (RangeError "maxAttempts must be >= 1"%string))
  /\ ~ exists e,
         fst (retry (fun _ => user succeeds) zero_attempts (start fresh a_breaker))
         = Throw e.
Proof.
  split; [reflexivity|]. intros [e H]. vm_compute in H. discriminate.
Qed.

Lemma spy_always_fails_fails n : fails (Spy.always_fails n).
Proof. intros w. eexists _, _. reflexivity. Qed.

Lemma spy_noting_hook_returns e n d : returns (Spy.noting_hook e n d).
Proof. intros w. eexists _, _. reflexivity. Qed.

Lemma spy_journaled_failures (options : RetryOptions Spy.World) :
  retryIf options = None ->
  onRetry options = Some Spy.noting_hook ->
  journaled Spy.journal Spy.always_fails
    (retryIf options) (onRetry options) (signal options).
Proof.
  intros Hp Hh. rewrite Hp, Hh. constructor.
  - intros n w. reflexivity.
  - intros p e n w H. discriminate.
  - intros h e n d w H. inversion H. reflexivity.
  - intros w. reflexivity.
  - intros d w. reflexivity.
  - intros sg d w w' _ H. discriminate.
Qed.

Lemma spy_journaled_successes (options : RetryOptions Spy.World) k :
  retryIf options = None ->
  onRetry options = Some Spy.noting_hook ->
  journaled Spy.journal (Spy.succeeds_at k)
    (retryIf options) (onRetry options) (signal options).
Proof.
  intros Hp Hh. rewrite Hp, Hh. constructor.
  - intros n w. unfold Spy.succeeds_at. destruct (n <? k); reflexivity.
  - intros p e n w H. discriminate.
  - intros h e n d w H. inversion H. reflexivity.
  - intros w. reflexivity.
  - intros d w. reflexivity.
  - intros sg d w w' _ H. discriminate.
Qed.

Lemma retry_exhausts_maxAttempts_witness :
  (forall n, fails (Spy.always_fails n))
  /\ maxAttempts Spy.three_attempts = Some 3
  /\ 1 <= 3
  /\ retryIf Spy.three_attempts = None
  /\ never_cancelled (signal Spy.three_attempts)
  /\ exists es s',
       retry (fun n => user (Spy.always_fails n)) Spy.three_attempts Spy.start
       = (Normal (Rejected (RetryError 3 Sim.failure)), s')
       /\ attempts_of (Spy.journal (world s')) = failed_from 1 es
       /\ Z.of_nat (List.length es) = 3
       /\ attempts_of (Spy.journal (world s'))
          = [(1, Some Sim.failure); (2, Some Sim.failure); (3, Some Sim.failure)].
Proof.
  split; [exact spy_always_fails_fails|].
  split; [reflexivity|]. split; [lia|]. split; [reflexivity|].
  split; [exact I|].
  destruct (@retry_exhausts_maxAttempts _ _ _ Spy.always_fails Spy.three_attempts
              3 Spy.start)
    as [es [le [sN [wN [l [_ [_ [Hr [_ [Hlen Hseen]]]]]]]]]].
  - exact spy_always_fails_fails.
  - reflexivity.
  - lia.
  - reflexivity.
  - exact I.
  - intros h e n d H. inversion H. apply spy_noting_hook_returns.
  - destruct (Hseen Spy.journal) as [J [HJ Hat]].
    { apply spy_journaled_failures; reflexivity. }
    assert (Hc : fst (retry (fun n => user (Spy.always_fails n)) Spy.three_attempts
                        Spy.start)
                 = Normal (Rejected (RetryError 3 Sim.failure))) by reflexivity.
    assert (Hw : Spy.journal
                   (world (snd (retry (fun n => user (Spy.always_fails n))
                                  Spy.three_attempts Spy.start)))
                 = [EvAttempt 1 (Some Sim.failure);
                    EvOnRetry Sim.failure 1 (of_Z 100); EvSleep (of_Z 100) None;
                    EvAttempt 2 (Some Sim.failure);
                    EvOnRetry Sim.failure 2 (of_Z 200); EvSleep (of_Z 200) None;
                    EvAttempt 3 (Some Sim.failure)]) by (vm_compute; reflexivity).
    rewrite Hr in Hc, Hw. cbn [fst snd world] in Hc, Hw.
    injection Hc as He.
    exists es. eexists. split; [rewrite Hr, He; reflexivity|]. cbn [world].
    split; [rewrite HJ; exact Hat|]. split; [exact Hlen|].
    rewrite Hw. reflexivity.
Defined.

Lemma threshold_opens_and_open_rejects_witness :
  state (this (start fresh (breaker_with_threshold 3))) = closed
  /\ failures (this (start fresh (breaker_with_threshold 3)))
     < failureThreshold (this (start fresh (breaker_with_threshold 3)))
  /\ Forall fails [always_fails; always_fails; always_fails]
  /\ state (this tripped) = open
  /\ failures (this tripped) = 3
  /\ ~ due tripped
  /\ call (user succeeds) tripped
     = (Normal (Rejected (CircuitOpenError 3)), tripped).
Proof.
  assert (H : Forall fails [always_fails; always_fails; always_fails]).
  { repeat constructor; apply always_fails_fails. }
  assert (Hd : ~ due tripped).
  { intros [_ Hd]. vm_compute in Hd. apply Hd. reflexivity. }
  split; [reflexivity|]. split; [reflexivity|]. split; [exact H|].
  destruct (threshold_opens_and_open_rejects
              (ops := [always_fails; always_fails; always_fails])
              (start fresh (breaker_with_threshold 3))
              eq_refl eq_refl H) as [_ [H2 H3]].
  destruct (H2 eq_refl) as [H21 H22].
  split; [exact H21|]. split; [exact H22|]. split; [exact Hd|].
  exact (H3 tripped string (user succeeds) H21 Hd).
Defined.

Lemma half_open_is_entered_on_access_witness :
  state (this overdue) = open
  /\ due overdue
  /\ hook_total (this overdue)
  /\ state (this (snd (getState overdue))) = half_open
  /\ fst (getState overdue) = Normal half_open
  /\ this (snd (getFailures overdue)) = this overdue.
Proof.
  assert (Hd : due overdue).
  { split; [reflexivity|]. vm_compute. discriminate. }
  split; [reflexivity|]. split; [exact Hd|]. split; [exact I|].
  destruct (half_open_is_entered_on_access overdue eq_refl)
    as [_ [H2 [_ [_ H5]]]].
  destruct (H2 Hd) as [H21 H22]. destruct (H22 I) as [H23 _].
  split; [exact H21|]. split; [exact H23 | exact H5].
Defined.

Lemma successes_reset_on_entry_and_on_closing_witness :
  hook_total (this overdue)
  /\ due overdue
  /\ state (this (snd (getState overdue))) = half_open
  /\ successes (this (snd (getState overdue))) = 0
  /\ state (this probed_once) = half_open
  /\ successes (this (snd (call (user always_fails) probed_once)))
     = successes (this probed_once)
  /\ successes (this (snd (reset probed_once))) = 0.
Proof.
  assert (Hd : due overdue).
  { split; [reflexivity|]. vm_compute. discriminate. }
  split; [exact I|]. split; [exact Hd|].
  destruct (successes_reset_on_entry_and_on_closing overdue I) as [H1 _].
  destruct (H1 Hd) as [_ [_ [H13 H14]]].
  split; [exact H13|]. split; [exact H14|]. split; [reflexivity|].
  destruct (successes_reset_on_entry_and_on_closing probed_once I)
    as [_ [H2 [_ H3]]].
  destruct (H2 string always_fails eq_refl) as [_ H22].
  split; [apply H22; reflexivity | exact H3].
Defined.

Lemma retry_rejects_bad_maxAttempts_witness :
  maxAttempts zero_attempts = Some 0
  /\ 0 < 1
  /\ retry (fun _ => user succeeds) zero_attempts (start fresh a_breaker)
     = (Normal (Rejected (RangeError "maxAttempts must be >= 1"%string)),
        start fresh a_breaker).
Proof.
  split; [reflexivity|]. split; [lia|].
  apply (retry_rejects_bad_maxAttempts (fun _ => user succeeds) zero_attempts
           (n := 0) (start fresh a_breaker)); [reflexivity | lia].
Defined.

Lemma getFailures_is_a_pure_read_witness :
  due overdue
  /\ getFailures overdue = (Normal 1, overdue)
  /\ state (this (snd (getState overdue))) = half_open
  /\ state (this (snd (getFailures overdue))) = open.
Proof.
  assert (Hd : due overdue).
  { split; [reflexivity|]. vm_compute. discriminate. }
  split; [exact Hd|].
  destruct (getFailures_is_a_pure_read overdue) as [H1 H2].
  destruct (H2 Hd) as [H21 [_ [H23 _]]].
  split; [exact H1|]. split; [exact H21 | exact H23].
Defined.

(** C5, as stated, fails: the breaker (threshold 2, reset timeout 50)
    opens at the second of five attempts, and the loop does not end with
    a [CircuitOpenError].  The sleep of 200 that follows outlasts the reset
    timeout, so the third attempt finds the breaker due, is let through as
    a probe and fails as the operation does; so do the fourth and the
    fifth, and the promise rejects with [RetryError] after all five
    attempts. *)
Lemma open_breaker_is_tried_again_after_its_timeout :
  callWithRetry (fun _ => user always_fails) five_slow_attempts
    (start fresh impatient_breaker)
  = (Normal (Rejected (RetryError 5 failure)),
     mkState (mkWorld 1500 5 None)
       (mkCircuitBreaker open 5 0 1500 2 50 1 None)
       [EvOperation (Some failure); EvAttempt 1 (Some failure);
        EvSleep (of_Z 100) None;
        EvOperation (Some failure); EvStateChange closed open;
        EvAttempt 2 (Some failure);
        EvSleep (of_Z 200) None;
        EvStateChange open half_open; EvOperation (Some failure);
        EvStateChange half_open open; EvAttempt 3 (Some failure);
        EvSleep (of_Z 400) None;
        EvStateChange open half_open; EvOperation (Some failure);
        EvStateChange half_open open; EvAttempt 4 (Some failure);
        EvSleep (of_Z 800) None;
        EvStateChange open half_open; EvOperation (Some failure);
        EvStateChange half_open open; EvAttempt 5 (Some failure)])
  /\ forall k, RetryError 5 failure <> CircuitOpenError k.
Proof. split; [vm_compute; reflexivity | discriminate]. Qed.

Lemma callWithRetry_stops_at_open_circuit_witness :
  1 <= default 3 (maxAttempts ten_immediate_attempts)
  /\ exists s1,
       arrives (round_through (fun _ => user always_fails) ten_immediate_attempts)
         (start fresh (breaker_with_threshold 2)) 3 failure s1
       /\ signal_aborted (signal ten_immediate_attempts) (world s1) = false
       /\ state (this s1) = open
       /\ ~ due s1
       /\ calls (world s1) = 2
       /\ callWithRetry (fun _ => user always_fails) ten_immediate_attempts
            (start fresh (breaker_with_threshold 2))
          = (Normal (Rejected (CircuitOpenError 2)),
             mkState (world s1) (this s1)
               (log s1 ++ [EvAttempt 3 (Some (CircuitOpenError 2))])).
Proof.
  assert (Hmax : 1 <= default 3 (maxAttempts ten_immediate_attempts))
    by (simpl; lia).
  split; [exact Hmax|].
  set (b1 := mkCircuitBreaker closed 1 0 0 2 60000 1 None : CircuitBreaker World).
  set (b2 := mkCircuitBreaker open 2 0 0 2 60000 1 None : CircuitBreaker World).
  set (s1 := mkState (mkWorld 0 1 None) b1
               [EvOperation (Some failure); EvAttempt 1 (Some failure);
                EvSleep (of_Z 0) None]).
  set (s2 := mkState (mkWorld 0 2 None) b2
               [EvOperation (Some failure); EvAttempt 1 (Some failure);
                EvSleep (of_Z 0) None;
                EvOperation (Some failure); EvStateChange closed open;
                EvAttempt 2 (Some failure); EvSleep (of_Z 0) None]).
  assert (Harr : arrives (round_through (fun _ => user always_fails)
                            ten_immediate_attempts)
                   (start fresh (breaker_with_threshold 2)) 3 failure s2).
  { apply arrives_next with (n := 2) (le := failure) (s := s1).
    - apply arrives_next with (n := 1) (le := undefined)
                              (s := start fresh (breaker_with_threshold 2)).
      + apply arrives_first.
      + split; [reflexivity|]. eexists _, _. split.
        * split; [reflexivity|]. eexists _, _, _.
          split; [reflexivity|]. split; [reflexivity|]. split; [reflexivity|].
          split; [discriminate|]. split; reflexivity.
        * split; [exact I|]. reflexivity.
    - split; [reflexivity|]. eexists _, _. split.
      + split; [reflexivity|]. eexists _, _, _.
        split; [reflexivity|]. split; [reflexivity|]. split; [reflexivity|].
        split; [discriminate|]. split; reflexivity.
      + split; [exact I|]. reflexivity. }
  assert (Hnd : ~ due s2).
  { intros [_ Hd]. vm_compute in Hd. apply Hd. reflexivity. }
  exists s2. split; [exact Harr|]. split; [reflexivity|]. split; [reflexivity|].
  split; [exact Hnd|]. split; [reflexivity|].
  destruct (callWithRetry_stops_at_open_circuit (fun _ : Z => always_fails)
              ten_immediate_attempts (start fresh (breaker_with_threshold 2)))
    as [H _].
  destruct (H Hmax) as [_ [Hopen _]].
  exact (Hopen 3 failure s2 Harr eq_refl eq_refl Hnd).
Defined.

Lemma cancelled_sleep_rejects_retry_witness :
  signal ten_attempts_with_signal = Some controller_signal
  /\ 1 <= default 3 (maxAttempts ten_attempts_with_signal)
  /\ reason controller_signal (mkWorld 250 2 (Some 250)) = Some controller_reason
  /\ retry (fun _ => user (after 20 always_fails)) ten_attempts_with_signal
       (start aborting_at_250 a_breaker)
     = (Normal (Rejected controller_reason),
        mkState (mkWorld 250 2 (Some 250)) a_breaker
          [EvAttempt 1 (Some failure); EvSleep (of_Z 100) None;
           EvAttempt 2 (Some failure);
           EvSleep (of_Z 200) (Some controller_reason)]).
Proof.
  assert (Hmax : 1 <= default 3 (maxAttempts ten_attempts_with_signal))
    by (simpl; lia).
  split; [reflexivity|]. split; [exact Hmax|]. split; [reflexivity|].
  set (s1 := mkState (mkWorld 120 1 (Some 250)) a_breaker
               [EvAttempt 1 (Some failure); EvSleep (of_Z 100) None]).
  set (s4 := mkState (mkWorld 140 2 (Some 250)) a_breaker
               [EvAttempt 1 (Some failure); EvSleep (of_Z 100) None;
                EvAttempt 2 (Some failure)]).
  assert (Harr : arrives (round_of (fun _ => user (after 20 always_fails))
                            ten_attempts_with_signal)
                   (start aborting_at_250 a_breaker) 2 failure s1).
  { apply arrives_next with (n := 1) (le := undefined)
                            (s := start aborting_at_250 a_breaker).
    - apply arrives_first.
    - eexists _, _. split.
      + split; [reflexivity|]. eexists _, _, _.
        split; [reflexivity|]. split; [reflexivity|]. split; [reflexivity|].
        split; [discriminate|]. split; reflexivity.
      + split; [split; reflexivity|]. reflexivity. }
  assert (Hret : retried_of (fun _ => user (after 20 always_fails))
                   ten_attempts_with_signal 2 s1 failure (of_Z 200) s4).
  { split; [reflexivity|]. eexists _, _, _.
    split; [reflexivity|]. split; [reflexivity|]. split; [reflexivity|].
    split; [discriminate|]. split; reflexivity. }
  destruct (@cancelled_sleep_rejects_retry _ _ _ (fun _ : Z => after 20 always_fails)
              ten_attempts_with_signal controller_signal
              (start aborting_at_250 a_breaker) 2 failure s1 failure (of_Z 200) s4
              (mkWorld 250 2 (Some 250)) eq_refl Hmax Harr Hret eq_refl eq_refl)
    as [_ H].
  exact H.
Defined.

(** C7, as stated, fails on the delays: with [maxDelay: 150] the second
    call of the hook gets 150, the cap, and not
    [baseDelay * factor = 200]. *)
Lemma second_delay_is_capped :
  fst (retry (fun n => user (Spy.succeeds_at 3 n)) Spy.three_capped_attempts
         Spy.start)
  = Normal (Fulfilled (mkRetryResult "ok"%string 3))
  /\ Spy.journal
       (world (snd (retry (fun n => user (Spy.succeeds_at 3 n))
                      Spy.three_capped_attempts Spy.start)))
     = [EvAttempt 1 (Some failure); EvOnRetry failure 1 (of_Z 100);
        EvSleep (of_Z 100) None;
        EvAttempt 2 (Some failure); EvOnRetry failure 2 (of_Z 150);
        EvSleep (of_Z 150) None;
        EvAttempt 3 None]
  /\ mul (of_Z 100) (of_Z 2) = of_Z 200
  /\ eqb (of_Z 150) (of_Z 200) = false.
Proof. vm_compute. repeat split. Qed.

Lemma onRetry_once_before_each_sleep_witness :
  onRetry Spy.three_attempts = Some Spy.noting_hook
  /\ exists p s',
       retry (fun n => user (Spy.succeeds_at 3 n)) Spy.three_attempts Spy.start
       = (Normal p, s')
       /\ Spy.journal (world s')
          = [EvAttempt 1 (Some failure); EvOnRetry failure 1 (of_Z 100);
             EvSleep (of_Z 100) None;
             EvAttempt 2 (Some failure); EvOnRetry failure 2 (of_Z 200);
             EvSleep (of_Z 200) None;
             EvAttempt 3 None]
       /\ hooks_of (Spy.journal (world s'))
          = [(failure, 1, Math_min (mul (of_Z 100) (Math_pow (RT := Spy.runtime) (of_Z 2) (of_Z 0)))
                            (of_Z 30000));
             (failure, 2, Math_min (mul (of_Z 100) (Math_pow (RT := Spy.runtime) (of_Z 2) (of_Z 1)))
                            (of_Z 30000))]
       /\ p = Fulfilled (mkRetryResult "ok"%string 3).
Proof.
  split; [reflexivity|].
  destruct (@onRetry_once_before_each_sleep _ _ _ (Spy.succeeds_at 3)
              Spy.three_attempts Spy.noting_hook Spy.start eq_refl)
    as [_ Hseen].
  destruct (Hseen Spy.journal) as [J [p [s' [Hr [HJ [_ Hinst]]]]]].
  { apply spy_journaled_successes; reflexivity. }
  exists p, s'. split; [exact Hr|].
  vm_compute in Hr. inversion Hr; subst p s'. simpl in HJ.
  split; [reflexivity|].
  assert (Hatt : attempts_of J = [(1, Some failure); (2, Some failure); (3, None)]).
  { rewrite <- HJ. reflexivity. }
  destruct (Hinst failure failure (of_Z 100) (of_Z 30000) (of_Z 2)
              Hatt eq_refl eq_refl eq_refl eq_refl)
    as [d1 [d2 [v [Hh [-> [-> [_ Hp]]]]]]].
  split; [|reflexivity]. rewrite <- Hh, <- HJ. reflexivity.
Defined.

(** ** The further properties on the simulated environment *)

Lemma succeeds_returns : returns succeeds.
Proof. intros w. exists "ok"%string, w. reflexivity. Qed.

Lemma retry_succeeds_at_once_witness :
  1 <= default 3 (maxAttempts three_attempts)
  /\ signal_aborted (signal three_attempts) (world (start fresh a_breaker)) = false
  /\ succeeds (world (start fresh a_breaker)) = (Normal "ok"%string, fresh)
  /\ retry (fun _ => user succeeds) three_attempts (start fresh a_breaker)
     = (Normal (Fulfilled (mkRetryResult "ok"%string 1)),
        mkState fresh a_breaker [EvAttempt 1 None]).
Proof.
  assert (H1 : 1 <= default 3 (maxAttempts three_attempts)) by (simpl; lia).
  assert (H2 : signal_aborted (signal three_attempts)
                 (world (start fresh a_breaker)) = false) by reflexivity.
  assert (H3 : succeeds (world (start fresh a_breaker))
               = (Normal "ok"%string, fresh)) by reflexivity.
  split; [exact H1|]. split; [exact H2|]. split; [exact H3|].
  exact (retry_succeeds_at_once (fun _ : Z => succeeds) three_attempts
           (start fresh a_breaker) H1 H2 H3).
Defined.


Lemma aborted_signal_stops_before_the_attempt_witness :
  signal ten_attempts_with_signal = Some controller_signal
  /\ aborted controller_signal (world (start aborted_already a_breaker)) = true
  /\ 1 <= default 3 (maxAttempts ten_attempts_with_signal)
  /\ retry (fun _ => user always_fails) ten_attempts_with_signal
       (start aborted_already a_breaker)
     = (Normal (Rejected controller_reason), start aborted_already a_breaker).
Proof.
  assert (H1 : signal ten_attempts_with_signal = Some controller_signal)
    by reflexivity.
  assert (H2 : aborted controller_signal (world (start aborted_already a_breaker))
               = true) by reflexivity.
  assert (H3 : 1 <= default 3 (maxAttempts ten_attempts_with_signal))
    by (simpl; lia).
  split; [exact H1|]. split; [exact H2|]. split; [exact H3|].
  destruct (aborted_signal_stops_before_the_attempt (fun _ : Z => always_fails)
              ten_attempts_with_signal (start aborted_already a_breaker) H1 H2)
    as [_ H].
  exact (H H3).
Defined.

Lemma error_is_kept_when_aborted_meanwhile_witness :
  signal ten_attempts_with_signal = Some controller_signal
  /\ aborted controller_signal (world (start aborting_at_50 a_breaker)) = false
  /\ 1 <= default 3 (maxAttempts ten_attempts_with_signal)
  /\ after 60 always_fails (world (start aborting_at_50 a_breaker))
     = (Throw failure, mkWorld 60 1 (Some 50))
  /\ aborted controller_signal (mkWorld 60 1 (Some 50)) = true
  /\ retry (fun _ => user (after 60 always_fails)) ten_attempts_with_signal
       (start aborting_at_50 a_breaker)
     = (Normal (Rejected failure),
        mkState (mkWorld 60 1 (Some 50)) a_breaker [EvAttempt 1 (Some failure)]).
Proof.
  assert (H1 : signal ten_attempts_with_signal = Some controller_signal)
    by reflexivity.
  assert (H2 : aborted controller_signal (world (start aborting_at_50 a_breaker))
               = false) by reflexivity.
  assert (H3 : 1 <= default 3 (maxAttempts ten_attempts_with_signal))
    by (simpl; lia).
  assert (H4 : after 60 always_fails (world (start aborting_at_50 a_breaker))
               = (Throw failure, mkWorld 60 1 (Some 50))) by reflexivity.
  assert (H5 : aborted controller_signal (mkWorld 60 1 (Some 50)) = true)
    by reflexivity.
  split; [exact H1|]. split; [exact H2|]. split; [exact H3|].
  split; [exact H4|]. split; [exact H5|].
  destruct (error_is_kept_when_aborted_meanwhile
              (fun _ : Z => after 60 always_fails) ten_attempts_with_signal
              (start aborting_at_50 a_breaker) failure (mkWorld 60 1 (Some 50))
              H1 H2) as [_ H].
  exact (H H3 H4 H5).
Defined.




Lemma reset_closes_unconditionally_witness :
  hook_total (this tripped)
  /\ state (this tripped) = open
  /\ state (this (snd (reset tripped))) = closed
  /\ failures (this (snd (reset tripped))) = 0
  /\ log (snd (reset tripped)) = log tripped ++ [EvStateChange open closed].
Proof.
  destruct (reset_closes_unconditionally tripped I) as [w' [H _]].
  split; [exact I|]. split; [reflexivity|].
  rewrite H. split; [reflexivity|]. split; reflexivity.
Defined.

Lemma success_when_closed_clears_failures_witness :
  state (this failed_once) = closed
  /\ failures (this failed_once) = 1
  /\ succeeds (world failed_once) = (Normal "ok"%string, world failed_once)
  /\ fst (call (user succeeds) failed_once) = Normal (Fulfilled "ok"%string)
  /\ failures (this (snd (call (user succeeds) failed_once))) = 0.
Proof.
  assert (H1 : state (this failed_once) = closed) by reflexivity.
  assert (H2 : succeeds (world failed_once)
               = (Normal "ok"%string, world failed_once)) by reflexivity.
  pose proof (success_when_closed_clears_failures succeeds failed_once H1 H2) as H.
  split; [exact H1|]. split; [reflexivity|]. split; [exact H2|].
  rewrite H. split; reflexivity.
Defined.

Lemma probes_close_the_breaker_witness :
  state (this probed_once) = half_open
  /\ hook_total (this probed_once)
  /\ successes (this probed_once) < halfOpenSuccesses (this probed_once)
  /\ Forall returns [succeeds]
  /\ state (this (snd (calls_ignoring_errors (map user [succeeds]) probed_once)))
     = closed
  /\ failures (this (snd (calls_ignoring_errors (map user [succeeds]) probed_once)))
     = 0
  /\ successes (this (snd (calls_ignoring_errors (map user [succeeds]) probed_once)))
     = 0.
Proof.
  assert (H1 : state (this probed_once) = half_open) by reflexivity.
  assert (H3 : successes (this probed_once) < halfOpenSuccesses (this probed_once))
    by reflexivity.
  assert (H4 : Forall returns [succeeds])
    by (repeat constructor; apply succeeds_returns).
  destruct (probes_close_the_breaker probed_once H1 I H3 H4) as [_ H].
  split; [exact H1|]. split; [exact I|]. split; [exact H3|]. split; [exact H4|].
  apply H. reflexivity.
Defined.

Lemma call_settles_as_its_operation_witness :
  hook_total (this (start fresh a_breaker))
  /\ state (this (start fresh a_breaker)) <> open
  /\ fst (call (user always_fails) (start fresh a_breaker))
     = Normal (Rejected failure)
  /\ due overdue
  /\ fst (call (user succeeds) overdue) = Normal (Fulfilled "ok"%string).
Proof.
  assert (Hn : state (this (start fresh a_breaker)) <> open).
  { intros H. vm_compute in H. discriminate. }
  assert (Hd : due overdue).
  { split; [reflexivity|]. vm_compute. discriminate. }
  split; [exact I|]. split; [exact Hn|].
  destruct (call_settles_as_its_operation always_fails (start fresh a_breaker) I)
    as [H1 _].
  split; [exact (H1 Hn)|]. split; [exact Hd|].
  destruct (call_settles_as_its_operation succeeds overdue I) as [_ H2].
  destruct (H2 Hd) as [w1 [_ [_ H]]]. exact H.
Defined.

Lemma failed_probe_reopens_witness :
  state (this probed_once) = half_open
  /\ always_fails (world probed_once) = (Throw failure, mkWorld 60 2 None)
  /\ state (this (snd (call (user always_fails) probed_once))) = open
  /\ failures (this (snd (call (user always_fails) probed_once)))
     = failures (this probed_once) + 1
  /\ lastFailureTime (this (snd (call (user always_fails) probed_once))) = 60
  /\ fst (call (user always_fails) probed_once) = Normal (Rejected failure).
Proof.
  assert (H1 : state (this probed_once) = half_open) by reflexivity.
  assert (H2 : always_fails (world probed_once)
               = (Throw failure, mkWorld 60 2 None)) by reflexivity.
  pose proof (failed_probe_reopens always_fails probed_once H1 H2) as H.
  cbv zeta in H. destruct H as [Ha [Hb [Hc Hd]]].
  split; [exact H1|]. split; [exact H2|]. split; [exact Ha|].
  split; [exact Hb|]. split; [exact Hc | exact (Hd I)].
Defined.

Lemma breaker_stays_consistent_witness :
  well_configured (this overdue)
  /\ consistent (this overdue)
  /\ hook_total (this overdue)
  /\ consistent (this (snd (getState overdue)))
  /\ consistent (this (snd (reset overdue)))
  /\ consistent (this (snd (call (user always_fails) overdue))).
Proof.
  assert (Hw : well_configured (this overdue)).
  { split; vm_compute; discriminate. }
  assert (Hc : consistent (this overdue)).
  { split; [vm_compute; discriminate|]. split; [vm_compute; discriminate|].
    split; intros H; vm_compute in H; discriminate. }
  destruct (breaker_stays_consistent (World := World) (RT := runtime)) as [_ H].
  destruct (H overdue Hw Hc I) as [[Hg _] [[Hr _] Hcall]].
  destruct (Hcall string always_fails) as [Hf _].
  split; [exact Hw|]. split; [exact Hc|]. split; [exact I|].
  split; [exact Hg|]. split; [exact Hr | exact Hf].
Defined.

Lemma callWithRetry_fails_fast_when_open_witness :
  state (this tripped) = open
  /\ ~ due tripped
  /\ 1 <= default 3 (maxAttempts ten_immediate_attempts)
  /\ signal_aborted (signal ten_immediate_attempts) (world tripped) = false
  /\ callWithRetry (fun _ => user succeeds) ten_immediate_attempts tripped
     = (Normal (Rejected (CircuitOpenError 3)),
        mkState (world tripped) (this tripped)
          (log tripped ++ [EvAttempt 1 (Some (CircuitOpenError 3))])).
Proof.
  assert (H1 : state (this tripped) = open) by reflexivity.
  assert (H2 : ~ due tripped).
  { intros [_ Hd]. vm_compute in Hd. apply Hd. reflexivity. }
  assert (H3 : 1 <= default 3 (maxAttempts ten_immediate_attempts))
    by (simpl; lia).
  assert (H4 : signal_aborted (signal ten_immediate_attempts) (world tripped)
               = false) by reflexivity.
  split; [exact H1|]. split; [exact H2|]. split; [exact H3|]. split; [exact H4|].
  exact (callWithRetry_fails_fast_when_open (fun _ : Z => user succeeds)
           ten_immediate_attempts H1 H2 H3 H4).
Defined.

Lemma callback_error_ends_the_run_witness :
  1 <= default 3 (maxAttempts three_attempts_throwing_hook)
  /\ signal_aborted (signal three_attempts_throwing_hook) fresh = false
  /\ always_fails fresh = (Throw failure, mkWorld 0 1 None)
  /\ throwing_hook failure 1 (of_Z 100) (mkWorld 0 1 None)
     = (Throw hook_error, mkWorld 0 1 None)
  /\ retry (fun _ => user always_fails) three_attempts_throwing_hook
       (start fresh a_breaker)
     = (Normal (Rejected hook_error),
        mkState (mkWorld 0 1 None) a_breaker
          [EvAttempt 1 (Some failure); EvOnRetry failure 1 (of_Z 100)])
  /\ throwing_predicate failure 1 (mkWorld 0 1 None)
     = (Throw hook_error, mkWorld 0 1 None)
  /\ retry (fun _ => user always_fails) three_attempts_throwing_predicate
       (start fresh a_breaker)
     = (Normal (Rejected hook_error),
        mkState (mkWorld 0 1 None) a_breaker [EvAttempt 1 (Some failure)]).
Proof.
  assert (H1 : 1 <= default 3 (maxAttempts three_attempts_throwing_hook))
    by (simpl; lia).
  assert (H2 : signal_aborted (signal three_attempts_throwing_hook) fresh = false)
    by reflexivity.
  assert (H3 : always_fails fresh = (Throw failure, mkWorld 0 1 None))
    by reflexivity.
  assert (H4 : signal_aborted (signal three_attempts_throwing_hook)
                 (mkWorld 0 1 None) = false) by reflexivity.
  assert (H5 : 1 < default 3 (maxAttempts three_attempts_throwing_hook))
    by (simpl; lia).
  split; [exact H1|]. split; [exact H2|]. split; [exact H3|].
  split; [reflexivity|]. split; [|split; [reflexivity|]].
  - destruct (callback_error_ends_the_run (fun _ : Z => always_fails)
                three_attempts_throwing_hook (start fresh a_breaker)
                hook_error (mkWorld 0 1 None) H1 H2 H3 H4) as [_ H].
    exact (H throwing_hook (of_Z 100) eq_refl H5 eq_refl eq_refl eq_refl eq_refl).
  - destruct (callback_error_ends_the_run (fun _ : Z => always_fails)
                three_attempts_throwing_predicate (start fresh a_breaker)
                hook_error (mkWorld 0 1 None) H1 H2 H3 H4) as [H _].
    exact (H throwing_predicate eq_refl eq_refl).
Defined.

Lemma throwing_hook_on_closing_reopens_witness :
  state (this hooked_half_open) = half_open
  /\ halfOpenSuccesses (this hooked_half_open)
     <= successes (this hooked_half_open) + 1
  /\ failureThreshold (this hooked_half_open)
     <= failures (this hooked_half_open) + 1
  /\ onStateChange (this hooked_half_open) = Some closing_hook
  /\ succeeds (world hooked_half_open) = (Normal "ok"%string, mkWorld 60 1 None)
  /\ closing_hook half_open closed (mkWorld 60 1 None)
     = (Throw hook_error, mkWorld 60 1 None)
  /\ closing_hook closed open (mkWorld 60 1 None) = (Normal tt, mkWorld 60 1 None)
  /\ fst (call (user succeeds) hooked_half_open) = Normal (Rejected hook_error)
  /\ state (this (snd (call (user succeeds) hooked_half_open))) = open
  /\ failures (this (snd (call (user succeeds) hooked_half_open))) = 2
  /\ successes (this (snd (call (user succeeds) hooked_half_open))) = 1.
Proof.
  assert (H1 : state (this hooked_half_open) = half_open) by reflexivity.
  assert (H2 : halfOpenSuccesses (this hooked_half_open)
               <= successes (this hooked_half_open) + 1)
    by (vm_compute; discriminate).
  assert (H3 : failureThreshold (this hooked_half_open)
               <= failures (this hooked_half_open) + 1)
    by (vm_compute; discriminate).
  assert (H4 : onStateChange (this hooked_half_open) = Some closing_hook)
    by reflexivity.
  assert (H5 : succeeds (world hooked_half_open)
               = (Normal "ok"%string, mkWorld 60 1 None)) by reflexivity.
  assert (H6 : closing_hook half_open closed (mkWorld 60 1 None)
               = (Throw hook_error, mkWorld 60 1 None)) by reflexivity.
  assert (H7 : closing_hook closed open (mkWorld 60 1 None)
               = (Normal tt, mkWorld 60 1 None)) by reflexivity.
  pose proof (throwing_hook_on_closing_reopens succeeds hooked_half_open
                H1 H2 H3 H4 H5 H6 H7) as H.
  split; [exact H1|]. split; [exact H2|]. split; [exact H3|]. split; [exact H4|].
  split; [exact H5|]. split; [exact H6|]. split; [exact H7|].
  rewrite H. repeat split; reflexivity.
Defined.

End Scenarios.
